(** * c-json: a pull-style JSON reader (src/c-json.c)

    A shallow embedding of the reader of [src/c-json.c] and the properties
    of its nesting-state machine, its unsigned-integer reader and its
    string decoder.

    Conventions of the embedding.
    - A [char] is its unsigned byte value, a [Z] in [0, 256).
    - A pointer into the NUL-terminated input ([const char *]) is the
      suffix of the input that starts there: [*q] is [cur q] (the head, or
      the terminating NUL [0] for the empty suffix), [q[i]] is [at_ q i] and
      [q + k] is [drop k q].  Two pointers into the same buffer are equal
      exactly when the suffixes have the same length ([ptr_eqb]).
    - [size_t] and [unsigned long] have 64 bits (LP64; the code needs POSIX
      [open_memstream] and [newlocale]).  Their wrap-around is written out.
    - Every API function [f(json, ...)] is a function from the state
      [CJson] to its [int] result, what it stores through its return
      location, and the state it leaves.
    - [open_memstream] and [fputc] on a memory stream fail only when memory
      is exhausted.  Memory is assumed to be available, so the stream is
      the list of bytes written so far and the [-ENOTRECOVERABLE] returns
      are not taken. *)

From Stdlib Require Import ZArith Ascii String Lia Bool.
From stdpp Require Import base list.

Open Scope Z_scope.

(** ** Characters *)

Definition chr (a : ascii) : Z := Z.of_N (N_of_ascii a).
Arguments chr a%_char.

(** A C string literal as the bytes before its terminating NUL. *)
Definition cstr (s : string) : list Z := map chr (list_ascii_of_string s).

Definition cur (q : list Z) : Z := hd 0 q.
Definition at_ (q : list Z) (i : nat) : Z := nth i q 0.
Definition ptr_eqb (a b : list Z) : bool := Nat.eqb (length a) (length b).

(** ** Constants of c-json.h and of the platform *)

(** Modelled from the spec: the error codes [C_JSON_E_*] are declared in
    c-json.h, which is not among the sources.  The spec (section 6)
    enumerates them as InvalidJson, InvalidType and DepthOverflow; the
    code returns them as non-zero [int]s next to [0] for success.  They
    are taken as the first positive values of an enumeration; what is
    proved below depends only on their being non-zero and pairwise
    distinct ([error_codes_distinct]). *)
Definition C_JSON_E_INVALID_JSON : Z := 1.

(** Modelled from the spec: the error code InvalidType of c-json.h. *)
Definition C_JSON_E_INVALID_TYPE : Z := 2.

(** Modelled from the spec: the error code DepthOverflow of c-json.h. *)
Definition C_JSON_E_DEPTH_OVERFLOW : Z := 3.

(** Modelled from the spec: the value kinds [C_JSON_TYPE_*] of c-json.h
    that [c_json_peek] returns (spec section 4.1: array-open, object-open,
    string, number, boolean, null); [None] stands for the [-1] of
    [c_json_peek]. *)
Inductive CJsonType : Type :=
| C_JSON_TYPE_NULL
| C_JSON_TYPE_BOOLEAN
| C_JSON_TYPE_NUMBER
| C_JSON_TYPE_STRING
| C_JSON_TYPE_ARRAY
| C_JSON_TYPE_OBJECT.

Definition SIZE_MAX : Z := 2 ^ 64 - 1.
Definition ULONG_MAX : Z := 2 ^ 64 - 1.

(** [size_t] arithmetic: [x + 1] and [x - 1] modulo [2 ^ 64]. *)
Definition size_incr (x : Z) : Z := (x + 1) mod (SIZE_MAX + 1).
Definition size_decr (x : Z) : Z := (x - 1) mod (SIZE_MAX + 1).

(** [sizeof(struct CJson)] without the flexible array member: two
    pointers, an [int] with its padding and two [size_t]. *)
Definition sizeof_CJson : Z := 40.

(** ** The reader state: [struct CJson] *)

Record CJson : Type := mkCJson {
  input : option (list Z);   (* NULL outside a session *)
  p : list Z;                (* meaningful only while [input] is set *)
  poison : Z;
  n_states : Z;
  level : Z;
  states : list Z
}.

Definition set_input (json : CJson) (i : option (list Z)) : CJson :=
  mkCJson i json.(p) json.(poison) json.(n_states) json.(level) json.(states).
Definition set_p (json : CJson) (q : list Z) : CJson :=
  mkCJson json.(input) q json.(poison) json.(n_states) json.(level) json.(states).
Definition set_poison (json : CJson) (e : Z) : CJson :=
  mkCJson json.(input) json.(p) e json.(n_states) json.(level) json.(states).
Definition set_level (json : CJson) (l : Z) : CJson :=
  mkCJson json.(input) json.(p) json.(poison) json.(n_states) l json.(states).
Definition set_states (json : CJson) (s : list Z) : CJson :=
  mkCJson json.(input) json.(p) json.(poison) json.(n_states) json.(level) s.

(** [states] holds the bytes of memory from [states[0]] on, as far as they
    lie in the block of the reader or have been written.  The flexible
    array has no bound of its own: [states[i]] is the byte [i] places
    behind the header, inside the block or not.  A byte behind the list
    reads [0], and a write behind the list lands in the memory behind the
    block: the list grows to hold it.  [stack_inv_in_bounds] shows that
    the index stays inside the block when the size of the block did not
    wrap ([valid_depth]). *)
Fixpoint store_state (i : nat) (c : Z) (l : list Z) : list Z :=
  match i, l with
  | O, [] => [c]
  | O, _ :: l => c :: l
  | S i, [] => 0 :: store_state i c []
  | S i, x :: l => x :: store_state i c l
  end.

Definition load_state (i : nat) (l : list Z) : Z := nth i l 0.

(** [json->states[json->level]] *)
Definition cur_state (json : CJson) : Z :=
  load_state (Z.to_nat json.(level)) json.(states).

(** [json->states[json->level] = c] *)
Definition set_cur_state (json : CJson) (c : Z) : CJson :=
  set_states json (store_state (Z.to_nat json.(level)) c json.(states)).

(** [return (json->poison = e);] *)
Definition fail (json : CJson) (e : Z) : Z * CJson := (e, set_poison json e).

(** ** Whitespace and the transition engine *)

Definition is_space (c : Z) : bool :=
  (c =? chr " ") || (c =? chr "009") || (c =? chr "010") || (c =? chr "013").

Fixpoint skip_space (q : list Z) : list Z :=
  match q with
  | c :: q' => if is_space c then skip_space q' else q
  | [] => q
  end.

Definition c_json_advance (json : CJson) : Z * CJson :=
  if negb (json.(poison) =? 0) then (json.(poison), json) else
  let json := set_p json (skip_space json.(p)) in
  let st := cur_state json in
  if st =? chr "[" then
    if cur json.(p) =? chr "," then
      let json := set_cur_state json (chr ",") in
      (0, set_p json (skip_space (drop 1 json.(p))))
    else if negb (cur json.(p) =? chr "]") then fail json C_JSON_E_INVALID_JSON
    else (0, json)
  else if st =? chr "," then
    if cur json.(p) =? chr "," then
      (0, set_p json (skip_space (drop 1 json.(p))))
    else if cur json.(p) =? chr "]" then
      (0, set_cur_state json (chr "["))
    else fail json C_JSON_E_INVALID_JSON
  else if st =? chr "{" then
    if cur json.(p) =? chr ":" then
      let json := set_cur_state json (chr ":") in
      (0, set_p json (skip_space (drop 1 json.(p))))
    else fail json C_JSON_E_INVALID_JSON
  else if st =? chr ":" then
    if cur json.(p) =? chr "," then
      let json := set_cur_state json (chr "{") in
      let json := set_p json (skip_space (drop 1 json.(p))) in
      if negb (cur json.(p) =? chr "034") then fail json C_JSON_E_INVALID_JSON
      else (0, json)
    else if negb (cur json.(p) =? chr "}") then fail json C_JSON_E_INVALID_JSON
    else (0, json)
  else (0, json).

(** ** Code units and UTF-8 *)

Definition in_range (lo hi c : Z) : bool := (lo <=? c) && (c <=? hi).

(** One [case] group of the digit loop of [c_json_read_utf16_unit]. *)
Definition hex_digit (c : Z) : option Z :=
  if in_range (chr "0") (chr "9") c then Some (c - chr "0")
  else if in_range (chr "a") (chr "f") c then Some (c - chr "a" + 0x0a)
  else if in_range (chr "A") (chr "F") c then Some (c - chr "A" + 0x0a)
  else None.

(** [inl r] is the error return [r]; [inr cu] is success with [*unitp = cu]. *)
Definition c_json_read_utf16_unit (q : list Z) : Z + Z :=
  match hex_digit (at_ q 0) with
  | None => inl C_JSON_E_INVALID_JSON
  | Some d0 =>
    match hex_digit (at_ q 1) with
    | None => inl C_JSON_E_INVALID_JSON
    | Some d1 =>
      match hex_digit (at_ q 2) with
      | None => inl C_JSON_E_INVALID_JSON
      | Some d2 =>
        match hex_digit (at_ q 3) with
        | None => inl C_JSON_E_INVALID_JSON
        | Some d3 =>
          inr (Z.lor (Z.lor (Z.lor (Z.shiftl d0 12) (Z.shiftl d1 8))
                            (Z.shiftl d2 4)) d3)
        end
      end
    end
  end.

(** [fputc((char)v, stream)]: the byte written is [v] as [unsigned char]. *)
Definition fputc (v : Z) (stream : list Z) : list Z := stream ++ [v mod 256].

(** The [default: assert(0)] arm is the last one; [surrogate_cp_range]
    and [utf16_unit_range] show that the callers stay below it. *)
Definition c_json_write_utf8 (cp : Z) (stream : list Z) : list Z :=
  if in_range 0x0000 0x007F cp then
    fputc cp stream
  else if in_range 0x0080 0x07FF cp then
    let stream := fputc (Z.lor 0xc0 (Z.shiftr cp 6)) stream in
    fputc (Z.lor 0x80 (Z.land cp 0x3f)) stream
  else if in_range 0x0800 0xFFFF cp then
    let stream := fputc (Z.lor 0xe0 (Z.shiftr cp 12)) stream in
    let stream := fputc (Z.lor 0x80 (Z.land (Z.shiftr cp 6) 0x3f)) stream in
    fputc (Z.lor 0x80 (Z.land cp 0x3f)) stream
  else if in_range 0x10000 0x10FFFF cp then
    let stream := fputc (Z.lor 0xf0 (Z.shiftr cp 18)) stream in
    let stream := fputc (Z.lor 0x80 (Z.land (Z.shiftr cp 12) 0x3f)) stream in
    let stream := fputc (Z.lor 0x80 (Z.land (Z.shiftr cp 6) 0x3f)) stream in
    fputc (Z.lor 0x80 (Z.land cp 0x3f)) stream
  else stream.

(** ** Construction and session control *)

(** [valid_depth] is the condition under which the size passed to
    [calloc] does not wrap. *)
Definition valid_depth (max_depth : Z) : Prop :=
  0 <= max_depth /\ sizeof_CJson + max_depth + 1 <= SIZE_MAX.

(** The size passed to [calloc]: the size of [struct CJson] plus
    [max_depth + 1], computed in [size_t].  It wraps when [max_depth] is
    one of the 41 values from [SIZE_MAX - 40] on. *)
Definition calloc_size (max_depth : Z) : Z :=
  (sizeof_CJson + max_depth + 1) mod (SIZE_MAX + 1).

(** [calloc(1, calloc_size)] zeroes the block: no input, no poison, level
    [0], and as many zero states as the block has bytes behind the
    header.  That is [max_depth + 1] states when the size did not wrap,
    and none when it did ([calloc_size max_depth <= sizeof_CJson] then;
    below [sizeof_CJson] the header itself does not fit the block).
    [n_states] is [max_depth] in either case. *)
Definition c_json_new (max_depth : Z) : CJson :=
  mkCJson None [] 0 max_depth 0
          (replicate (Z.to_nat (calloc_size max_depth - sizeof_CJson)) 0).

Definition c_json_peek (json : CJson) : option CJsonType * CJson :=
  if negb (json.(poison) =? 0) then (None, json) else
  let c := cur json.(p) in
  if c =? chr "[" then (Some C_JSON_TYPE_ARRAY, json)
  else if c =? chr "{" then (Some C_JSON_TYPE_OBJECT, json)
  else if c =? chr "034" then (Some C_JSON_TYPE_STRING, json)
  else if in_range (chr "0") (chr "9") c || (c =? chr "-") then
    (Some C_JSON_TYPE_NUMBER, json)
  else if (c =? chr "t") || (c =? chr "f") then (Some C_JSON_TYPE_BOOLEAN, json)
  else if c =? chr "n" then (Some C_JSON_TYPE_NULL, json)
  else (None, json).

(** The caller's contract is [json->input == NULL] (the [assert]). *)
Definition c_json_begin_read (json : CJson) (string : list Z) : CJson :=
  set_p (set_input json (Some string)) (skip_space string).

Definition c_json_end_read (json : CJson) : Z * CJson :=
  let r := json.(poison) in
  let r :=
    if r =? 0 then
      let r := if 0 <? json.(level) then C_JSON_E_INVALID_TYPE else r in
      if (json.(level) =? 0) && negb (cur json.(p) =? 0)
      then C_JSON_E_INVALID_JSON else r
    else r in
  (r, set_p (set_input (set_level json 0) None) []).

(** ** The C library functions the readers call *)

Definition isdigit (c : Z) : bool := in_range (chr "0") (chr "9") c.

(** [isspace] in the "C" locale: space, [\t], [\n], [\v], [\f], [\r]. *)
Definition isspace (c : Z) : bool := (c =? chr " ") || in_range 9 13 c.

Fixpoint skip_isspace (q : list Z) : list Z :=
  match q with
  | c :: q' => if isspace c then skip_isspace q' else q
  | [] => q
  end.

(** The digits of the subject sequence: the exact value read so far and
    the first character that is not a digit. *)
Fixpoint strtoul_digits (q : list Z) (acc : Z) : Z * list Z :=
  match q with
  | c :: q' =>
    if isdigit c then strtoul_digits q' (10 * acc + (c - chr "0"))
    else (acc, q)
  | [] => (acc, q)
  end.

(** ISO C [strtoul(nptr, &end, 10)]: white space, an optional sign, then
    decimal digits.  Without a digit nothing is converted and [end] is
    [nptr].  A value above [ULONG_MAX] gives [ULONG_MAX] (and sets
    [errno], which the reader never looks at); a minus sign negates the
    value in [unsigned long].  The result is the value and [end]. *)
Definition strtoul (nptr : list Z) : Z * list Z :=
  let q := skip_isspace nptr in
  let neg := cur q =? chr "-" in
  let q := if neg || (cur q =? chr "+") then drop 1 q else q in
  if isdigit (cur q) then
    let '(v, endp) := strtoul_digits q 0 in
    (if ULONG_MAX <? v then ULONG_MAX
     else if neg then (- v) mod (ULONG_MAX + 1) else v, endp)
  else (0, nptr).

(** [strncmp(q, lit, strlen(lit)) == 0] for a literal [lit] without NUL. *)
Fixpoint strncmp_eq (q lit : list Z) : bool :=
  match lit, q with
  | [], _ => true
  | c :: lit', d :: q' => (d =? c) && strncmp_eq q' lit'
  | _ :: _, [] => false
  end.

(** A run of decimal digits. *)
Definition all_digits (ds : list Z) : Prop :=
  Forall (fun c => isdigit c = true) ds.

(** ** Scalar readers *)

Definition c_json_read_null (json : CJson) : Z * CJson :=
  if negb (json.(poison) =? 0) then (json.(poison), json) else
  if cur_state json =? chr "{" then fail json C_JSON_E_INVALID_TYPE else
  if cur json.(p) =? chr "n" then
    if negb (strncmp_eq json.(p) (cstr "null")) then
      fail json C_JSON_E_INVALID_JSON
    else
      let json := set_p json (drop (length (cstr "null")) json.(p)) in
      c_json_advance json
  else fail json C_JSON_E_INVALID_TYPE.

(** The result carries [Some number] when [*numberp] is written. *)
Definition c_json_read_u64 (json : CJson) : Z * option Z * CJson :=
  if negb (json.(poison) =? 0) then (json.(poison), None, json) else
  if cur_state json =? chr "{" then
    (C_JSON_E_INVALID_TYPE, None, set_poison json C_JSON_E_INVALID_TYPE) else
  if cur json.(p) =? chr "-" then
    (C_JSON_E_INVALID_TYPE, None, set_poison json C_JSON_E_INVALID_TYPE) else
  let '(number, endp) := strtoul json.(p) in
  if ptr_eqb endp json.(p) || (cur endp =? chr ".") || (cur endp =? chr "e")
     || (cur endp =? chr "E") then
    (C_JSON_E_INVALID_TYPE, None, set_poison json C_JSON_E_INVALID_TYPE) else
  let json := set_p json endp in
  let '(r, json) := c_json_advance json in
  if negb (r =? 0) then (r, None, json) else
  (0, Some number, json).

(** [strtod] in the "C" locale is taken through [strtod_end], the [end]
    pointer it leaves for a given start; the [double] it returns is not
    part of the state and is left out. *)
Definition c_json_read_f64 (strtod_end : list Z -> list Z) (json : CJson)
  : Z * CJson :=
  if negb (json.(poison) =? 0) then (json.(poison), json) else
  if cur_state json =? chr "{" then fail json C_JSON_E_INVALID_TYPE else
  let endp := strtod_end json.(p) in
  if ptr_eqb endp json.(p) then fail json C_JSON_E_INVALID_JSON else
  let json := set_p json endp in
  c_json_advance json.

(** The state is examined before the poison, as in the source. *)
Definition c_json_read_bool (json : CJson) : Z * option bool * CJson :=
  if cur_state json =? chr "{" then
    (C_JSON_E_INVALID_TYPE, None, set_poison json C_JSON_E_INVALID_TYPE) else
  if negb (json.(poison) =? 0) then (json.(poison), None, json) else
  let after (b : bool) (json : CJson) :=
    let '(r, json) := c_json_advance json in
    if negb (r =? 0) then (r, None, json) else (0, Some b, json) in
  if cur json.(p) =? chr "t" then
    if negb (strncmp_eq json.(p) (cstr "true")) then
      (C_JSON_E_INVALID_JSON, None, set_poison json C_JSON_E_INVALID_JSON)
    else after true (set_p json (drop (length (cstr "true")) json.(p)))
  else if cur json.(p) =? chr "f" then
    if negb (strncmp_eq json.(p) (cstr "false")) then
      (C_JSON_E_INVALID_JSON, None, set_poison json C_JSON_E_INVALID_JSON)
    else after false (set_p json (drop (length (cstr "false")) json.(p)))
  else (C_JSON_E_INVALID_TYPE, None, set_poison json C_JSON_E_INVALID_TYPE).

Definition c_json_more (json : CJson) : bool * CJson :=
  if negb (json.(poison) =? 0) then (false, json) else
  if cur json.(p) =? 0 then (false, json) else
  let st := cur_state json in
  if st =? chr "[" then (negb (cur json.(p) =? chr "]"), json)
  else if (st =? chr "{") || (st =? chr ":") then
    (negb (cur json.(p) =? chr "}"), json)
  else (true, json).

(** ** The string reader *)

(** How one turn of the [while] loop of [c_json_read_string] ends: the loop
    condition fails ([Break]), the body returns the error [r] with the
    cursor at [q] ([Err r q]), or the body completes with the cursor at
    [q] and the stream [out] ([Next q out]). *)
Inductive turn : Type :=
| Break
| Err (r : Z) (q : list Z)
| Next (q : list Z) (out : list Z).

(** The [case 'u'] arm, entered with the cursor [q] behind the [u]. *)
Definition string_unicode (q : list Z) (stream : list Z) : turn :=
  match c_json_read_utf16_unit q with
  | inl r => Err r q
  | inr cu =>
    let q := drop 4 q in
    if in_range 0xD800 0xDBFF cu then
      let cp := 0x10000 + Z.shiftl (cu - 0xD800) 10 in
      if negb (at_ q 0 =? chr "\") || negb (at_ q 1 =? chr "u") then
        Err C_JSON_E_INVALID_JSON q
      else
        let q := drop 2 q in
        match c_json_read_utf16_unit q with
        | inl r => Err r q
        | inr cu =>
          let q := drop 4 q in
          if (cu <? 0xDC00) || (0xDFFF <? cu) then Err C_JSON_E_INVALID_JSON q
          else
            let cp := cp + (cu - 0xDC00) in
            Next q (c_json_write_utf8 cp stream)
        end
    else if in_range 0xDC00 0xDFFF cu then Err C_JSON_E_INVALID_JSON q
    else Next q (c_json_write_utf8 cu stream)
  end.

(** The escape [switch], entered with the cursor [q] behind the
    backslash. *)
Definition string_escape (q : list Z) (stream : list Z) : turn :=
  let c := cur q in
  if c =? chr "034" then Next (drop 1 q) (fputc (chr "034") stream)
  else if c =? chr "\" then Next (drop 1 q) (fputc (chr "\") stream)
  else if c =? chr "/" then Next (drop 1 q) (fputc (chr "/") stream)
  else if c =? chr "b" then Next (drop 1 q) (fputc 8 stream)
  else if c =? chr "f" then Next (drop 1 q) (fputc 12 stream)
  else if c =? chr "n" then Next (drop 1 q) (fputc 10 stream)
  else if c =? chr "r" then Next (drop 1 q) (fputc 13 stream)
  else if c =? chr "t" then Next (drop 1 q) (fputc 9 stream)
  else if c =? chr "u" then string_unicode (drop 1 q) stream
  else Err C_JSON_E_INVALID_JSON q.

Definition string_turn (q : list Z) (stream : list Z) : turn :=
  if cur q =? chr "034" then Break
  else if cur q <? 0x20 then Err C_JSON_E_INVALID_JSON q
  else if cur q =? chr "\" then string_escape (drop 1 q) stream
  else Next (drop 1 q) (fputc (cur q) stream).

(** The loop, bounded by [fuel] turns: [Some (r, q, out)] is its outcome,
    [r = 0] for the exit at the closing quote and the error otherwise;
    [None] is fuel used up.  A turn that does not end the loop moves the
    cursor forward, so one turn more than the characters left is enough
    ([string_loop_enough]). *)
Fixpoint string_loop (fuel : nat) (q : list Z) (stream : list Z)
  : option (Z * list Z * list Z) :=
  match fuel with
  | O => None
  | S fuel =>
    match string_turn q stream with
    | Break => Some (0, q, stream)
    | Err r q' => Some (r, q', stream)
    | Next q' stream' => string_loop fuel q' stream'
    end
  end.

Definition string_scan (q : list Z) (stream : list Z)
  : option (Z * list Z * list Z) :=
  string_loop (S (length q)) q stream.

(** What a [char *] hands to its reader: the bytes in front of the first
    NUL.  [fclose] leaves the bytes of the stream in the buffer with a
    NUL behind them, and [size], their number, is not passed on. *)
Fixpoint c_string (buffer : list Z) : list Z :=
  match buffer with
  | [] => []
  | c :: buffer => if c =? 0 then [] else c :: c_string buffer
  end.

(** The result carries [Some s] when [*stringp] is written: [s] is the
    string that the caller finds at [*stringp], the buffer of the stream
    read as a [char *]. *)
Definition c_json_read_string (json : CJson) : Z * option (list Z) * CJson :=
  if negb (json.(poison) =? 0) then (json.(poison), None, json) else
  if negb (cur json.(p) =? chr "034") then
    (C_JSON_E_INVALID_TYPE, None, set_poison json C_JSON_E_INVALID_TYPE) else
  let json := set_p json (drop 1 json.(p)) in
  match string_scan json.(p) [] with
  | None => (json.(poison), None, json)    (* excluded by [string_scan_total] *)
  | Some (r, q, string) =>
    let json := set_p json q in
    if negb (r =? 0) then (r, None, set_poison json r) else
    let json := set_p json (drop 1 json.(p)) in
    let '(r, json) := c_json_advance json in
    if negb (r =? 0) then (r, None, json) else
    (0, Some (c_string string), json)
  end.

(** [turns q out q' out']: some turns of the loop lead from the cursor
    [q] and the stream [out] to the cursor [q'] and the stream [out']. *)
Inductive turns : list Z -> list Z -> list Z -> list Z -> Prop :=
| turns_refl q out : turns q out q out
| turns_step q out q1 out1 q2 out2 :
    string_turn q out = Next q1 out1 ->
    turns q1 out1 q2 out2 ->
    turns q out q2 out2.

(** A byte of a string that the loop copies: no control character, no
    quote and no backslash. *)
Definition is_plain (c : Z) : bool :=
  (0x20 <=? c) && (c <? 256) && negb (c =? chr "034") && negb (c =? chr "\").

Definition all_plain (s : list Z) : Prop := Forall (fun c => is_plain c = true) s.

(** The text of an escaped code unit: backslash, [u] and four digits. *)
Definition unit_escape (digits : list Z) : list Z := cstr "\u" ++ digits.

(** The escape of a low surrogate stands at the start of [rest]. *)
Definition low_surrogate_follows (rest : list Z) : Prop :=
  exists ls lo rest',
    rest = unit_escape ls ++ rest' /\ length ls = 4%nat /\
    c_json_read_utf16_unit ls = inr lo /\ 0xDC00 <= lo <= 0xDFFF.

(** The code unit [cu], whose escape is followed by [rest], is a
    surrogate without its partner: a low surrogate met on its own, or a
    high surrogate that no low surrogate follows. *)
Definition unpaired (cu : Z) (rest : list Z) : Prop :=
  0xDC00 <= cu <= 0xDFFF \/
  (0xD800 <= cu <= 0xDBFF /\ ~ low_surrogate_follows rest).

(** ** Containers *)

Definition c_json_open_array (json : CJson) : Z * CJson :=
  if negb (json.(poison) =? 0) then (json.(poison), json) else
  if cur_state json =? chr "{" then fail json C_JSON_E_INVALID_TYPE else
  if negb (cur json.(p) =? chr "[") then fail json C_JSON_E_INVALID_TYPE else
  if json.(n_states) <=? json.(level) then fail json C_JSON_E_DEPTH_OVERFLOW else
  let json := set_p json (skip_space (drop 1 json.(p))) in
  let json := set_level json (size_incr json.(level)) in
  (0, set_cur_state json (chr "[")).

Definition c_json_close_array (json : CJson) : Z * CJson :=
  if negb (json.(poison) =? 0) then (json.(poison), json) else
  if negb (cur_state json =? chr "[") && negb (cur_state json =? chr ",") then
    fail json C_JSON_E_INVALID_TYPE else
  if negb (cur json.(p) =? chr "]") then fail json C_JSON_E_INVALID_JSON else
  let json := set_p json (drop 1 json.(p)) in
  let json := set_level json (size_decr json.(level)) in
  c_json_advance json.

Definition c_json_open_object (json : CJson) : Z * CJson :=
  if negb (json.(poison) =? 0) then (json.(poison), json) else
  if cur_state json =? chr "{" then fail json C_JSON_E_INVALID_TYPE else
  if negb (cur json.(p) =? chr "{") then fail json C_JSON_E_INVALID_TYPE else
  if json.(n_states) <=? json.(level) then fail json C_JSON_E_DEPTH_OVERFLOW else
  let json := set_p json (skip_space (drop 1 json.(p))) in
  if negb (cur json.(p) =? chr "034") && negb (cur json.(p) =? chr "}") then
    fail json C_JSON_E_INVALID_JSON else
  let json := set_level json (size_incr json.(level)) in
  (0, set_cur_state json (chr "{")).

Definition c_json_close_object (json : CJson) : Z * CJson :=
  if negb (json.(poison) =? 0) then (json.(poison), json) else
  if negb (cur_state json =? chr "{") && negb (cur_state json =? chr ":") then
    fail json C_JSON_E_INVALID_TYPE else
  if negb (cur json.(p) =? chr "}") then fail json C_JSON_E_INVALID_JSON else
  let json := set_p json (drop 1 json.(p)) in
  let json := set_level json (size_decr json.(level)) in
  c_json_advance json.

(** ** Sequences of calls *)

Inductive op : Type :=
| OpBeginRead (string : list Z)
| OpEndRead
| OpPeek
| OpMore
| OpReadNull
| OpReadString
| OpReadU64
| OpReadF64
| OpReadBool
| OpOpenArray
| OpCloseArray
| OpOpenObject
| OpCloseObject.

(** What a call hands back to its caller. *)
Inductive ret : Type :=
| RVoid
| RInt (r : Z)
| RType (t : option CJsonType)
| RMore (b : bool)
| RString (r : Z) (string : option (list Z))
| RU64 (r : Z) (number : option Z)
| RBool (r : Z) (b : option bool).

Definition exec (strtod_end : list Z -> list Z) (o : op) (json : CJson)
  : ret * CJson :=
  match o with
  | OpBeginRead string => (RVoid, c_json_begin_read json string)
  | OpEndRead => let '(r, json) := c_json_end_read json in (RInt r, json)
  | OpPeek => let '(t, json) := c_json_peek json in (RType t, json)
  | OpMore => let '(b, json) := c_json_more json in (RMore b, json)
  | OpReadNull => let '(r, json) := c_json_read_null json in (RInt r, json)
  | OpReadString =>
    let '(r, s, json) := c_json_read_string json in (RString r s, json)
  | OpReadU64 => let '(r, n, json) := c_json_read_u64 json in (RU64 r n, json)
  | OpReadF64 =>
    let '(r, json) := c_json_read_f64 strtod_end json in (RInt r, json)
  | OpReadBool => let '(r, b, json) := c_json_read_bool json in (RBool r b, json)
  | OpOpenArray => let '(r, json) := c_json_open_array json in (RInt r, json)
  | OpCloseArray => let '(r, json) := c_json_close_array json in (RInt r, json)
  | OpOpenObject => let '(r, json) := c_json_open_object json in (RInt r, json)
  | OpCloseObject =>
    let '(r, json) := c_json_close_object json in (RInt r, json)
  end.

Fixpoint run (strtod_end : list Z -> list Z) (ops : list op) (json : CJson)
  : list ret * CJson :=
  match ops with
  | [] => ([], json)
  | o :: ops =>
    let '(r, json) := exec strtod_end o json in
    let '(rs, json) := run strtod_end ops json in
    (r :: rs, json)
  end.

(** The calls a caller may make.  [c_json_begin_read] asserts that no
    session is open.  Every other function dereferences [json->p], which
    is NULL outside a session, unless the poison makes it return first. *)
Definition callable (o : op) (json : CJson) : Prop :=
  match o with
  | OpBeginRead _ => json.(input) = None
  | _ => json.(input) <> None \/ json.(poison) <> 0
  end.

(** The states of a reader made by [c_json_new(&json, max_depth)]. *)
Inductive reachable (strtod_end : list Z -> list Z) (max_depth : Z)
  : CJson -> Prop :=
| reachable_new : reachable strtod_end max_depth (c_json_new max_depth)
| reachable_exec o json :
    reachable strtod_end max_depth json ->
    callable o json ->
    reachable strtod_end max_depth (snd (exec strtod_end o json)).

(** The invariant of the nesting stack. *)
Record stack_inv (max_depth : Z) (json : CJson) : Prop := mk_stack_inv {
  inv_n_states : json.(n_states) = max_depth;
  inv_level : 0 <= json.(level) <= max_depth;
  inv_length : Z.of_nat (length json.(states)) = max_depth + 1;
  inv_root : json.(states) !! 0%nat = Some 0
}.

(** ** What the spec says of the encoding *)

(** The code point of a surrogate pair, in the words of the spec
    (section 4.3). *)
Definition surrogate_pair_cp (high low : Z) : Z :=
  0x10000 + (high - 0xD800) * 0x400 + (low - 0xDC00).

(** Standard UTF-8 (RFC 3629) by code-point range, in division and
    remainder; [c_json_write_utf8] is compared with it. *)
Definition utf8_standard (cp : Z) : list Z :=
  if cp <? 0x80 then [cp]
  else if cp <? 0x800 then [0xC0 + cp / 64; 0x80 + cp mod 64]
  else if cp <? 0x10000 then
    [0xE0 + cp / 4096; 0x80 + (cp / 64) mod 64; 0x80 + cp mod 64]
  else
    [0xF0 + cp / 262144; 0x80 + (cp / 4096) mod 64;
     0x80 + (cp / 64) mod 64; 0x80 + cp mod 64].

(** The decimal value of a run of digits. *)
Definition decimal_value (ds : list Z) : Z :=
  fold_left (fun acc c => 10 * acc + (c - chr "0")) ds 0.

(** ** Inputs of the scenarios *)

Definition dquote : list Z := [chr "034"].

(** [{"a" 1}]: an object whose key is not followed by a colon. *)
Definition key_without_colon : list Z :=
  cstr "{" ++ dquote ++ cstr "a" ++ dquote ++ cstr " 1}".

(** The calls of a caller that expects an array of two numbers, the
    outcome of which claim C2 is about, and of one that expects an array
    of one number. *)
Definition two_numbers : list op :=
  [OpOpenArray; OpReadU64; OpReadU64; OpCloseArray; OpEndRead].
Definition one_number : list op :=
  [OpOpenArray; OpReadU64; OpCloseArray; OpEndRead].

(** [{"a":1,}]: an object with a comma before its closing brace. *)
Definition object_trailing_comma : list Z :=
  cstr "{" ++ dquote ++ cstr "a" ++ dquote ++ cstr ":1,}".

(** The reader on [[1,]] behind the number: the scenario of claim C9
    before the array is closed. *)
Definition behind_trailing_comma : CJson :=
  snd (run (fun q => q) [OpOpenArray; OpReadU64]
         (c_json_begin_read (c_json_new 1) (cstr "[1,]"))).

(** A reader made with the largest depth that a [size_t] holds, at an
    opening bracket, and the reader behind the call that enters the
    array. *)
Definition at_bracket_size_max : CJson :=
  snd (exec (fun q => q) (OpBeginRead (cstr "[")) (c_json_new SIZE_MAX)).
Definition opened_size_max : CJson :=
  snd (exec (fun q => q) OpOpenArray at_bracket_size_max).

(** A reader of depth one at the start of [[[]]]. *)
Definition at_nested_array : CJson :=
  snd (exec (fun q => q) (OpBeginRead (cstr "[[]]")) (c_json_new 1)).

(** A reader of depth one at the start of the literal of [2 ^ 64]. *)
Definition at_two_to_64 : CJson :=
  c_json_begin_read (c_json_new 1) (cstr "18446744073709551616").

(** A reader of depth one at the start of [12.5]. *)
Definition at_decimal_fraction : CJson :=
  c_json_begin_read (c_json_new 1) (cstr "12.5").

(** A reader of depth one at the string ["\uD83D\uDE00"], the escaped
    form of U+1F600. *)
Definition at_grinning_face : CJson :=
  c_json_begin_read (c_json_new 1) (dquote ++ cstr "\uD83D\uDE00" ++ dquote).

(** A reader of depth one at the string ["\uD800"]. *)
Definition at_lone_high : CJson :=
  c_json_begin_read (c_json_new 1) (dquote ++ cstr "\uD800" ++ dquote).

(** ** What a call returns *)

(** The [int] a call returns, for the calls that return one. *)
Definition ret_code (r : ret) : option Z :=
  match r with
  | RInt r | RString r _ | RU64 r _ | RBool r _ => Some r
  | RVoid | RType _ | RMore _ => None
  end.

(** Whether the call has written through its return location. *)
Definition ret_stored (r : ret) : bool :=
  match r with
  | RString _ (Some _) | RU64 _ (Some _) | RBool _ (Some _) => true
  | _ => false
  end.

(** ** The contents of a string *)

(** The two-character escapes of the [switch] of [c_json_read_string]:
    the character behind the backslash and the byte it stands for. *)
Definition escape_table : list (Z * Z) :=
  [(chr "034", chr "034"); (chr "\", chr "\"); (chr "/", chr "/");
   (chr "b", 8); (chr "f", 12); (chr "n", 10); (chr "r", 13); (chr "t", 9)].

(** [string_content s out]: the text [s] between the quotes of a string
    is made of plain bytes, two-character escapes, escaped code units
    outside the surrogates and pairs of escaped surrogates, and [out] is
    what they stand for, one behind the other. *)
Inductive string_content : list Z -> list Z -> Prop :=
| content_end : string_content [] []
| content_plain c s out :
    is_plain c = true ->
    string_content s out ->
    string_content (c :: s) (c :: out)
| content_escape c b s out :
    In (c, b) escape_table ->
    string_content s out ->
    string_content (chr "\" :: c :: s) (b :: out)
| content_unit hs cu s out :
    length hs = 4%nat ->
    c_json_read_utf16_unit hs = inr cu ->
    cu < 0xD800 \/ 0xDFFF < cu ->
    string_content s out ->
    string_content (unit_escape hs ++ s) (utf8_standard cu ++ out)
| content_pair hs ls hi lo s out :
    length hs = 4%nat -> length ls = 4%nat ->
    c_json_read_utf16_unit hs = inr hi ->
    c_json_read_utf16_unit ls = inr lo ->
    0xD800 <= hi <= 0xDBFF -> 0xDC00 <= lo <= 0xDFFF ->
    string_content s out ->
    string_content (unit_escape hs ++ unit_escape ls ++ s)
                   (utf8_standard (surrogate_pair_cp hi lo) ++ out).

(** A reader of depth one at a string that mixes a plain byte, a
    two-character escape, an escaped code unit and an escaped pair. *)
Definition mixed_text : list Z := cstr "a\n\u00e9\uD83D\uDE00b".
Definition at_mixed_string : CJson :=
  c_json_begin_read (c_json_new 1) (dquote ++ mixed_text ++ dquote).

(** A reader of depth one at a string with an escaped NUL between two
    letters. *)
Definition nul_text : list Z := cstr "a\u0000b".
Definition at_nul_string : CJson :=
  c_json_begin_read (c_json_new 1) (dquote ++ nul_text ++ dquote).

(** The characters of an input are bytes. *)
Definition all_bytes (q : list Z) : Prop := Forall (fun c => 0 <= c < 256) q.

(** The text at the cursor is a well-formed string: a content between
    quotes. *)
Definition string_at (q : list Z) : Prop :=
  exists s out tail,
    q = dquote ++ s ++ dquote ++ tail /\ string_content s out.

(** A reader of depth one at a string without its closing quote. *)
Definition at_open_string : CJson :=
  c_json_begin_read (c_json_new 1) (dquote ++ cstr "abc").

(** The hexadecimal digits and what they are worth: the characters [0]
    to [9] are worth 0 to 9, and the letters [a] to [f], like [A] to [F],
    are worth 10 to 15.  No other character is a digit. *)
Definition hex_char (c d : Z) : Prop :=
  (chr "0" <= c <= chr "9" /\ d = c - chr "0") \/
  (chr "a" <= c <= chr "f" /\ d = c - chr "a" + 10) \/
  (chr "A" <= c <= chr "F" /\ d = c - chr "A" + 10).

(** The number that four hexadecimal digits, given by their values,
    write in base sixteen. *)
Definition hex_value (d0 d1 d2 d3 : Z) : Z :=
  ((d0 * 16 + d1) * 16 + d2) * 16 + d3.

(** A reader of depth one at [007], at [+5] and at a vertical tab
    followed by [-5]. *)
Definition at_leading_zeros : CJson :=
  c_json_begin_read (c_json_new 1) (cstr "007").
Definition at_plus_five : CJson :=
  c_json_begin_read (c_json_new 1) (cstr "+5").
Definition at_tab_minus_five : CJson :=
  c_json_begin_read (c_json_new 1) (11 :: cstr "-5").

(** A reader of depth one at [null]. *)
Definition at_null : CJson :=
  c_json_begin_read (c_json_new 1) (cstr "null").

(** A reader of depth one at [true]. *)
Definition at_true : CJson :=
  c_json_begin_read (c_json_new 1) (cstr "true").

(** ** Arrays of numbers *)

(** The texts [items] with a comma between each two. *)
Fixpoint comma_separated (items : list (list Z)) : list Z :=
  match items with
  | [] => []
  | [x] => x
  | x :: items => x ++ chr "," :: comma_separated items
  end.

(** The JSON text of an array with the elements [items]. *)
Definition array_text (items : list (list Z)) : list Z :=
  chr "[" :: comma_separated items ++ [chr "]"].

(** A run of decimal digits: the text of an unsigned integer. *)
Definition digit_run (ds : list Z) : Prop := ds <> [] /\ all_digits ds.

(** The calls of a caller that reads the numbers of an array as long as
    [c_json_more] says there are some, [n] times, then closes the array
    and ends the session. *)
Fixpoint element_calls (n : nat) : list op :=
  match n with
  | O => [OpMore; OpCloseArray; OpEndRead]
  | S n => OpMore :: OpReadU64 :: element_calls n
  end.

Definition number_array_calls (n : nat) : list op :=
  OpOpenArray :: element_calls n.

(** What these calls are to return for the elements [items]. *)
Fixpoint element_results (items : list (list Z)) : list ret :=
  match items with
  | [] => [RMore false; RInt 0; RInt 0]
  | ds :: items =>
    RMore true :: RU64 0 (Some (Z.min (decimal_value ds) ULONG_MAX))
    :: element_results items
  end.

Definition number_array_results (items : list (list Z)) : list ret :=
  RInt 0 :: element_results items.

(** A reader at level one whose [states[1]] is [st]. *)
Definition in_level_one (inp : option (list Z)) (q : list Z) (d st : Z)
    (rest : list Z) : CJson :=
  mkCJson inp q 0 d 1 (0 :: st :: rest).

(** ** Objects with numbers as values *)

(** A member of an object: the text of its key between the quotes, the
    bytes the key stands for, and the digits of its value. *)
Record member : Type := mk_member {
  key_text : list Z;
  key_bytes : list Z;
  value_digits : list Z
}.

Definition member_ok (m : member) : Prop :=
  string_content m.(key_text) m.(key_bytes) /\ digit_run m.(value_digits).

(** The JSON text of a member: the key in quotes, a colon, the value. *)
Definition member_text (m : member) : list Z :=
  dquote ++ m.(key_text) ++ dquote ++ chr ":" :: m.(value_digits).

(** The JSON text of an object with the members [ms]. *)
Definition object_text (ms : list member) : list Z :=
  chr "{" :: comma_separated (map member_text ms) ++ [chr "}"].

(** The calls of a caller that reads key and value of the members of an
    object as long as [c_json_more] says there are some, [n] times, then
    closes the object and ends the session. *)
Fixpoint member_calls (n : nat) : list op :=
  match n with
  | O => [OpMore; OpCloseObject; OpEndRead]
  | S n => OpMore :: OpReadString :: OpReadU64 :: member_calls n
  end.

Definition number_object_calls (n : nat) : list op :=
  OpOpenObject :: member_calls n.

(** What these calls are to return for the members [ms].  The key comes
    as a [char *]: the bytes of the key in front of the first zero
    byte. *)
Fixpoint member_results (ms : list member) : list ret :=
  match ms with
  | [] => [RMore false; RInt 0; RInt 0]
  | m :: ms =>
    RMore true :: RString 0 (Some (c_string m.(key_bytes)))
    :: RU64 0 (Some (Z.min (decimal_value m.(value_digits)) ULONG_MAX))
    :: member_results ms
  end.

Definition number_object_results (ms : list member) : list ret :=
  RInt 0 :: member_results ms.

(** The members of the object [{"a":1,"b":22}]. *)
Definition two_members : list member :=
  [mk_member (cstr "a") (cstr "a") (cstr "1");
   mk_member (cstr "b") (cstr "b") (cstr "22")].

(** The member of an object whose one key has an escaped NUL between
    two letters, with the value 3. *)
Definition nul_key_member : list member :=
  [mk_member nul_text [97; 0; 98] (cstr "3")].

(** ** The cursor *)

(** The cursor of an unpoisoned reader is at the start of a token: not
    at white space that [skip_space] skips. *)
Definition at_token (json : CJson) : Prop :=
  json.(poison) <> 0 \/ is_space (cur json.(p)) = false.

(** A reader of depth one on [  [ 1 , 2 ]], with white space around the
    tokens, behind the first number. *)
Definition behind_spaced_number : CJson :=
  snd (exec (fun q => q) OpReadU64
        (snd (exec (fun q => q) OpOpenArray
               (snd (exec (fun q => q) (OpBeginRead (cstr "  [ 1 , 2 ]"))
                      (c_json_new 1)))))).

(** The calls that read a value or enter or leave a container. *)
Definition reading_calls : list op :=
  [OpReadNull; OpReadString; OpReadU64; OpReadF64; OpReadBool;
   OpOpenArray; OpCloseArray; OpOpenObject; OpCloseObject].

(** A reader of depth one at the start of [{"a":1}]. *)
Definition at_object : CJson :=
  snd (exec (fun q => q)
         (OpBeginRead (cstr "{" ++ dquote ++ cstr "a" ++ dquote ++ cstr ":1}"))
         (c_json_new 1)).

(** ** Nested arrays *)

(** The text of [n] empty arrays, one in the other, and the calls that
    enter and leave them. *)
Fixpoint nest_text (n : nat) : list Z :=
  match n with
  | O => []
  | S n => chr "[" :: nest_text n ++ [chr "]"]
  end.

Fixpoint nest_calls (n : nat) : list op :=
  match n with
  | O => []
  | S n => OpOpenArray :: nest_calls n ++ [OpCloseArray]
  end.

(** What a nest of arrays leaves of the reader it was entered from. *)
Record nest_left (json json' : CJson) (rest : list Z) : Prop := mk_nest_left {
  left_poison : json'.(poison) = 0;
  left_level : json'.(level) = json.(level);
  left_n_states : json'.(n_states) = json.(n_states);
  left_p : json'.(p) = rest;
  left_length : length json'.(states) = length json.(states);
  left_states : forall i : nat,
    (i <= Z.to_nat json.(level))%nat ->
    load_state i json'.(states) = load_state i json.(states)
}.


(** * Properties *)

(** ** Characters and error codes *)

Ltac chr_eval :=
  repeat match goal with
  | |- context [chr ?a] =>
    let v := eval vm_compute in (chr a) in change (chr a) with v
  | H : context [chr ?a] |- _ =>
    let v := eval vm_compute in (chr a) in change (chr a) with v in H
  end.

Lemma error_codes_distinct :
  C_JSON_E_INVALID_JSON <> 0 /\ C_JSON_E_INVALID_TYPE <> 0 /\
  C_JSON_E_DEPTH_OVERFLOW <> 0 /\
  C_JSON_E_INVALID_JSON <> C_JSON_E_INVALID_TYPE /\
  C_JSON_E_INVALID_JSON <> C_JSON_E_DEPTH_OVERFLOW /\
  C_JSON_E_INVALID_TYPE <> C_JSON_E_DEPTH_OVERFLOW.
Proof. repeat split; discriminate. Qed.

Lemma cstr_app (s t : string) : cstr (s ++ t) = cstr s ++ cstr t.
Proof.
  unfold cstr. induction s as [|a s IH]; simpl; [reflexivity|].
  now rewrite IH.
Qed.

Lemma skip_space_suffix (q : list Z) : (length (skip_space q) <= length q)%nat.
Proof.
  induction q as [|c q IH]; simpl; [lia|].
  destruct (is_space c); simpl; lia.
Qed.

Lemma skip_space_stops (q : list Z) : is_space (cur (skip_space q)) = false.
Proof.
  induction q as [|c q IH]; simpl; [reflexivity|].
  destruct (is_space c) eqn:E; simpl; auto.
Qed.

Lemma skip_space_id (q : list Z) : is_space (cur q) = false -> skip_space q = q.
Proof. destruct q as [|c q]; simpl; [reflexivity|]. now intros ->. Qed.

(** ** The latch, where it holds *)

Section Latch.
Variable json : CJson.
Hypothesis poisoned : json.(poison) <> 0.

Lemma poison_test : negb (json.(poison) =? 0) = true.
Proof. apply negb_true_iff, Z.eqb_neq, poisoned. Qed.

Lemma advance_latched : c_json_advance json = (json.(poison), json).
Proof. unfold c_json_advance. now rewrite poison_test. Qed.

Lemma read_null_latched : c_json_read_null json = (json.(poison), json).
Proof. unfold c_json_read_null. now rewrite poison_test. Qed.

Lemma read_string_latched :
  c_json_read_string json = (json.(poison), None, json).
Proof. unfold c_json_read_string. now rewrite poison_test. Qed.

Lemma read_u64_latched : c_json_read_u64 json = (json.(poison), None, json).
Proof. unfold c_json_read_u64. now rewrite poison_test. Qed.

Lemma read_f64_latched strtod_end :
  c_json_read_f64 strtod_end json = (json.(poison), json).
Proof. unfold c_json_read_f64. now rewrite poison_test. Qed.

Lemma open_array_latched : c_json_open_array json = (json.(poison), json).
Proof. unfold c_json_open_array. now rewrite poison_test. Qed.

Lemma close_array_latched : c_json_close_array json = (json.(poison), json).
Proof. unfold c_json_close_array. now rewrite poison_test. Qed.

Lemma open_object_latched : c_json_open_object json = (json.(poison), json).
Proof. unfold c_json_open_object. now rewrite poison_test. Qed.

Lemma close_object_latched : c_json_close_object json = (json.(poison), json).
Proof. unfold c_json_close_object. now rewrite poison_test. Qed.

Lemma end_read_latched : fst (c_json_end_read json) = json.(poison).
Proof.
  unfold c_json_end_read. simpl.
  destruct (json.(poison) =? 0) eqn:E; [|reflexivity].
  apply Z.eqb_eq in E. contradiction.
Qed.

(** [c_json_read_bool] keeps the latch only away from an object key. *)
Lemma read_bool_latched :
  cur_state json <> chr "{" ->
  c_json_read_bool json = (json.(poison), None, json).
Proof.
  intros H. unfold c_json_read_bool.
  apply Z.eqb_neq in H. now rewrite H, poison_test.
Qed.

Lemma read_bool_unlatched :
  cur_state json = chr "{" ->
  c_json_read_bool json =
  (C_JSON_E_INVALID_TYPE, None, set_poison json C_JSON_E_INVALID_TYPE).
Proof.
  intros H. unfold c_json_read_bool.
  apply Z.eqb_eq in H. now rewrite H.
Qed.
End Latch.

(** C1.  The latch does not hold for [c_json_read_bool].  On the input
    [{"a" 1}] the call of [c_json_read_string] for the key fails with
    [C_JSON_E_INVALID_JSON] and records it; the following call of
    [c_json_read_bool] returns [C_JSON_E_INVALID_TYPE] instead and
    replaces the recorded error by it. *)
Theorem read_bool_replaces_latched_error :
  let json := c_json_begin_read (c_json_new 1) key_without_colon in
  let '(r1, json1) := c_json_open_object json in
  let '(r2, _, json2) := c_json_read_string json1 in
  let '(r3, _, json3) := c_json_read_bool json2 in
  r1 = 0 /\
  r2 = C_JSON_E_INVALID_JSON /\ json2.(poison) = C_JSON_E_INVALID_JSON /\
  r3 = C_JSON_E_INVALID_TYPE /\ json3.(poison) = C_JSON_E_INVALID_TYPE /\
  r3 <> json2.(poison).
Proof. vm_compute. repeat split; discriminate. Qed.

(** ** Scenarios at any depth of at least one *)

Lemma load_store_eq (i : nat) (c : Z) (l : list Z) :
  load_state i (store_state i c l) = c.
Proof.
  unfold load_state. revert l.
  induction i as [|i IH]; intros [|x l]; simpl; auto.
Qed.

Lemma load_store_ne (i j : nat) (c : Z) (l : list Z) :
  i <> j -> load_state j (store_state i c l) = load_state j l.
Proof.
  unfold load_state. revert j l.
  induction i as [|i IH]; intros [|j] [|x l] H; simpl;
    try reflexivity; try congruence.
  - now destruct j.
  - rewrite IH by congruence. now destruct j.
  - apply IH. congruence.
Qed.

Lemma load_lookup (i : nat) (l : list Z) (x : Z) :
  l !! i = Some x -> load_state i l = x.
Proof.
  unfold load_state. revert i.
  induction l as [|y l IH]; intros [|i] H; simpl in *; try discriminate.
  - congruence.
  - now apply IH.
Qed.

(** A write inside the list is an update in place. *)
Lemma store_state_insert (i : nat) (c : Z) (l : list Z) :
  (i < length l)%nat -> store_state i c l = <[i := c]> l.
Proof.
  revert l. induction i as [|i IH]; intros [|x l] H; simpl in *;
    try lia; try reflexivity.
  f_equal. apply IH. lia.
Qed.

Lemma load_replicate_zero (k i : nat) : load_state i (replicate k 0) = 0.
Proof.
  unfold load_state. revert i.
  induction k as [|k IH]; intros [|i]; simpl; try reflexivity.
  apply IH.
Qed.

(** The first write at level one leaves the states [0 :: c :: rest],
    however many states the block has. *)
Lemma store_level_one (k : nat) (c : Z) :
  exists rest, store_state 1 c (replicate k 0) = 0 :: c :: rest.
Proof. destruct k as [|[|k]]; simpl; eexists; reflexivity. Qed.

(** The size passed to [calloc] under [valid_depth]. *)
Lemma new_states_valid (max_depth : Z) :
  valid_depth max_depth ->
  (c_json_new max_depth).(states) = replicate (S (Z.to_nat max_depth)) 0.
Proof.
  intros [H0 H1]. unfold c_json_new, calloc_size. cbn [states].
  unfold SIZE_MAX, sizeof_CJson in *.
  change (2 ^ 64) with 18446744073709551616 in *.
  rewrite Z.mod_small by lia.
  f_equal. lia.
Qed.

(** Evaluates a scenario on a reader of symbolic depth [max_depth >= 1]:
    only the two lowest states and the sign of [max_depth] are looked
    at.  The block has no state, one state, or two and more. *)
Ltac scenario H :=
  unfold c_json_new;
  match type of H with
  | 1 <= ?d =>
    generalize (Z.to_nat (calloc_size d - sizeof_CJson));
    let k := fresh "k" in
    intros k; destruct d; [lia | | lia];
    destruct k as [|[|k]]; vm_compute
  end.

(** C2, as the code has it.  On the input [[1,,2]] the first comma is
    skipped behind the first number and the cursor rests on the second
    comma; [c_json_open_array] and the first [c_json_read_u64] succeed
    (the latter yields 1), the second [c_json_read_u64] fails with
    [C_JSON_E_INVALID_TYPE], and [c_json_close_array] and
    [c_json_end_read] return that recorded error. *)
Theorem double_comma_rejected (strtod_end : list Z -> list Z) (max_depth : Z) :
  1 <= max_depth ->
  fst (run strtod_end two_numbers
         (c_json_begin_read (c_json_new max_depth) (cstr "[1,,2]"))) =
  [RInt 0; RU64 0 (Some 1); RU64 C_JSON_E_INVALID_TYPE None;
   RInt C_JSON_E_INVALID_TYPE; RInt C_JSON_E_INVALID_TYPE].
Proof. intros H. scenario H; reflexivity. Qed.

Lemma double_comma_rejected_witness :
  fst (run (fun q => q) two_numbers
         (c_json_begin_read (c_json_new 4) (cstr "[1,,2]"))) =
  [RInt 0; RU64 0 (Some 1); RU64 C_JSON_E_INVALID_TYPE None;
   RInt C_JSON_E_INVALID_TYPE; RInt C_JSON_E_INVALID_TYPE].
Proof. apply (double_comma_rejected (fun q => q) 4). lia. Defined.

(** C2 as stated fails: on [[1,,2]] the five calls do not all succeed
    with the numbers 1 and 2. *)
Lemma double_comma_not_accepted :
  fst (run (fun q => q) two_numbers
         (c_json_begin_read (c_json_new 1) (cstr "[1,,2]"))) <>
  [RInt 0; RU64 0 (Some 1); RU64 0 (Some 2); RInt 0; RInt 0].
Proof. vm_compute. discriminate. Qed.

(** [c_json_close_array] takes the state [','] like the state ['[']: with
    the cursor at the closing bracket it pops the level and advances. *)
Lemma close_array_after_comma (json : CJson) :
  json.(poison) = 0 ->
  cur_state json = chr "," ->
  cur json.(p) = chr "]" ->
  c_json_close_array json =
  c_json_advance
    (set_level (set_p json (drop 1 json.(p))) (size_decr json.(level))).
Proof.
  intros Hp Hs Hc. unfold c_json_close_array.
  rewrite Hp, Hs, Hc. reflexivity.
Qed.

(** In an object, a comma that is not followed by a key is an error. *)
Lemma advance_object_comma_brace (json : CJson) :
  json.(poison) = 0 ->
  cur_state json = chr ":" ->
  cur (skip_space json.(p)) = chr "," ->
  cur (skip_space (drop 1 (skip_space json.(p)))) <> chr "034" ->
  fst (c_json_advance json) = C_JSON_E_INVALID_JSON.
Proof.
  intros Hp Hs Hc Hn. unfold c_json_advance. rewrite Hp. simpl.
  change (cur_state (set_p json (skip_space json.(p)))) with (cur_state json).
  rewrite Hs, Hc. simpl.
  apply Z.eqb_neq in Hn. now rewrite Hn.
Qed.

(** C9.  On [[1,]] the calls [c_json_open_array], [c_json_read_u64],
    [c_json_close_array], [c_json_end_read] all succeed: the comma leaves
    the level in the state [','] with the cursor at the bracket, and
    [c_json_close_array] accepts that state.  On [{"a":1,}] the comma
    before the brace makes the read of the value fail with
    [C_JSON_E_INVALID_JSON]. *)
Theorem trailing_comma_array_only (strtod_end : list Z -> list Z)
    (max_depth : Z) :
  1 <= max_depth ->
  fst (run strtod_end one_number
         (c_json_begin_read (c_json_new max_depth) (cstr "[1,]"))) =
  [RInt 0; RU64 0 (Some 1); RInt 0; RInt 0] /\
  (let json := snd (run strtod_end [OpOpenArray; OpReadU64]
         (c_json_begin_read (c_json_new max_depth) (cstr "[1,]"))) in
   cur_state json = chr "," /\ cur json.(p) = chr "]" /\
   fst (c_json_close_array json) = 0) /\
  fst (run strtod_end [OpOpenObject; OpReadString; OpReadU64; OpCloseObject]
         (c_json_begin_read (c_json_new max_depth) object_trailing_comma)) =
  [RInt 0; RString 0 (Some (cstr "a")); RU64 C_JSON_E_INVALID_JSON None;
   RInt C_JSON_E_INVALID_JSON].
Proof. intros H. scenario H; repeat split. Qed.

Lemma trailing_comma_array_only_witness :
  fst (run (fun q => q) one_number
         (c_json_begin_read (c_json_new 1) (cstr "[1,]"))) =
  [RInt 0; RU64 0 (Some 1); RInt 0; RInt 0].
Proof. apply (trailing_comma_array_only (fun q => q) 1). lia. Defined.

(** ** The invariant of the nesting stack *)

Lemma stack_inv_set_p d json q : stack_inv d json -> stack_inv d (set_p json q).
Proof. intros []. now constructor. Qed.

Lemma stack_inv_set_poison d json e :
  stack_inv d json -> stack_inv d (set_poison json e).
Proof. intros []. now constructor. Qed.

Lemma stack_inv_set_input d json i :
  stack_inv d json -> stack_inv d (set_input json i).
Proof. intros []. now constructor. Qed.

Lemma stack_inv_set_level d json l :
  stack_inv d json -> 0 <= l <= d -> stack_inv d (set_level json l).
Proof. intros [] ?. now constructor. Qed.

Lemma stack_inv_insert d json (i : nat) c :
  stack_inv d json -> i <> 0%nat ->
  stack_inv d (set_states json (<[i := c]> json.(states))).
Proof.
  intros [] Hi. constructor; simpl; try assumption.
  - now rewrite length_insert.
  - rewrite list_lookup_insert_ne; auto.
Qed.

(** At the root the state is [0]: a level in a state other than [0] is
    at least one. *)
Lemma stack_inv_level_pos d json :
  stack_inv d json -> cur_state json <> 0 -> 1 <= json.(level).
Proof.
  intros [] Hs.
  destruct (Z.eq_dec json.(level) 0) as [E|]; [|lia].
  exfalso. apply Hs. unfold cur_state. rewrite E. simpl.
  now apply load_lookup.
Qed.

(** The index [json->level] is inside the [max_depth + 1] states. *)
Lemma stack_inv_in_bounds d json :
  stack_inv d json -> (Z.to_nat json.(level) < length json.(states))%nat.
Proof. intros []. lia. Qed.

Lemma stack_inv_set_cur_state d json c :
  stack_inv d json -> cur_state json <> 0 ->
  stack_inv d (set_cur_state json c).
Proof.
  intros H Hs. unfold set_cur_state.
  rewrite store_state_insert by now apply (stack_inv_in_bounds d).
  apply stack_inv_insert; [assumption|].
  pose proof (stack_inv_level_pos _ _ H Hs). lia.
Qed.

Lemma size_incr_exact d x :
  valid_depth d -> 0 <= x < d -> size_incr x = x + 1.
Proof.
  unfold valid_depth, size_incr, sizeof_CJson, SIZE_MAX. intros [] ?.
  apply Z.mod_small. lia.
Qed.

Lemma size_decr_exact d x :
  valid_depth d -> 1 <= x <= d -> size_decr x = x - 1.
Proof.
  unfold valid_depth, size_decr, sizeof_CJson, SIZE_MAX. intros [] ?.
  apply Z.mod_small. lia.
Qed.

Ltac split_if :=
  match goal with
  | |- context [if ?b then _ else _] => destruct b eqn:?
  end.

Ltac state_nonzero :=
  match goal with
  | H : (cur_state _ =? _) = true |- cur_state _ <> 0 =>
    apply Z.eqb_eq in H; chr_eval; unfold cur_state in *; simpl in *;
    rewrite H; discriminate
  end.

Lemma advance_inv d json :
  stack_inv d json -> stack_inv d (snd (c_json_advance json)).
Proof.
  intros H. unfold c_json_advance, fail.
  repeat split_if; simpl;
    repeat first
      [ assumption
      | apply stack_inv_set_p
      | apply stack_inv_set_poison
      | apply stack_inv_set_cur_state; [|state_nonzero] ].
Qed.

(** Names the outcome of the call of [c_json_advance] in the goal and
    records the invariant of the state it leaves. *)
Ltac name_advance d :=
  match goal with
  | |- context [c_json_advance ?x] =>
    let Ha := fresh "Ha" in
    assert (Ha : stack_inv d (snd (c_json_advance x)))
      by (apply advance_inv; repeat first
            [ assumption | apply stack_inv_set_p | apply stack_inv_set_poison ]);
    destruct (c_json_advance x) as [? ?]; simpl in Ha
  end.

Ltac inv_simple :=
  simpl;
  repeat first
    [ assumption | apply stack_inv_set_p | apply stack_inv_set_poison
    | apply stack_inv_set_input ].

Lemma read_null_inv d json :
  stack_inv d json -> stack_inv d (snd (c_json_read_null json)).
Proof.
  intros H. unfold c_json_read_null, fail.
  repeat split_if; try (apply advance_inv); inv_simple.
Qed.

Lemma read_u64_inv d json :
  stack_inv d json -> stack_inv d (snd (c_json_read_u64 json)).
Proof.
  intros H. unfold c_json_read_u64.
  destruct (strtoul json.(p)) as [number endp].
  repeat split_if; try name_advance d; repeat split_if; inv_simple.
Qed.

Lemma read_f64_inv strtod_end d json :
  stack_inv d json -> stack_inv d (snd (c_json_read_f64 strtod_end json)).
Proof.
  intros H. unfold c_json_read_f64, fail.
  repeat split_if; try (apply advance_inv); inv_simple.
Qed.

Lemma read_bool_inv d json :
  stack_inv d json -> stack_inv d (snd (c_json_read_bool json)).
Proof.
  intros H. unfold c_json_read_bool.
  repeat split_if; try name_advance d; repeat split_if; inv_simple.
Qed.

Lemma read_string_inv d json :
  stack_inv d json -> stack_inv d (snd (c_json_read_string json)).
Proof.
  intros H. unfold c_json_read_string.
  repeat split_if; inv_simple.
  destruct (string_scan _ _) as [[[r q] out]|]; inv_simple.
  repeat split_if; try name_advance d; repeat split_if; inv_simple.
Qed.

Lemma peek_inv d json :
  stack_inv d json -> stack_inv d (snd (c_json_peek json)).
Proof. intros H. unfold c_json_peek. repeat split_if; assumption. Qed.

Lemma more_inv d json :
  stack_inv d json -> stack_inv d (snd (c_json_more json)).
Proof. intros H. unfold c_json_more. repeat split_if; assumption. Qed.

Lemma begin_read_inv d json string :
  stack_inv d json -> stack_inv d (c_json_begin_read json string).
Proof. intros H. unfold c_json_begin_read. inv_simple. Qed.

Lemma end_read_inv d json :
  valid_depth d -> stack_inv d json -> stack_inv d (snd (c_json_end_read json)).
Proof.
  intros [Hd _] H. unfold c_json_end_read. inv_simple.
  apply stack_inv_set_level; [assumption | lia].
Qed.

(** Pushing a level below the capacity. *)
Lemma stack_inv_push d json c :
  valid_depth d -> stack_inv d json -> (json.(n_states) <=? json.(level)) = false ->
  stack_inv d (set_cur_state (set_level json (size_incr json.(level))) c).
Proof.
  intros Hd H Hl. apply Z.leb_gt in Hl.
  pose proof (inv_n_states _ _ H). pose proof (inv_level _ _ H).
  assert (E : size_incr json.(level) = json.(level) + 1)
    by (apply (size_incr_exact d); [assumption | lia]).
  unfold set_cur_state. simpl. rewrite E.
  rewrite store_state_insert by (pose proof (inv_length _ _ H); lia).
  apply (stack_inv_insert d (set_level json (json.(level) + 1))).
  - apply stack_inv_set_level; [assumption | lia].
  - lia.
Qed.

(** Popping a level that is in a container state. *)
Lemma stack_inv_pop d json :
  valid_depth d -> stack_inv d json -> cur_state json <> 0 ->
  stack_inv d (set_level json (size_decr json.(level))).
Proof.
  intros Hd H Hs.
  pose proof (stack_inv_level_pos _ _ H Hs). pose proof (inv_level _ _ H).
  rewrite (size_decr_exact d) by (assumption || lia).
  apply stack_inv_set_level; [assumption | lia].
Qed.

Lemma open_array_inv d json :
  valid_depth d -> stack_inv d json ->
  stack_inv d (snd (c_json_open_array json)).
Proof.
  intros Hd H. unfold c_json_open_array, fail.
  repeat split_if; inv_simple.
  apply (stack_inv_push d (set_p json _)); inv_simple.
Qed.

Lemma open_object_inv d json :
  valid_depth d -> stack_inv d json ->
  stack_inv d (snd (c_json_open_object json)).
Proof.
  intros Hd H. unfold c_json_open_object, fail.
  repeat split_if; inv_simple.
  apply (stack_inv_push d (set_p json _)); inv_simple.
Qed.

(** A state that passes the test of a close function is not [0]. *)
Lemma container_state_nonzero json a b :
  negb (cur_state json =? chr a) && negb (cur_state json =? chr b) = false ->
  chr a <> 0 -> chr b <> 0 -> cur_state json <> 0.
Proof.
  intros H Ha Hb E. rewrite E in H.
  apply andb_false_iff in H as [H|H]; apply negb_false_iff, Z.eqb_eq in H;
    congruence.
Qed.

Lemma close_array_inv d json :
  valid_depth d -> stack_inv d json ->
  stack_inv d (snd (c_json_close_array json)).
Proof.
  intros Hd H. unfold c_json_close_array, fail.
  repeat split_if; inv_simple.
  apply advance_inv.
  apply (stack_inv_pop d (set_p json _)); inv_simple.
  eapply container_state_nonzero; [eassumption | discriminate ..].
Qed.

Lemma close_object_inv d json :
  valid_depth d -> stack_inv d json ->
  stack_inv d (snd (c_json_close_object json)).
Proof.
  intros Hd H. unfold c_json_close_object, fail.
  repeat split_if; inv_simple.
  apply advance_inv.
  apply (stack_inv_pop d (set_p json _)); inv_simple.
  eapply container_state_nonzero; [eassumption | discriminate ..].
Qed.

Lemma new_inv d : valid_depth d -> stack_inv d (c_json_new d).
Proof.
  intros Hd. pose proof (new_states_valid d Hd) as E. destruct Hd as [Hd _].
  constructor; try rewrite E; simpl.
  - reflexivity.
  - lia.
  - rewrite length_replicate. lia.
  - reflexivity.
Qed.

Lemma exec_inv strtod_end d o json :
  valid_depth d -> stack_inv d json ->
  stack_inv d (snd (exec strtod_end o json)).
Proof.
  intros Hd H. destruct o; unfold exec.
  - now apply begin_read_inv.
  - pose proof (end_read_inv d json Hd H).
    now destruct (c_json_end_read json).
  - pose proof (peek_inv d json H). now destruct (c_json_peek json).
  - pose proof (more_inv d json H). now destruct (c_json_more json).
  - pose proof (read_null_inv d json H). now destruct (c_json_read_null json).
  - pose proof (read_string_inv d json H).
    now destruct (c_json_read_string json) as [[? ?] ?].
  - pose proof (read_u64_inv d json H).
    now destruct (c_json_read_u64 json) as [[? ?] ?].
  - pose proof (read_f64_inv strtod_end d json H).
    now destruct (c_json_read_f64 strtod_end json).
  - pose proof (read_bool_inv d json H).
    now destruct (c_json_read_bool json) as [[? ?] ?].
  - pose proof (open_array_inv d json Hd H).
    now destruct (c_json_open_array json).
  - pose proof (close_array_inv d json Hd H).
    now destruct (c_json_close_array json).
  - pose proof (open_object_inv d json Hd H).
    now destruct (c_json_open_object json).
  - pose proof (close_object_inv d json Hd H).
    now destruct (c_json_close_object json).
Qed.

Lemma reachable_stack_inv strtod_end d json :
  valid_depth d -> reachable strtod_end d json -> stack_inv d json.
Proof.
  intros Hd Hr. induction Hr as [|o json Hr IH Hc].
  - now apply new_inv.
  - now apply exec_inv.
Qed.

(** At the root a close function fails with [C_JSON_E_INVALID_TYPE] and
    leaves the level alone. *)
Lemma close_at_root d json :
  stack_inv d json -> json.(poison) = 0 -> json.(level) = 0 ->
  c_json_close_array json = fail json C_JSON_E_INVALID_TYPE /\
  c_json_close_object json = fail json C_JSON_E_INVALID_TYPE.
Proof.
  intros H Hp Hl.
  assert (Hs : cur_state json = 0).
  { unfold cur_state. rewrite Hl. simpl.
    apply load_lookup, (inv_root _ _ H). }
  unfold c_json_close_array, c_json_close_object. now rewrite Hp, Hs.
Qed.

(** X24.  When the size passed to [calloc] does not wrap
    ([max_depth <= SIZE_MAX - 41]), the invariant of the stack holds.  In
    every state that calls made under the contract of the API can reach
    from [c_json_new(&json, max_depth)], the level lies between [0] and
    [max_depth], the block has [max_depth + 1] states so that
    [states[level]] is one of them, and [states[0]] is the root state
    [0]; hence closing at the root fails with [C_JSON_E_INVALID_TYPE] and
    does not decrement the level. *)
Theorem reachable_inv (strtod_end : list Z -> list Z) (max_depth : Z)
    (json : CJson) :
  valid_depth max_depth ->
  reachable strtod_end max_depth json ->
  0 <= json.(level) <= max_depth /\
  json.(n_states) = max_depth /\
  Z.of_nat (length json.(states)) = max_depth + 1 /\
  (Z.to_nat json.(level) < length json.(states))%nat /\
  json.(states) !! 0%nat = Some 0 /\
  (json.(poison) = 0 -> json.(level) = 0 ->
   c_json_close_array json = fail json C_JSON_E_INVALID_TYPE /\
   c_json_close_object json = fail json C_JSON_E_INVALID_TYPE).
Proof.
  intros Hd Hr. pose proof (reachable_stack_inv _ _ _ Hd Hr) as H.
  pose proof (stack_inv_in_bounds _ _ H). destruct H as [H1 H2 H3 H4].
  repeat split; try assumption; try lia;
    now apply (close_at_root max_depth json).
Qed.

(** The invariant inside an array: on [  [ 1 , 2 ]], behind the call that
    enters the array and the one that reads the first number, the level
    is one, and it is one of the two states of a reader of depth one. *)
Lemma reachable_inv_witness :
  reachable (fun q => q) 1 behind_spaced_number /\
  behind_spaced_number.(level) = 1 /\
  (Z.to_nat behind_spaced_number.(level) <
   length behind_spaced_number.(states))%nat /\
  behind_spaced_number.(states) !! 0%nat = Some 0.
Proof.
  assert (Hd : valid_depth 1) by (unfold valid_depth; split; [lia | discriminate]).
  assert (Hr : reachable (fun q => q) 1 behind_spaced_number).
  { unfold behind_spaced_number.
    apply reachable_exec; [apply reachable_exec; [apply reachable_exec|]|].
    - apply reachable_new.
    - reflexivity.
    - left. discriminate.
    - left. discriminate. }
  split; [exact Hr|]. split; [reflexivity|].
  pose proof (reachable_inv (fun q => q) 1 behind_spaced_number Hd Hr) as H.
  split; apply H.
Defined.

(** The 41 depths from [SIZE_MAX - 40] on: the size passed to [calloc]
    wraps to at most [sizeof_CJson], and the block has no state. *)
Lemma new_wrapped_no_states (max_depth : Z) :
  SIZE_MAX - 40 <= max_depth <= SIZE_MAX ->
  calloc_size max_depth = max_depth - (SIZE_MAX - 40) /\
  (c_json_new max_depth).(states) = [].
Proof.
  intros H. unfold c_json_new, calloc_size, SIZE_MAX, sizeof_CJson in *.
  cbn [states]. change (2 ^ 64) with 18446744073709551616 in *.
  assert (E : (40 + max_depth + 1) mod (18446744073709551616 - 1 + 1) =
              max_depth - (18446744073709551616 - 1 - 40))
    by (Z.div_mod_to_equations; lia).
  rewrite E. split; [reflexivity|].
  replace (Z.to_nat _) with 0%nat by lia. reflexivity.
Qed.

(** C4.  The invariant fails for a reader made with [max_depth =
    SIZE_MAX].  The size passed to [calloc] wraps to the size of the
    header, so the block has no state at all, not the [max_depth + 1] of
    the claim, while [n_states] is [SIZE_MAX]: [states[0]], the state of
    the root, lies behind the block.  On the input [[], under the
    contract of the API, [c_json_open_array] passes the test of the
    depth, returns [0], moves to level one and writes [states[1]], which
    is behind the block as well. *)
Theorem size_max_depth_outside_block :
  calloc_size SIZE_MAX = sizeof_CJson /\
  (c_json_new SIZE_MAX).(n_states) = SIZE_MAX /\
  (c_json_new SIZE_MAX).(states) = [] /\
  (c_json_new SIZE_MAX).(states) !! 0%nat = None /\
  reachable (fun q => q) SIZE_MAX opened_size_max /\
  fst (exec (fun q => q) OpOpenArray at_bracket_size_max) = RInt 0 /\
  opened_size_max.(poison) = 0 /\
  opened_size_max.(level) = 1 /\
  (length (c_json_new SIZE_MAX).(states) <=
   Z.to_nat opened_size_max.(level))%nat.
Proof.
  split; [reflexivity|]. split; [reflexivity|]. split; [reflexivity|].
  split; [reflexivity|]. split.
  - unfold opened_size_max, at_bracket_size_max.
    apply reachable_exec; [apply reachable_exec|].
    + apply reachable_new.
    + reflexivity.
    + left. discriminate.
  - vm_compute. repeat split. lia.
Qed.

(** ** c_json_more *)

(** C3, as the code has it.  [c_json_more] leaves the reader as it is.
    It is false on a poisoned reader and at the end of the input.
    Before the end of the input of a sound reader: in the state ['[']
    (awaiting a value) it is false exactly at a closing bracket; in the
    object states ['{'] and [':'] it is false exactly at a closing brace;
    in every other state, the root and the state [','] behind a comma of
    an array, it is true whatever the cursor is at. *)
Theorem more_spec (json : CJson) :
  snd (c_json_more json) = json /\
  (json.(poison) <> 0 -> fst (c_json_more json) = false) /\
  (json.(poison) = 0 ->
   (cur json.(p) = 0 -> fst (c_json_more json) = false) /\
   (cur json.(p) <> 0 ->
    (cur_state json = chr "[" ->
     (fst (c_json_more json) = false <-> cur json.(p) = chr "]")) /\
    (cur_state json = chr "{" \/ cur_state json = chr ":" ->
     (fst (c_json_more json) = false <-> cur json.(p) = chr "}")) /\
    (cur_state json <> chr "[" -> cur_state json <> chr "{" ->
     cur_state json <> chr ":" -> fst (c_json_more json) = true))).
Proof.
  unfold c_json_more. split; [repeat split_if; reflexivity|].
  split.
  - intros Hp. apply Z.eqb_neq in Hp. now rewrite Hp.
  - intros Hp. rewrite Hp. simpl. split.
    + intros ->. reflexivity.
    + intros Hc. apply Z.eqb_neq in Hc. rewrite Hc.
      split; [|split].
      * intros ->. simpl. rewrite negb_false_iff. apply Z.eqb_eq.
      * intros [-> | ->]; simpl; rewrite negb_false_iff; apply Z.eqb_eq.
      * intros H1 H2 H3. apply Z.eqb_neq in H1, H2, H3.
        now rewrite H1, H2, H3.
Qed.

Lemma more_spec_witness :
  fst (c_json_more behind_trailing_comma) = true /\
  snd (c_json_more behind_trailing_comma) = behind_trailing_comma.
Proof.
  destruct (more_spec behind_trailing_comma) as (Hs & _ & H).
  destruct (H eq_refl) as [_ Hc].
  split; [|exact Hs].
  apply Hc; discriminate.
Defined.

(** C3 as stated fails in the state [','] (ArrayAfterValue): on [[1,]]
    behind the number the cursor is at the closing bracket and
    [c_json_more] is true. *)
Lemma more_true_at_bracket_behind_comma :
  behind_trailing_comma.(poison) = 0 /\
  cur_state behind_trailing_comma = chr "," /\
  ~ (fst (c_json_more behind_trailing_comma) = false <->
     cur behind_trailing_comma.(p) = chr "]").
Proof.
  vm_compute. repeat split; intros [_ H]; specialize (H eq_refl); discriminate.
Qed.

(** ** Depth overflow *)

Lemma open_array_at_bracket (json : CJson) :
  json.(poison) = 0 -> cur_state json <> chr "{" -> cur json.(p) = chr "[" ->
  c_json_open_array json =
  if json.(n_states) <=? json.(level) then fail json C_JSON_E_DEPTH_OVERFLOW
  else (0, set_cur_state
             (set_level (set_p json (skip_space (drop 1 json.(p))))
                        (size_incr json.(level))) (chr "[")).
Proof.
  intros Hp Hs Hc. unfold c_json_open_array.
  apply Z.eqb_neq in Hs. rewrite Hp, Hs, Hc. reflexivity.
Qed.

Lemma open_object_at_brace (json : CJson) :
  json.(poison) = 0 -> cur_state json <> chr "{" -> cur json.(p) = chr "{" ->
  c_json_open_object json =
  if json.(n_states) <=? json.(level) then fail json C_JSON_E_DEPTH_OVERFLOW
  else
    let json := set_p json (skip_space (drop 1 json.(p))) in
    if negb (cur json.(p) =? chr "034") && negb (cur json.(p) =? chr "}")
    then fail json C_JSON_E_INVALID_JSON
    else (0, set_cur_state (set_level json (size_incr json.(level))) (chr "{")).
Proof.
  intros Hp Hs Hc. unfold c_json_open_object.
  apply Z.eqb_neq in Hs. rewrite Hp, Hs, Hc. reflexivity.
Qed.

(** What [c_json_open_array] and [c_json_open_object] return before they
    look at the depth. *)
Lemma open_array_not_at_bracket (json : CJson) :
  json.(poison) = 0 ->
  cur_state json = chr "{" \/ cur json.(p) <> chr "[" ->
  c_json_open_array json = fail json C_JSON_E_INVALID_TYPE.
Proof.
  intros Hp H. unfold c_json_open_array. rewrite Hp. simpl.
  destruct (cur_state json =? chr "{") eqn:E; [reflexivity|].
  destruct H as [H|H]; [apply Z.eqb_neq in E; contradiction|].
  apply Z.eqb_neq in H. now rewrite H.
Qed.

Lemma open_object_not_at_brace (json : CJson) :
  json.(poison) = 0 ->
  cur_state json = chr "{" \/ cur json.(p) <> chr "{" ->
  c_json_open_object json = fail json C_JSON_E_INVALID_TYPE.
Proof.
  intros Hp H. unfold c_json_open_object. rewrite Hp. simpl.
  destruct (cur_state json =? chr "{") eqn:E; [reflexivity|].
  destruct H as [H|H]; [apply Z.eqb_neq in E; contradiction|].
  apply Z.eqb_neq in H. now rewrite H.
Qed.

(** Whether the open of a container is there to be made: the level does
    not await an object key and the cursor is at the opening character. *)
Lemma container_there_dec (json : CJson) (c : Z) :
  (cur_state json <> chr "{" /\ cur json.(p) = c) \/
  (cur_state json = chr "{" \/ cur json.(p) <> c).
Proof.
  destruct (Z.eq_dec (cur_state json) (chr "{")); [now right; left|].
  destruct (Z.eq_dec (cur json.(p)) c); [now left | now right; right].
Qed.

(** C5.  In a reachable, unpoisoned state [c_json_open_array] fails with
    [C_JSON_E_DEPTH_OVERFLOW] exactly when the level equals [max_depth]
    and an array is there to be opened (the level does not await an
    object key and the cursor is at an opening bracket); likewise
    [c_json_open_object] at an opening brace.  Below [max_depth] such an
    open succeeds and the level grows by one (for an object, when a key
    or the closing brace follows), so the level [max_depth] itself is
    reached. *)
Theorem depth_overflow_exactly_at_max_depth (strtod_end : list Z -> list Z)
    (max_depth : Z) (json : CJson) :
  valid_depth max_depth ->
  reachable strtod_end max_depth json ->
  json.(poison) = 0 ->
  (fst (c_json_open_array json) = C_JSON_E_DEPTH_OVERFLOW <->
   json.(level) = max_depth /\
   cur_state json <> chr "{" /\ cur json.(p) = chr "[") /\
  (json.(level) < max_depth ->
   cur_state json <> chr "{" -> cur json.(p) = chr "[" ->
   fst (c_json_open_array json) = 0 /\
   (snd (c_json_open_array json)).(level) = json.(level) + 1) /\
  (fst (c_json_open_object json) = C_JSON_E_DEPTH_OVERFLOW <->
   json.(level) = max_depth /\
   cur_state json <> chr "{" /\ cur json.(p) = chr "{") /\
  (json.(level) < max_depth ->
   cur_state json <> chr "{" -> cur json.(p) = chr "{" ->
   cur (skip_space (drop 1 json.(p))) = chr "034" \/
   cur (skip_space (drop 1 json.(p))) = chr "}" ->
   fst (c_json_open_object json) = 0 /\
   (snd (c_json_open_object json)).(level) = json.(level) + 1).
Proof.
  intros Hd Hr Hp.
  pose proof (reachable_stack_inv _ _ _ Hd Hr) as [Hn Hl _ _].
  assert (Hincr : json.(level) < max_depth ->
                  size_incr json.(level) = json.(level) + 1)
    by (intros; apply (size_incr_exact max_depth); [assumption | lia]).
  split; [|split; [|split]].
  - destruct (container_there_dec json (chr "[")) as [[Hs Hc] | Hno].
    + rewrite (open_array_at_bracket json Hp Hs Hc), Hn.
      destruct (max_depth <=? json.(level)) eqn:E; simpl.
      * apply Z.leb_le in E. split; [intros _; repeat split; [lia | assumption ..] | reflexivity].
      * apply Z.leb_gt in E. split; [discriminate | lia].
    + rewrite (open_array_not_at_bracket json Hp Hno). simpl.
      split; [discriminate|]. intros (_ & Hs & Hc). destruct Hno; contradiction.
  - intros Hlt Hs Hc. rewrite (open_array_at_bracket json Hp Hs Hc), Hn.
    replace (max_depth <=? json.(level)) with false
      by (symmetry; apply Z.leb_gt; lia).
    simpl. auto.
  - destruct (container_there_dec json (chr "{")) as [[Hs Hc] | Hno].
    + rewrite (open_object_at_brace json Hp Hs Hc), Hn.
      destruct (max_depth <=? json.(level)) eqn:E; cbv zeta.
      * apply Z.leb_le in E. simpl.
        split; [intros _; repeat split; [lia | assumption ..] | reflexivity].
      * apply Z.leb_gt in E. split; [|lia].
        split_if; simpl; discriminate.
    + rewrite (open_object_not_at_brace json Hp Hno). simpl.
      split; [discriminate|]. intros (_ & Hs & Hc). destruct Hno; contradiction.
  - intros Hlt Hs Hc Hk. rewrite (open_object_at_brace json Hp Hs Hc), Hn.
    replace (max_depth <=? json.(level)) with false
      by (symmetry; apply Z.leb_gt; lia).
    cbv zeta.
    assert (T : negb (cur (set_p json (skip_space (drop 1 json.(p)))).(p)
                      =? chr "034")
                && negb (cur (set_p json (skip_space (drop 1 json.(p)))).(p)
                         =? chr "}") = false).
    { simpl. destruct Hk as [-> | ->]; reflexivity. }
    rewrite T. simpl. auto.
Qed.

Lemma depth_overflow_exactly_at_max_depth_witness :
  fst (c_json_open_array at_nested_array) = 0 /\
  (snd (c_json_open_array at_nested_array)).(level) = 1.
Proof.
  assert (Hd : valid_depth 1) by (unfold valid_depth; split; [lia | discriminate]).
  assert (Hr : reachable (fun q => q) 1 at_nested_array).
  { apply (reachable_exec (fun q => q) 1 (OpBeginRead (cstr "[[]]"))).
    - apply reachable_new.
    - reflexivity. }
  destruct (depth_overflow_exactly_at_max_depth (fun q => q) 1 at_nested_array
              Hd Hr eq_refl) as (_ & Ha & _).
  apply Ha; [reflexivity | discriminate | reflexivity].
Defined.

(** Nesting arrays: in a reader with [m] levels left, [m] opening
    brackets are entered and the next one overflows. *)
Lemma nesting_up_to_capacity (strtod_end : list Z -> list Z) (m : nat) :
  forall json rest,
  json.(poison) = 0 -> cur_state json <> chr "{" ->
  json.(p) = replicate (S m) (chr "[") ++ rest ->
  0 <= json.(level) -> json.(level) + Z.of_nat m = json.(n_states) ->
  json.(n_states) <= SIZE_MAX ->
  fst (run strtod_end (replicate (S m) OpOpenArray) json) =
  replicate m (RInt 0) ++ [RInt C_JSON_E_DEPTH_OVERFLOW].
Proof.
  induction m as [|m IH]; intros json rest Hp Hs Hq Hl Hm Hn.
  - cbn [replicate run exec].
    rewrite (open_array_at_bracket json Hp Hs) by (now rewrite Hq).
    replace (json.(n_states) <=? json.(level)) with true
      by (symmetry; apply Z.leb_le; lia).
    reflexivity.
  - change (replicate (S (S m)) OpOpenArray)
      with (OpOpenArray :: replicate (S m) OpOpenArray).
    cbn [run exec].
    rewrite (open_array_at_bracket json Hp Hs) by (now rewrite Hq).
    replace (json.(n_states) <=? json.(level)) with false
      by (symmetry; apply Z.leb_gt; lia).
    assert (E : size_incr json.(level) = json.(level) + 1).
    { unfold size_incr. apply Z.mod_small. lia. }
    rewrite E.
    match goal with
    | |- context [run _ _ ?j] =>
      specialize (IH j rest)
    end.
    destruct (run _ _ _) as [rs j'] eqn:Er. simpl in IH |- *.
    f_equal. apply IH; try assumption; try lia.
    + unfold cur_state. simpl. rewrite load_store_eq. discriminate.
    + rewrite Hq. reflexivity.
Qed.

(** From a new reader of depth [n]: [n] nested arrays are entered, the
    next opening bracket overflows. *)
Lemma nesting_to_max_depth (strtod_end : list Z -> list Z) (n : nat) :
  Z.of_nat n <= SIZE_MAX ->
  fst (run strtod_end (replicate (S n) OpOpenArray)
         (c_json_begin_read (c_json_new (Z.of_nat n))
                            (replicate (S n) (chr "[")))) =
  replicate n (RInt 0) ++ [RInt C_JSON_E_DEPTH_OVERFLOW].
Proof.
  intros Hn. apply (nesting_up_to_capacity strtod_end n _ []); simpl.
  - reflexivity.
  - unfold cur_state. simpl. rewrite load_replicate_zero. discriminate.
  - now rewrite app_nil_r.
  - lia.
  - lia.
  - assumption.
Qed.

(** ** The unsigned-integer reader *)

Lemma strtoul_digits_run (ds rest : list Z) :
  all_digits ds -> isdigit (cur rest) = false ->
  forall acc,
  strtoul_digits (ds ++ rest) acc =
  (fold_left (fun acc c => 10 * acc + (c - chr "0")) ds acc, rest).
Proof.
  intros Hds Hr. induction Hds as [|c ds Hc Hds IH]; intros acc; simpl.
  - destruct rest as [|c rest]; simpl in *; [reflexivity|]. now rewrite Hr.
  - rewrite Hc. apply IH.
Qed.

Lemma digit_not_space_or_sign (c : Z) :
  isdigit c = true ->
  isspace c = false /\ (c =? chr "-") = false /\ (c =? chr "+") = false.
Proof.
  unfold isdigit, isspace, in_range. chr_eval. intros H.
  apply andb_true_iff in H as [H1 H2]. apply Z.leb_le in H1, H2.
  repeat split.
  - apply orb_false_iff. split; [apply Z.eqb_neq; lia|].
    apply andb_false_iff. right. apply Z.leb_gt. lia.
  - apply Z.eqb_neq. lia.
  - apply Z.eqb_neq. lia.
Qed.

(** [strtoul] on a run of digits: the value of the run, cut at
    [ULONG_MAX], and the end behind the run. *)
Lemma strtoul_run (ds rest : list Z) :
  ds <> [] -> all_digits ds -> isdigit (cur rest) = false ->
  strtoul (ds ++ rest) =
  (if ULONG_MAX <? decimal_value ds then ULONG_MAX else decimal_value ds, rest).
Proof.
  intros Hne Hds Hr. destruct ds as [|d ds]; [contradiction|].
  pose proof (Forall_inv Hds) as Hd. simpl in Hd.
  destruct (digit_not_space_or_sign d Hd) as (Hsp & Hm & Hpl).
  unfold strtoul. simpl skip_isspace. rewrite Hsp. simpl cur.
  rewrite Hm, Hpl. simpl orb. cbv iota. simpl cur. rewrite Hd.
  change (d :: ds ++ rest) with ((d :: ds) ++ rest).
  rewrite (strtoul_digits_run (d :: ds) rest Hds Hr 0). reflexivity.
Qed.

Lemma ptr_eqb_shorter (ds rest : list Z) :
  ds <> [] -> ptr_eqb rest (ds ++ rest) = false.
Proof.
  intros Hne. unfold ptr_eqb. apply Nat.eqb_neq. rewrite length_app.
  destruct ds; [contradiction|]. simpl. lia.
Qed.

(** [c_json_read_u64] at a run of digits. *)
Lemma read_u64_run (json : CJson) (ds rest : list Z) :
  json.(poison) = 0 -> cur_state json <> chr "{" ->
  json.(p) = ds ++ rest ->
  ds <> [] -> all_digits ds -> isdigit (cur rest) = false ->
  c_json_read_u64 json =
  if (cur rest =? chr ".") || (cur rest =? chr "e") || (cur rest =? chr "E")
  then (C_JSON_E_INVALID_TYPE, None, set_poison json C_JSON_E_INVALID_TYPE)
  else
    let '(r, json) := c_json_advance (set_p json rest) in
    if negb (r =? 0) then (r, None, json)
    else (0, Some (Z.min (decimal_value ds) ULONG_MAX), json).
Proof.
  intros Hp Hs Hq Hne Hds Hr. unfold c_json_read_u64.
  apply Z.eqb_neq in Hs. rewrite Hp, Hs, Hq. simpl negb. cbv iota.
  assert (Hm : (cur (ds ++ rest) =? chr "-") = false).
  { destruct ds as [|d ds]; [contradiction|].
    apply (digit_not_space_or_sign d), (Forall_inv Hds). }
  rewrite Hm, (strtoul_run ds rest Hne Hds Hr), (ptr_eqb_shorter ds rest Hne).
  simpl orb.
  destruct ((cur rest =? chr ".") || (cur rest =? chr "e")
            || (cur rest =? chr "E")); [reflexivity|].
  destruct (c_json_advance (set_p json rest)) as [r j].
  destruct (negb (r =? 0)); [reflexivity|].
  destruct (ULONG_MAX <? decimal_value ds) eqn:E.
  - apply Z.ltb_lt in E. now rewrite Z.min_r by lia.
  - apply Z.ltb_ge in E. now rewrite Z.min_l by lia.
Qed.

Lemma not_digit_after_integer (c : Z) :
  c = chr "." \/ c = chr "e" \/ c = chr "E" -> isdigit c = false.
Proof. intros [-> | [-> | ->]]; reflexivity. Qed.

(** C6.  On an unpoisoned reader [c_json_read_u64] fails with
    [C_JSON_E_INVALID_TYPE], which it records, when the cursor is at a
    minus sign, and when the cursor is at a run of decimal digits that is
    followed by [.], [e] or [E]. *)
Theorem read_u64_invalid_type (json : CJson) :
  json.(poison) = 0 ->
  (cur json.(p) = chr "-" ->
   c_json_read_u64 json =
   (C_JSON_E_INVALID_TYPE, None, set_poison json C_JSON_E_INVALID_TYPE)) /\
  (forall ds c rest,
   json.(p) = ds ++ c :: rest -> ds <> [] -> all_digits ds ->
   c = chr "." \/ c = chr "e" \/ c = chr "E" ->
   c_json_read_u64 json =
   (C_JSON_E_INVALID_TYPE, None, set_poison json C_JSON_E_INVALID_TYPE)).
Proof.
  intros Hp. split.
  - intros Hc. unfold c_json_read_u64. rewrite Hp, Hc.
    destruct (cur_state json =? chr "{"); reflexivity.
  - intros ds c rest Hq Hne Hds Hc.
    destruct (Z.eq_dec (cur_state json) (chr "{")) as [Hs|Hs].
    + unfold c_json_read_u64. rewrite Hp, Hs. reflexivity.
    + rewrite (read_u64_run json ds (c :: rest) Hp Hs Hq Hne Hds)
        by (apply not_digit_after_integer, Hc).
      simpl cur. destruct Hc as [-> | [-> | ->]]; reflexivity.
Qed.

Lemma read_u64_invalid_type_witness :
  c_json_read_u64 at_decimal_fraction =
  (C_JSON_E_INVALID_TYPE, None,
   set_poison at_decimal_fraction C_JSON_E_INVALID_TYPE).
Proof.
  destruct (read_u64_invalid_type at_decimal_fraction eq_refl) as [_ H].
  apply (H (cstr "12") (chr ".") (cstr "5")).
  - reflexivity.
  - discriminate.
  - repeat constructor.
  - left. reflexivity.
Defined.

(** C10.  At a run of decimal digits whose value is above [2 ^ 64 - 1],
    followed by something that lets the reader advance,
    [c_json_read_u64] does not fail: it returns [0] and stores
    [2 ^ 64 - 1], the [ULONG_MAX] that [strtoul] returns for a value out
    of range. *)
Theorem read_u64_saturates (json : CJson) (ds rest : list Z) :
  json.(poison) = 0 -> cur_state json <> chr "{" ->
  json.(p) = ds ++ rest -> ds <> [] -> all_digits ds ->
  isdigit (cur rest) = false ->
  cur rest <> chr "." -> cur rest <> chr "e" -> cur rest <> chr "E" ->
  2 ^ 64 - 1 < decimal_value ds ->
  fst (c_json_advance (set_p json rest)) = 0 ->
  c_json_read_u64 json =
  (0, Some (2 ^ 64 - 1), snd (c_json_advance (set_p json rest))).
Proof.
  intros Hp Hs Hq Hne Hds Hr H1 H2 H3 Hv Ha.
  rewrite (read_u64_run json ds rest Hp Hs Hq Hne Hds Hr).
  apply Z.eqb_neq in H1, H2, H3. rewrite H1, H2, H3. simpl orb. cbv iota.
  destruct (c_json_advance (set_p json rest)) as [r j]. simpl in Ha. subst r.
  simpl. rewrite Z.min_r by (unfold ULONG_MAX; lia). reflexivity.
Qed.

Lemma read_u64_saturates_witness :
  fst (c_json_read_u64 at_two_to_64) = (0, Some 18446744073709551615).
Proof.
  rewrite (read_u64_saturates at_two_to_64 (cstr "18446744073709551616") []).
  - reflexivity.
  - reflexivity.
  - discriminate.
  - reflexivity.
  - discriminate.
  - repeat constructor.
  - reflexivity.
  - discriminate.
  - discriminate.
  - discriminate.
  - reflexivity.
  - reflexivity.
Defined.


(** ** The string loop terminates *)

Lemma string_unicode_progress q out q' out' :
  string_unicode q out = Next q' out' -> (length q' <= length q)%nat.
Proof.
  unfold string_unicode. intros H.
  destruct (c_json_read_utf16_unit q); [discriminate|].
  destruct (in_range 55296 56319 z).
  - destruct (negb _ || negb _); [discriminate|].
    destruct (c_json_read_utf16_unit _); [discriminate|].
    destruct (_ || _); [discriminate|].
    injection H as <- _. rewrite !length_drop. lia.
  - destruct (in_range _ _ _); [discriminate|].
    injection H as <- _. rewrite length_drop. lia.
Qed.

Lemma string_escape_progress q out q' out' :
  string_escape q out = Next q' out' -> (length q' <= length q)%nat.
Proof.
  unfold string_escape. intros H.
  repeat match type of H with
  | (if ?b then _ else _) = _ =>
    destruct b; [injection H as <- _; rewrite length_drop; lia|]
  end.
  destruct (_ =? _); [|discriminate].
  apply string_unicode_progress in H. rewrite length_drop in H. lia.
Qed.

(** A turn that completes moves the cursor forward. *)
Lemma string_turn_progress q out q' out' :
  string_turn q out = Next q' out' -> (length q' < length q)%nat.
Proof.
  unfold string_turn. intros H.
  destruct q as [|c q]; [discriminate|]. simpl in H.
  destruct (c =? _); [discriminate|].
  destruct (c <? _); [discriminate|].
  destruct (c =? _).
  - apply string_escape_progress in H. simpl. unfold drop in H. lia.
  - injection H as <- _. unfold drop. simpl. lia.
Qed.

Lemma string_loop_fuel n :
  forall m q out, (length q < n)%nat -> (length q < m)%nat ->
  string_loop n q out = string_loop m q out.
Proof.
  induction n as [|n IH]; intros m q out Hn Hm; [lia|].
  destruct m as [|m]; [lia|]. simpl.
  destruct (string_turn q out) as [| |q' out'] eqn:E; try reflexivity.
  apply string_turn_progress in E. apply IH; lia.
Qed.

(** With more fuel than characters the outcome does not depend on the
    fuel. *)
Lemma string_loop_enough fuel q out :
  (length q < fuel)%nat -> string_loop fuel q out = string_scan q out.
Proof. intros H. apply string_loop_fuel; [assumption | lia]. Qed.

(** The loop of [c_json_read_string] has an outcome: it ends at the
    closing quote or with an error, at the latest at the NUL. *)
Lemma string_scan_total q out : is_Some (string_scan q out).
Proof.
  unfold string_scan. remember (S (length q)) as n eqn:En.
  assert (Hn : (length q < n)%nat) by lia. clear En.
  revert q out Hn. induction n as [|n IH]; intros q out Hn; [lia|].
  simpl. destruct (string_turn q out) as [| |q' out'] eqn:E; try (eexists; reflexivity).
  apply string_turn_progress in E. apply IH. lia.
Qed.

(** One completed turn does not change the outcome of the loop. *)
Lemma string_scan_turn q out q' out' :
  string_turn q out = Next q' out' ->
  string_scan q out = string_scan q' out'.
Proof.
  intros E. unfold string_scan at 1. simpl. rewrite E.
  apply string_loop_enough. apply string_turn_progress in E. lia.
Qed.

Lemma string_scan_turns q out q' out' :
  turns q out q' out' -> string_scan q out = string_scan q' out'.
Proof.
  induction 1 as [|q out q1 out1 q2 out2 E _ IH]; [reflexivity|].
  now rewrite (string_scan_turn _ _ _ _ E).
Qed.

Lemma string_scan_break q out :
  cur q = chr "034" -> string_scan q out = Some (0, q, out).
Proof.
  intros H. unfold string_scan. simpl. unfold string_turn. now rewrite H.
Qed.

Lemma string_scan_err q out r q' :
  string_turn q out = Err r q' -> string_scan q out = Some (r, q', out).
Proof. intros H. unfold string_scan. simpl. now rewrite H. Qed.

(** ** Copied bytes *)

Lemma plain_turn c q out :
  is_plain c = true -> string_turn (c :: q) out = Next q (out ++ [c]).
Proof.
  unfold is_plain, string_turn. intros H.
  apply andb_true_iff in H as [H H4]. apply andb_true_iff in H as [H H3].
  apply andb_true_iff in H as [H1 H2].
  apply negb_true_iff in H3, H4. apply Z.leb_le in H1. apply Z.ltb_lt in H2.
  simpl cur. rewrite H3, H4.
  replace (c <? 32) with false by (symmetry; apply Z.ltb_ge; lia).
  unfold fputc, drop. now rewrite Z.mod_small by lia.
Qed.

(** A run of plain bytes is copied to the stream as it is. *)
Lemma plain_run s :
  all_plain s -> forall q out, turns (s ++ q) out q (out ++ s).
Proof.
  induction 1 as [|c s Hc Hs IH]; intros q out; simpl.
  - rewrite app_nil_r. constructor.
  - eapply turns_step; [apply plain_turn, Hc|].
    replace (out ++ c :: s) with ((out ++ [c]) ++ s)
      by (now rewrite <- app_assoc).
    apply IH.
Qed.

(** ** UTF-8 *)

(** An or with a marker whose bits lie above the operand is a sum. *)
Lemma lor_marker (marker bound y : Z) :
  forallb (fun k => Z.lor marker (Z.of_nat k) =? marker + Z.of_nat k)
          (seq 0 (Z.to_nat bound)) = true ->
  0 <= y < bound -> Z.lor marker y = marker + y.
Proof.
  intros Hall Hy. rewrite forallb_forall in Hall.
  specialize (Hall (Z.to_nat y)). rewrite Z2Nat.id in Hall by lia.
  apply Z.eqb_eq, Hall, in_seq. lia.
Qed.

Lemma lor_0x80 y : 0 <= y < 64 -> Z.lor 0x80 y = 0x80 + y.
Proof. apply lor_marker. vm_compute. reflexivity. Qed.

Lemma lor_0xc0 y : 0 <= y < 32 -> Z.lor 0xc0 y = 0xc0 + y.
Proof. apply lor_marker. vm_compute. reflexivity. Qed.

Lemma lor_0xe0 y : 0 <= y < 16 -> Z.lor 0xe0 y = 0xe0 + y.
Proof. apply lor_marker. vm_compute. reflexivity. Qed.

Lemma lor_0xf0 y : 0 <= y < 8 -> Z.lor 0xf0 y = 0xf0 + y.
Proof. apply lor_marker. vm_compute. reflexivity. Qed.

Lemma land_0x3f x : 0 <= x -> Z.land x 0x3f = x mod 64.
Proof. intros H. change 0x3f with (Z.ones 6). now rewrite Z.land_ones by lia. Qed.

Ltac divmod := Z.div_mod_to_equations; lia.

Ltac range_test b :=
  match goal with
  | |- context [(?lo <=? ?x) && (?x <=? ?hi)] =>
    replace ((lo <=? x) && (x <=? hi)) with b
      by (symmetry;
          first [ apply andb_true_iff; split; apply Z.leb_le; lia
                | apply andb_false_iff; first
                    [ left; apply Z.leb_gt; lia | right; apply Z.leb_gt; lia ] ])
  end.

(** [c_json_write_utf8] appends the standard encoding of every code
    point up to [0x10FFFF]. *)
Lemma write_utf8_standard cp stream :
  0 <= cp <= 0x10FFFF ->
  c_json_write_utf8 cp stream = stream ++ utf8_standard cp.
Proof.
  intros Hcp. unfold c_json_write_utf8, utf8_standard, in_range, fputc.
  rewrite !Z.shiftr_div_pow2 by lia.
  change (2 ^ 6) with 64. change (2 ^ 12) with 4096. change (2 ^ 18) with 262144.
  rewrite !land_0x3f by divmod.
  destruct (cp <? 128) eqn:E1; [apply Z.ltb_lt in E1 | apply Z.ltb_ge in E1].
  { range_test true. now rewrite Z.mod_small by lia. }
  range_test false.
  destruct (cp <? 2048) eqn:E2; [apply Z.ltb_lt in E2 | apply Z.ltb_ge in E2].
  { range_test true.
    rewrite lor_0xc0, lor_0x80 by divmod.
    rewrite <- app_assoc. simpl.
    now rewrite !(Z.mod_small _ 256) by divmod. }
  range_test false.
  destruct (cp <? 65536) eqn:E3; [apply Z.ltb_lt in E3 | apply Z.ltb_ge in E3].
  { range_test true.
    rewrite lor_0xe0, !lor_0x80 by divmod.
    rewrite <- !app_assoc. simpl.
    now rewrite !(Z.mod_small _ 256) by divmod. }
  range_test false. range_test true.
  rewrite lor_0xf0, !lor_0x80 by divmod.
  rewrite <- !app_assoc. simpl.
  now rewrite !(Z.mod_small _ 256) by divmod.
Qed.

(** ** Code units *)

Lemma hex_digit_some c d :
  hex_digit c = Some d -> 0 <= d < 16 /\ c <> 0.
Proof.
  unfold hex_digit, in_range. chr_eval. intros H.
  repeat match type of H with
  | (if ?b then _ else _) = _ =>
    let E := fresh "E" in
    destruct b eqn:E;
    [ apply andb_true_iff in E as [E1 E2]; apply Z.leb_le in E1, E2;
      injection H as <-; lia | clear E ]
  end.
  discriminate.
Qed.

Lemma read_utf16_unit_error q r :
  c_json_read_utf16_unit q = inl r -> r = C_JSON_E_INVALID_JSON.
Proof.
  unfold c_json_read_utf16_unit. intros H.
  repeat match type of H with
  | match ?o with Some _ => _ | None => _ end = _ =>
    destruct o; [|now injection H as <-]
  end.
  discriminate.
Qed.

(** A unit is read from four characters, and from them alone. *)
Lemma read_utf16_unit_four q cu :
  c_json_read_utf16_unit q = inr cu ->
  exists a b c d rest, q = a :: b :: c :: d :: rest.
Proof.
  unfold c_json_read_utf16_unit. intros H.
  destruct q as [|a [|b [|c [|d rest]]]]; [| | | |now eauto 6]; exfalso;
    unfold at_ in H; simpl in H;
    repeat match type of H with
    | match ?o with Some _ => _ | None => _ end = _ =>
      destruct o; [|discriminate]
    end; discriminate.
Qed.

Lemma read_utf16_unit_prefix hs rest :
  length hs = 4%nat ->
  c_json_read_utf16_unit (hs ++ rest) = c_json_read_utf16_unit hs.
Proof.
  intros H. destruct hs as [|a [|b [|c [|d [|]]]]]; try discriminate.
  reflexivity.
Qed.

Lemma forallb_below (f : nat -> bool) (n : nat) (x : Z) :
  forallb f (seq 0 n) = true -> 0 <= x < Z.of_nat n -> f (Z.to_nat x) = true.
Proof.
  intros H Hx. rewrite forallb_forall in H. apply H, in_seq. lia.
Qed.

Lemma unit_bits_range d0 d1 d2 d3 :
  0 <= d0 < 16 -> 0 <= d1 < 16 -> 0 <= d2 < 16 -> 0 <= d3 < 16 ->
  0 <= Z.lor (Z.lor (Z.lor (Z.shiftl d0 12) (Z.shiftl d1 8)) (Z.shiftl d2 4)) d3
    <= 0xFFFF.
Proof.
  intros H0 H1 H2 H3.
  assert (Hall :
    forallb (fun a => forallb (fun b => forallb (fun c => forallb (fun d =>
      let v := Z.lor (Z.lor (Z.lor (Z.shiftl (Z.of_nat a) 12)
                 (Z.shiftl (Z.of_nat b) 8)) (Z.shiftl (Z.of_nat c) 4))
                 (Z.of_nat d) in
      (0 <=? v) && (v <=? 0xFFFF))
      (seq 0 16)) (seq 0 16)) (seq 0 16)) (seq 0 16) = true)
    by (vm_compute; reflexivity).
  apply (forallb_below _ 16 d0) in Hall; [|lia].
  apply (forallb_below _ 16 d1) in Hall; [|lia].
  apply (forallb_below _ 16 d2) in Hall; [|lia].
  apply (forallb_below _ 16 d3) in Hall; [|lia].
  rewrite !Z2Nat.id in Hall by lia.
  apply andb_true_iff in Hall as [Ha Hb].
  apply Z.leb_le in Ha, Hb. lia.
Qed.

(** A code unit has sixteen bits. *)
Lemma utf16_unit_range q cu :
  c_json_read_utf16_unit q = inr cu -> 0 <= cu <= 0xFFFF.
Proof.
  unfold c_json_read_utf16_unit. intros H.
  destruct (hex_digit (at_ q 0)) as [d0|] eqn:E0; [|discriminate].
  destruct (hex_digit (at_ q 1)) as [d1|] eqn:E1; [|discriminate].
  destruct (hex_digit (at_ q 2)) as [d2|] eqn:E2; [|discriminate].
  destruct (hex_digit (at_ q 3)) as [d3|] eqn:E3; [|discriminate].
  injection H as <-.
  apply unit_bits_range; eapply hex_digit_some; eassumption.
Qed.

Lemma surrogate_cp_range high low :
  0xD800 <= high <= 0xDBFF -> 0xDC00 <= low <= 0xDFFF ->
  0x10000 <= surrogate_pair_cp high low <= 0x10FFFF.
Proof. unfold surrogate_pair_cp. lia. Qed.

(** The code point as the source computes it, with a shift. *)
Lemma surrogate_cp_shift high low :
  0x10000 + Z.shiftl (high - 0xD800) 10 + (low - 0xDC00) =
  surrogate_pair_cp high low.
Proof. unfold surrogate_pair_cp. rewrite Z.shiftl_mul_pow2 by lia. reflexivity. Qed.

(** ** Surrogates *)

Lemma string_turn_unit_escape hs rest out :
  string_turn (unit_escape hs ++ rest) out = string_unicode (hs ++ rest) out.
Proof. reflexivity. Qed.

Lemma drop_digits (hs rest : list Z) :
  length hs = 4%nat -> drop 4 (hs ++ rest) = rest.
Proof. intros H. rewrite <- H. apply drop_app_length. Qed.

(** The turn of the loop at the escapes of a high and a low surrogate. *)
Lemma string_unicode_pair hs ls hi lo rest out :
  length hs = 4%nat -> length ls = 4%nat ->
  c_json_read_utf16_unit hs = inr hi -> c_json_read_utf16_unit ls = inr lo ->
  0xD800 <= hi <= 0xDBFF -> 0xDC00 <= lo <= 0xDFFF ->
  string_unicode (hs ++ unit_escape ls ++ rest) out =
  Next rest (out ++ utf8_standard (surrogate_pair_cp hi lo)).
Proof.
  intros Lh Ll Hh Hl Rh Rl. unfold string_unicode.
  rewrite (read_utf16_unit_prefix hs _ Lh), Hh, (drop_digits hs _ Lh).
  replace (in_range 0xD800 0xDBFF hi) with true
    by (symmetry; apply andb_true_iff; split; apply Z.leb_le; lia).
  change (unit_escape ls ++ rest) with (chr "\" :: chr "u" :: ls ++ rest).
  change (at_ (chr "\" :: chr "u" :: ls ++ rest) 0) with (chr "\").
  change (at_ (chr "\" :: chr "u" :: ls ++ rest) 1) with (chr "u").
  rewrite !Z.eqb_refl. simpl orb. cbv iota.
  change (drop 2 (chr "\" :: chr "u" :: ls ++ rest)) with (ls ++ rest).
  rewrite (read_utf16_unit_prefix ls _ Ll), Hl, (drop_digits ls _ Ll).
  replace ((lo <? 0xDC00) || (0xDFFF <? lo)) with false
    by (symmetry; apply orb_false_iff; split; apply Z.ltb_ge; lia).
  rewrite surrogate_cp_shift, write_utf8_standard; [reflexivity|].
  pose proof (surrogate_cp_range hi lo Rh Rl). lia.
Qed.

(** The turn of the loop at the escape of a surrogate without partner. *)
Lemma string_unicode_unpaired hs cu rest out :
  length hs = 4%nat -> c_json_read_utf16_unit hs = inr cu ->
  unpaired cu rest ->
  exists q, string_unicode (hs ++ rest) out = Err C_JSON_E_INVALID_JSON q.
Proof.
  intros Lh Hh Hu. unfold string_unicode.
  rewrite (read_utf16_unit_prefix hs _ Lh), Hh, (drop_digits hs _ Lh).
  destruct Hu as [Rl | [Rh Hn]].
  - replace (in_range 0xD800 0xDBFF cu) with false
      by (symmetry; apply andb_false_iff; right; apply Z.leb_gt; lia).
    replace (in_range 0xDC00 0xDFFF cu) with true
      by (symmetry; apply andb_true_iff; split; apply Z.leb_le; lia).
    eauto.
  - replace (in_range 0xD800 0xDBFF cu) with true
      by (symmetry; apply andb_true_iff; split; apply Z.leb_le; lia).
    destruct (negb (at_ rest 0 =? chr "\") || negb (at_ rest 1 =? chr "u"))
      eqn:E; [eauto|].
    apply orb_false_iff in E as [E0 E1].
    apply negb_false_iff, Z.eqb_eq in E0, E1.
    destruct rest as [|c0 [|c1 rest]]; try discriminate.
    unfold at_ in E0, E1. simpl in E0, E1. subst c0 c1.
    change (drop 2 (chr "\" :: chr "u" :: rest)) with rest.
    destruct (c_json_read_utf16_unit rest) as [r|lo] eqn:El.
    + apply read_utf16_unit_error in El. subst r. eauto.
    + destruct ((lo <? 0xDC00) || (0xDFFF <? lo)) eqn:Er; [eauto|].
      exfalso. apply Hn.
      apply orb_false_iff in Er as [Er1 Er2]. apply Z.ltb_ge in Er1, Er2.
      destruct (read_utf16_unit_four _ _ El) as (a & b & c & d & rest' & ->).
      exists [a; b; c; d], lo, rest'. repeat split; try lia.
      exact El.
Qed.

(** A buffer without a zero byte is the string the caller reads; a zero
    byte ends the string. *)
Lemma c_string_no_nul (l : list Z) :
  Forall (fun c => c <> 0) l -> c_string l = l.
Proof.
  induction 1 as [|c l Hc _ IH]; simpl; [reflexivity|].
  apply Z.eqb_neq in Hc. now rewrite Hc, IH.
Qed.

Lemma c_string_nul (pre post : list Z) :
  Forall (fun c => c <> 0) pre -> c_string (pre ++ 0 :: post) = pre.
Proof.
  induction 1 as [|c l Hc _ IH]; simpl; [reflexivity|].
  apply Z.eqb_neq in Hc. now rewrite Hc, IH.
Qed.

Lemma all_plain_no_nul (s : list Z) :
  all_plain s -> Forall (fun c => c <> 0) s.
Proof.
  induction 1 as [|c s Hc _ IH]; constructor; [|exact IH].
  intros E. subst c. discriminate Hc.
Qed.

Lemma utf8_standard_no_nul (cp : Z) :
  0 < cp -> Forall (fun c => c <> 0) (utf8_standard cp).
Proof.
  intros H. unfold utf8_standard.
  repeat split_if; repeat constructor; Z.div_mod_to_equations; lia.
Qed.

(** [c_json_read_string] in terms of the outcome of its loop. *)
Lemma read_string_scan json q r q' string :
  json.(poison) = 0 -> json.(p) = chr "034" :: q ->
  string_scan q [] = Some (r, q', string) ->
  c_json_read_string json =
  if negb (r =? 0) then (r, None, set_poison (set_p json q') r)
  else
    let '(r, json) := c_json_advance (set_p json (drop 1 q')) in
    if negb (r =? 0) then (r, None, json)
    else (0, Some (c_string string), json).
Proof.
  intros Hp Hq Hs. unfold c_json_read_string. rewrite Hp, Hq.
  simpl. unfold drop at 1. rewrite Hs. reflexivity.
Qed.

(** C7.  The escapes of a high surrogate [hi] and a low surrogate [lo],
    one behind the other, are decoded in one turn of the loop of
    [c_json_read_string], whatever precedes and follows them: the four
    bytes of the standard UTF-8 encoding of the code point
    [0x10000 + (hi - 0xD800) * 0x400 + (lo - 0xDC00)] are appended to the
    stream.  For a string with plain bytes around the pair the reader
    returns those bytes with the encoding between them. *)
Theorem surrogate_pair_decoded (hs ls : list Z) (hi lo : Z) :
  length hs = 4%nat -> length ls = 4%nat ->
  c_json_read_utf16_unit hs = inr hi -> c_json_read_utf16_unit ls = inr lo ->
  0xD800 <= hi <= 0xDBFF -> 0xDC00 <= lo <= 0xDFFF ->
  let pair := unit_escape hs ++ unit_escape ls in
  let cp := surrogate_pair_cp hi lo in
  (forall rest out,
   string_turn (pair ++ rest) out = Next rest (out ++ utf8_standard cp)) /\
  length (utf8_standard cp) = 4%nat /\
  (forall json pre post tail,
   json.(poison) = 0 ->
   json.(p) = dquote ++ pre ++ pair ++ post ++ dquote ++ tail ->
   all_plain pre -> all_plain post ->
   c_json_read_string json =
   let '(r, json) := c_json_advance (set_p json tail) in
   if negb (r =? 0) then (r, None, json)
   else (0, Some (pre ++ utf8_standard cp ++ post), json)).
Proof.
  intros Lh Ll Hh Hl Rh Rl pair cp.
  assert (Hturn : forall rest out,
    string_turn (pair ++ rest) out = Next rest (out ++ utf8_standard cp)).
  { intros rest out. unfold pair. rewrite <- app_assoc.
    rewrite string_turn_unit_escape.
    now apply string_unicode_pair. }
  split; [exact Hturn|]. split.
  - pose proof (surrogate_cp_range hi lo Rh Rl) as Hcp. fold cp in Hcp.
    unfold utf8_standard.
    replace (cp <? 0x80) with false by (symmetry; apply Z.ltb_ge; lia).
    replace (cp <? 0x800) with false by (symmetry; apply Z.ltb_ge; lia).
    replace (cp <? 0x10000) with false by (symmetry; apply Z.ltb_ge; lia).
    reflexivity.
  - intros json pre post tail Hp Hq Hpre Hpost.
    assert (Hs : string_scan (pre ++ pair ++ post ++ dquote ++ tail) [] =
                 Some (0, dquote ++ tail, pre ++ utf8_standard cp ++ post)).
    { rewrite (string_scan_turns _ _ _ _ (plain_run pre Hpre _ [])).
      rewrite (string_scan_turn _ _ _ _ (Hturn _ _)).
      rewrite (string_scan_turns _ _ _ _ (plain_run post Hpost _ _)).
      rewrite string_scan_break by reflexivity.
      now rewrite <- app_assoc. }
    rewrite (read_string_scan json _ _ _ _ Hp Hq Hs).
    rewrite c_string_no_nul; [reflexivity|].
    pose proof (surrogate_cp_range hi lo Rh Rl) as Hcp. fold cp in Hcp.
    repeat apply Forall_app_2;
      auto using all_plain_no_nul, utf8_standard_no_nul with lia.
Qed.

Lemma surrogate_pair_decoded_witness :
  fst (c_json_read_string at_grinning_face) = (0, Some [0xF0; 0x9F; 0x98; 0x80]) /\
  utf8_standard 0x1F600 = [0xF0; 0x9F; 0x98; 0x80].
Proof.
  assert (Rh : 0xD800 <= 0xD83D <= 0xDBFF) by lia.
  assert (Rl : 0xDC00 <= 0xDE00 <= 0xDFFF) by lia.
  destruct (surrogate_pair_decoded (cstr "D83D") (cstr "DE00") 0xD83D 0xDE00
              eq_refl eq_refl eq_refl eq_refl Rh Rl) as (_ & _ & H).
  split; [|reflexivity].
  rewrite (H at_grinning_face [] [] [] eq_refl eq_refl); [reflexivity | |];
    constructor.
Defined.

(** C8.  The escape of a surrogate without its partner, a low surrogate
    met on its own or a high surrogate that is not at once followed by
    the escape of a low surrogate, ends the loop of [c_json_read_string]
    with [C_JSON_E_INVALID_JSON], whatever precedes it; for a string in
    which plain bytes precede the escape the reader returns
    [C_JSON_E_INVALID_JSON], stores no string and records the error. *)
Theorem unpaired_surrogate_rejected (hs : list Z) (cu : Z) (rest : list Z) :
  length hs = 4%nat -> c_json_read_utf16_unit hs = inr cu ->
  unpaired cu rest ->
  (forall out, exists q,
   string_turn (unit_escape hs ++ rest) out = Err C_JSON_E_INVALID_JSON q) /\
  (forall json pre,
   json.(poison) = 0 ->
   json.(p) = dquote ++ pre ++ unit_escape hs ++ rest ->
   all_plain pre ->
   exists q,
   c_json_read_string json =
   (C_JSON_E_INVALID_JSON, None,
    set_poison (set_p json q) C_JSON_E_INVALID_JSON)).
Proof.
  intros Lh Hh Hu.
  assert (Hturn : forall out, exists q,
    string_turn (unit_escape hs ++ rest) out = Err C_JSON_E_INVALID_JSON q).
  { intros out. rewrite string_turn_unit_escape.
    now apply (string_unicode_unpaired hs cu). }
  split; [exact Hturn|].
  intros json pre Hp Hq Hpre.
  destruct (Hturn ([] ++ pre)) as [q Hq'].
  exists q.
  assert (Hs : string_scan (pre ++ unit_escape hs ++ rest) [] =
               Some (C_JSON_E_INVALID_JSON, q, [] ++ pre)).
  { rewrite (string_scan_turns _ _ _ _ (plain_run pre Hpre _ [])).
    now apply string_scan_err. }
  rewrite (read_string_scan json _ _ _ _ Hp Hq Hs). reflexivity.
Qed.

Lemma unpaired_surrogate_rejected_witness :
  fst (c_json_read_string at_lone_high) = (C_JSON_E_INVALID_JSON, None).
Proof.
  assert (Hu : unpaired 0xD800 dquote).
  { right. split; [lia|].
    intros (ls & lo & rest' & E & _). discriminate E. }
  destruct (unpaired_surrogate_rejected (cstr "D800") 0xD800 dquote
              eq_refl eq_refl Hu) as [_ H].
  destruct (H at_lone_high [] eq_refl eq_refl) as [q E]; [constructor|].
  rewrite E. reflexivity.
Defined.

(** * Further properties of the reader *)

(** ** Return values and the poison *)

Ltac poison_cases :=
  repeat split_if; simpl; try reflexivity; try assumption.

Lemma advance_returns_poison json :
  fst (c_json_advance json) = (snd (c_json_advance json)).(poison).
Proof.
  unfold c_json_advance, fail.
  destruct (json.(poison) =? 0) eqn:E; simpl; [|reflexivity].
  apply Z.eqb_eq in E. poison_cases; now rewrite E.
Qed.

(** Names the outcome [(r, j)] of the call of [c_json_advance] in the
    goal, with [r] the poison of [j]. *)
Ltac name_advance_poison :=
  match goal with
  | |- context [c_json_advance ?x] =>
    let Ha := fresh "Ha" in
    pose proof (advance_returns_poison x) as Ha;
    destruct (c_json_advance x) as [? ?]; simpl in Ha
  end.

Ltac after_advance :=
  name_advance_poison;
  match goal with
  | |- context [negb (?r =? 0)] =>
    let E := fresh "E" in
    destruct (r =? 0) eqn:E; simpl;
    [apply Z.eqb_eq in E; congruence | assumption]
  end.

Lemma read_null_returns_poison json :
  fst (c_json_read_null json) = (snd (c_json_read_null json)).(poison).
Proof.
  unfold c_json_read_null, fail.
  poison_cases. apply advance_returns_poison.
Qed.

Lemma read_u64_returns_poison json :
  fst (fst (c_json_read_u64 json)) = (snd (c_json_read_u64 json)).(poison).
Proof.
  unfold c_json_read_u64.
  destruct (strtoul json.(p)) as [number endp].
  poison_cases. after_advance.
Qed.

Lemma read_f64_returns_poison strtod_end json :
  fst (c_json_read_f64 strtod_end json) =
  (snd (c_json_read_f64 strtod_end json)).(poison).
Proof.
  unfold c_json_read_f64, fail.
  poison_cases. apply advance_returns_poison.
Qed.

Lemma read_bool_returns_poison json :
  fst (fst (c_json_read_bool json)) = (snd (c_json_read_bool json)).(poison).
Proof.
  unfold c_json_read_bool.
  poison_cases; after_advance.
Qed.

Lemma read_string_returns_poison json :
  fst (fst (c_json_read_string json)) =
  (snd (c_json_read_string json)).(poison).
Proof.
  unfold c_json_read_string.
  poison_cases.
  destruct (string_scan _ _) as [[[r q] out]|] eqn:Es.
  - simpl. destruct (r =? 0) eqn:E; simpl; [|reflexivity]. after_advance.
  - pose proof (string_scan_total (drop 1 json.(p)) []) as [? Hs].
    simpl in Es. congruence.
Qed.

Lemma open_array_returns_poison json :
  fst (c_json_open_array json) = (snd (c_json_open_array json)).(poison).
Proof.
  unfold c_json_open_array, fail.
  destruct (json.(poison) =? 0) eqn:E; simpl; [|reflexivity].
  apply Z.eqb_eq in E. poison_cases. now rewrite E.
Qed.

Lemma open_object_returns_poison json :
  fst (c_json_open_object json) = (snd (c_json_open_object json)).(poison).
Proof.
  unfold c_json_open_object, fail.
  destruct (json.(poison) =? 0) eqn:E; simpl; [|reflexivity].
  apply Z.eqb_eq in E. poison_cases. now rewrite E.
Qed.

Lemma close_array_returns_poison json :
  fst (c_json_close_array json) = (snd (c_json_close_array json)).(poison).
Proof.
  unfold c_json_close_array, fail.
  poison_cases. apply advance_returns_poison.
Qed.

Lemma close_object_returns_poison json :
  fst (c_json_close_object json) = (snd (c_json_close_object json)).(poison).
Proof.
  unfold c_json_close_object, fail.
  poison_cases. apply advance_returns_poison.
Qed.

Lemma read_u64_stored json :
  snd (fst (c_json_read_u64 json)) <> None <-> fst (fst (c_json_read_u64 json)) = 0.
Proof.
  unfold c_json_read_u64.
  destruct (strtoul json.(p)) as [number endp].
  destruct (json.(poison) =? 0) eqn:Ep; simpl;
    [|apply Z.eqb_neq in Ep; tauto].
  repeat split_if; simpl; try (split; [tauto | discriminate]).
  destruct (c_json_advance _) as [r j].
  destruct (r =? 0) eqn:E; simpl.
  - split; [reflexivity | discriminate].
  - apply Z.eqb_neq in E. tauto.
Qed.

Lemma read_bool_stored json :
  snd (fst (c_json_read_bool json)) <> None <-> fst (fst (c_json_read_bool json)) = 0.
Proof.
  unfold c_json_read_bool.
  destruct (cur_state json =? chr "{"); simpl; [split; [tauto | discriminate]|].
  destruct (json.(poison) =? 0) eqn:Ep; simpl;
    [|apply Z.eqb_neq in Ep; tauto].
  repeat split_if; simpl; try (split; [tauto | discriminate]);
    destruct (c_json_advance _) as [r j];
    (destruct (r =? 0) eqn:E; simpl;
     [split; [reflexivity | discriminate] | apply Z.eqb_neq in E; tauto]).
Qed.

Lemma read_string_stored json :
  snd (fst (c_json_read_string json)) <> None <->
  fst (fst (c_json_read_string json)) = 0.
Proof.
  unfold c_json_read_string.
  destruct (json.(poison) =? 0) eqn:Ep; simpl;
    [|apply Z.eqb_neq in Ep; tauto].
  split_if; simpl; [split; [tauto | discriminate]|].
  destruct (string_scan _ _) as [[[r q] out]|] eqn:Es.
  - simpl. destruct (r =? 0) eqn:E; simpl;
      [|apply Z.eqb_neq in E; tauto].
    destruct (c_json_advance _) as [r' j].
    destruct (r' =? 0) eqn:E'; simpl.
    + split; [reflexivity | discriminate].
    + apply Z.eqb_neq in E'. tauto.
  - pose proof (string_scan_total (drop 1 json.(p)) []) as [? Hs].
    simpl in Es. congruence.
Qed.

Lemma option_is_some_stored {A} (o : option A) :
  o <> None <-> (match o with Some _ => true | None => false end) = true.
Proof. destruct o; split; congruence. Qed.

(** X1.  Whatever a call other than [c_json_end_read] returns as its
    [int] is the poison it leaves in the reader: [0] with an unpoisoned
    reader, or the recorded error.  A reader of a string, a number or a
    boolean writes through its return location exactly when it returns
    [0]. *)
Theorem exec_returns_poison (strtod_end : list Z -> list Z) (o : op)
    (json : CJson) (r : Z) :
  o <> OpEndRead ->
  ret_code (fst (exec strtod_end o json)) = Some r ->
  r = (snd (exec strtod_end o json)).(poison) /\
  (ret_stored (fst (exec strtod_end o json)) = true -> r = 0) /\
  (o = OpReadString \/ o = OpReadU64 \/ o = OpReadBool ->
   r = 0 -> ret_stored (fst (exec strtod_end o json)) = true).
Proof.
  intros Ho Hr. destruct o; try contradiction; unfold exec in *.
  - discriminate.
  - destruct (c_json_peek json). discriminate.
  - destruct (c_json_more json). discriminate.
  - pose proof (read_null_returns_poison json) as H.
    destruct (c_json_read_null json) as [r' j]. simpl in *.
    injection Hr as <-. repeat split; [assumption | discriminate |].
    intros [|[|]]; discriminate.
  - pose proof (read_string_returns_poison json) as H.
    pose proof (read_string_stored json) as Hs.
    destruct (c_json_read_string json) as [[r' s] j]. simpl in *.
    injection Hr as <-. rewrite option_is_some_stored in Hs.
    repeat split; [assumption | apply Hs | intros _; apply Hs].
  - pose proof (read_u64_returns_poison json) as H.
    pose proof (read_u64_stored json) as Hs.
    destruct (c_json_read_u64 json) as [[r' s] j]. simpl in *.
    injection Hr as <-. rewrite option_is_some_stored in Hs.
    repeat split; [assumption | apply Hs | intros _; apply Hs].
  - pose proof (read_f64_returns_poison strtod_end json) as H.
    destruct (c_json_read_f64 strtod_end json) as [r' j]. simpl in *.
    injection Hr as <-. repeat split; [assumption | discriminate |].
    intros [|[|]]; discriminate.
  - pose proof (read_bool_returns_poison json) as H.
    pose proof (read_bool_stored json) as Hs.
    destruct (c_json_read_bool json) as [[r' s] j]. simpl in *.
    injection Hr as <-. rewrite option_is_some_stored in Hs.
    repeat split; [assumption | apply Hs | intros _; apply Hs].
  - pose proof (open_array_returns_poison json) as H.
    destruct (c_json_open_array json) as [r' j]. simpl in *.
    injection Hr as <-. repeat split; [assumption | discriminate |].
    intros [|[|]]; discriminate.
  - pose proof (close_array_returns_poison json) as H.
    destruct (c_json_close_array json) as [r' j]. simpl in *.
    injection Hr as <-. repeat split; [assumption | discriminate |].
    intros [|[|]]; discriminate.
  - pose proof (open_object_returns_poison json) as H.
    destruct (c_json_open_object json) as [r' j]. simpl in *.
    injection Hr as <-. repeat split; [assumption | discriminate |].
    intros [|[|]]; discriminate.
  - pose proof (close_object_returns_poison json) as H.
    destruct (c_json_close_object json) as [r' j]. simpl in *.
    injection Hr as <-. repeat split; [assumption | discriminate |].
    intros [|[|]]; discriminate.
Qed.

Lemma exec_returns_poison_witness :
  C_JSON_E_INVALID_TYPE =
  (snd (exec (fun q => q) OpReadU64 at_decimal_fraction)).(poison).
Proof.
  apply (exec_returns_poison (fun q => q) OpReadU64 at_decimal_fraction).
  - discriminate.
  - reflexivity.
Defined.

(** A call on a poisoned reader leaves it poisoned, and the [int] it
    returns is not [0]. *)
Lemma exec_keeps_poisoned strtod_end o json :
  json.(poison) <> 0 ->
  (snd (exec strtod_end o json)).(poison) <> 0 /\
  (forall r, ret_code (fst (exec strtod_end o json)) = Some r -> r <> 0).
Proof.
  intros Hp. destruct o; unfold exec.
  - simpl. split; [assumption | discriminate].
  - pose proof (end_read_latched json Hp) as H.
    unfold c_json_end_read in *. simpl in *.
    split; [assumption|]. intros r [= <-]. now rewrite H.
  - unfold c_json_peek. rewrite (poison_test json Hp). simpl.
    split; [assumption | discriminate].
  - unfold c_json_more. rewrite (poison_test json Hp). simpl.
    split; [assumption | discriminate].
  - rewrite (read_null_latched json Hp). simpl.
    split; [assumption | now intros r [= <-]].
  - rewrite (read_string_latched json Hp). simpl.
    split; [assumption | now intros r [= <-]].
  - rewrite (read_u64_latched json Hp). simpl.
    split; [assumption | now intros r [= <-]].
  - rewrite (read_f64_latched json Hp). simpl.
    split; [assumption | now intros r [= <-]].
  - destruct (Z.eq_dec (cur_state json) (chr "{")) as [Hs|Hs].
    + rewrite (read_bool_unlatched json Hs). simpl.
      split; [discriminate | now intros r [= <-]].
    + rewrite (read_bool_latched json Hp Hs). simpl.
      split; [assumption | now intros r [= <-]].
  - rewrite (open_array_latched json Hp). simpl.
    split; [assumption | now intros r [= <-]].
  - rewrite (close_array_latched json Hp). simpl.
    split; [assumption | now intros r [= <-]].
  - rewrite (open_object_latched json Hp). simpl.
    split; [assumption | now intros r [= <-]].
  - rewrite (close_object_latched json Hp). simpl.
    split; [assumption | now intros r [= <-]].
Qed.

(** X2.  A poisoned reader stays poisoned: after any calls whatever,
    [c_json_begin_read] and [c_json_end_read] among them, the poison is
    not [0], and none of the calls has returned [0]. *)
Theorem poison_is_permanent (strtod_end : list Z -> list Z) (ops : list op) :
  forall json,
  json.(poison) <> 0 ->
  (snd (run strtod_end ops json)).(poison) <> 0 /\
  Forall (fun r => forall c, ret_code r = Some c -> c <> 0)
         (fst (run strtod_end ops json)).
Proof.
  induction ops as [|o ops IH]; intros json Hp; simpl.
  - split; [assumption | constructor].
  - destruct (exec_keeps_poisoned strtod_end o json Hp) as [Hp' Hr].
    destruct (exec strtod_end o json) as [r j]. simpl in Hp', Hr.
    destruct (IH j Hp') as [Hp'' Hrs].
    destruct (run strtod_end ops j) as [rs j']. simpl in *.
    split; [assumption | constructor; assumption].
Qed.

Lemma poison_is_permanent_witness :
  (snd (run (fun q => q)
          [OpReadBool; OpEndRead; OpBeginRead (cstr "1"); OpReadU64]
          (snd (exec (fun q => q) OpReadU64 at_decimal_fraction)))).(poison)
  <> 0.
Proof.
  apply (poison_is_permanent (fun q => q)
           [OpReadBool; OpEndRead; OpBeginRead (cstr "1"); OpReadU64]).
  discriminate.
Defined.

(** ** The contents of a string *)

Lemma escape_turn c b rest out :
  In (c, b) escape_table ->
  string_turn (chr "\" :: c :: rest) out = Next rest (out ++ [b]).
Proof.
  intros H. simpl in H.
  repeat (destruct H as [[= <- <-] | H]; [reflexivity|]).
  contradiction.
Qed.

Lemma unit_turn hs cu rest out :
  length hs = 4%nat -> c_json_read_utf16_unit hs = inr cu ->
  cu < 0xD800 \/ 0xDFFF < cu ->
  string_turn (unit_escape hs ++ rest) out =
  Next rest (out ++ utf8_standard cu).
Proof.
  intros Lh Hh Hr. rewrite string_turn_unit_escape. unfold string_unicode.
  rewrite (read_utf16_unit_prefix hs _ Lh), Hh, (drop_digits hs _ Lh).
  pose proof (utf16_unit_range _ _ Hh) as Hcu.
  replace (in_range 0xD800 0xDBFF cu) with false
    by (symmetry; unfold in_range; apply andb_false_iff;
        destruct Hr; [left | right]; apply Z.leb_gt; lia).
  replace (in_range 0xDC00 0xDFFF cu) with false
    by (symmetry; unfold in_range; apply andb_false_iff;
        destruct Hr; [left | right]; apply Z.leb_gt; lia).
  rewrite write_utf8_standard by lia. reflexivity.
Qed.

(** The loop works through a content and appends what it stands for. *)
Lemma content_turns s o :
  string_content s o -> forall rest out, turns (s ++ rest) out rest (out ++ o).
Proof.
  induction 1 as [|c s o Hc _ IH|c b s o Hc _ IH|hs cu s o Lh Hh Hr _ IH
                  |hs ls hi lo s o Lh Ll Hh Hl Rh Rl _ IH]; intros rest out.
  - rewrite app_nil_r. constructor.
  - eapply turns_step; [apply plain_turn, Hc|].
    replace (out ++ c :: o) with ((out ++ [c]) ++ o)
      by (now rewrite <- app_assoc).
    apply IH.
  - eapply turns_step; [apply (escape_turn c b), Hc|].
    replace (out ++ b :: o) with ((out ++ [b]) ++ o)
      by (now rewrite <- app_assoc).
    apply IH.
  - rewrite <- app_assoc.
    eapply turns_step; [apply (unit_turn hs cu); assumption|].
    rewrite app_assoc. apply IH.
  - rewrite <- !app_assoc.
    eapply turns_step.
    + rewrite string_turn_unit_escape.
      apply (string_unicode_pair hs ls hi lo); assumption.
    + rewrite app_assoc. apply IH.
Qed.

(** X3.  A string whose text between the quotes is made of plain bytes,
    two-character escapes, escaped code units and escaped surrogate
    pairs, in any order, is decoded to the bytes they stand for, one
    behind the other (code units and pairs as standard UTF-8).  The
    caller receives them as a [char *] without a length: the string read
    at [*stringp] is these bytes up to the first zero byte, all of them
    when none is zero.  The reader then advances from behind the closing
    quote. *)
Theorem read_string_content (json : CJson) (s out tail : list Z) :
  json.(poison) = 0 ->
  json.(p) = dquote ++ s ++ dquote ++ tail ->
  string_content s out ->
  c_json_read_string json =
  (let '(r, json) := c_json_advance (set_p json tail) in
   if negb (r =? 0) then (r, None, json) else (0, Some (c_string out), json)) /\
  (Forall (fun c => c <> 0) out -> c_string out = out) /\
  (forall pre post, out = pre ++ 0 :: post -> Forall (fun c => c <> 0) pre ->
   c_string out = pre).
Proof.
  intros Hp Hq Hs.
  assert (Hscan : string_scan (s ++ dquote ++ tail) [] =
                  Some (0, dquote ++ tail, out)).
  { rewrite (string_scan_turns _ _ _ _ (content_turns s out Hs _ [])).
    now rewrite string_scan_break. }
  split; [|split].
  - rewrite (read_string_scan json _ _ _ _ Hp Hq Hscan). reflexivity.
  - apply c_string_no_nul.
  - intros pre post -> Hpre. now apply c_string_nul.
Qed.

Lemma read_string_content_witness :
  fst (c_json_read_string at_mixed_string) =
  (0, Some [97; 10; 0xC3; 0xA9; 0xF0; 0x9F; 0x98; 0x80; 98]) /\
  fst (c_json_read_string at_nul_string) = (0, Some [97]).
Proof.
  assert (Hc : string_content mixed_text
                 [97; 10; 0xC3; 0xA9; 0xF0; 0x9F; 0x98; 0x80; 98]).
  { apply content_plain; [reflexivity|].
    apply (content_escape (chr "n") 10); [simpl; tauto|].
    apply (content_unit (cstr "00e9") 0xe9 _ [0xF0; 0x9F; 0x98; 0x80; 98]);
      [reflexivity | reflexivity | lia |].
    apply (content_pair (cstr "D83D") (cstr "DE00") 0xD83D 0xDE00 _ [98]);
      [reflexivity | reflexivity | reflexivity | reflexivity | lia | lia |].
    apply content_plain; [reflexivity|]. apply content_end. }
  assert (Hn : string_content nul_text [97; 0; 98]).
  { apply content_plain; [reflexivity|].
    apply (content_unit (cstr "0000") 0 _ [98]);
      [reflexivity | reflexivity | lia |].
    apply content_plain; [reflexivity|]. apply content_end. }
  split.
  - destruct (read_string_content at_mixed_string mixed_text _ []
                eq_refl eq_refl Hc) as [E _].
    rewrite E. reflexivity.
  - destruct (read_string_content at_nul_string nul_text _ []
                eq_refl eq_refl Hn) as [E _].
    rewrite E. reflexivity.
Defined.

(** A character that is not [0] is the head of the suffix. *)
Lemma cur_cons q c : cur q = c -> c <> 0 -> exists q', q = c :: q'.
Proof. destruct q as [|d q']; simpl; intros <- H; [contradiction | eauto]. Qed.

Lemma in_range_false_out lo hi c :
  in_range lo hi c = false -> c < lo \/ hi < c.
Proof.
  unfold in_range. intros H. apply andb_false_iff in H as [H|H];
    apply Z.leb_gt in H; lia.
Qed.

Lemma in_range_true_in lo hi c : in_range lo hi c = true -> lo <= c <= hi.
Proof.
  unfold in_range. intros H. apply andb_true_iff in H as [H1 H2].
  apply Z.leb_le in H1, H2. lia.
Qed.

(** A completed turn of the [case 'u'] arm has read one escaped code
    unit, or an escaped pair, from behind the [u]. *)
Lemma unicode_next_content q out q' out' :
  string_unicode q out = Next q' out' ->
  exists s o, chr "\" :: chr "u" :: q = s ++ q' /\ out' = out ++ o /\
              string_content s o.
Proof.
  unfold string_unicode. intros H.
  destruct (c_json_read_utf16_unit q) as [r|cu] eqn:Hcu; [discriminate|].
  destruct (read_utf16_unit_four _ _ Hcu) as (a & b & c & d & q3 & ->).
  pose proof (utf16_unit_range _ _ Hcu) as Rcu.
  change (drop 4 (a :: b :: c :: d :: q3)) with q3 in H.
  destruct (in_range 0xD800 0xDBFF cu) eqn:Rh.
  - apply in_range_true_in in Rh.
    destruct (negb (at_ q3 0 =? chr "\") || negb (at_ q3 1 =? chr "u")) eqn:E;
      [discriminate|].
    apply orb_false_iff in E as [E0 E1].
    apply negb_false_iff, Z.eqb_eq in E0, E1.
    destruct q3 as [|c0 [|c1 q4]]; try discriminate.
    unfold at_ in E0, E1. simpl in E0, E1. subst c0 c1.
    change (drop 2 (chr "\" :: chr "u" :: q4)) with q4 in H.
    destruct (c_json_read_utf16_unit q4) as [r|lo] eqn:Hlo; [discriminate|].
    destruct (read_utf16_unit_four _ _ Hlo) as (a' & b' & c' & d' & q5 & ->).
    change (drop 4 (a' :: b' :: c' :: d' :: q5)) with q5 in H.
    destruct ((lo <? 0xDC00) || (0xDFFF <? lo)) eqn:Rl; [discriminate|].
    apply orb_false_iff in Rl as [Rl1 Rl2]. apply Z.ltb_ge in Rl1, Rl2.
    injection H as <- <-.
    exists (unit_escape [a; b; c; d] ++ unit_escape [a'; b'; c'; d']),
           (utf8_standard (surrogate_pair_cp cu lo)).
    split; [reflexivity|]. split.
    + rewrite surrogate_cp_shift. apply write_utf8_standard.
      pose proof (surrogate_cp_range cu lo Rh). lia.
    + rewrite <- (app_nil_r (unit_escape _ ++ unit_escape _)), <- app_assoc.
      rewrite <- (app_nil_r (utf8_standard _)).
      apply content_pair; try reflexivity; try assumption; try lia.
      constructor.
  - destruct (in_range 0xDC00 0xDFFF cu) eqn:Rl; [discriminate|].
    apply in_range_false_out in Rh, Rl.
    injection H as <- <-.
    exists (unit_escape [a; b; c; d]), (utf8_standard cu).
    split; [reflexivity|]. split.
    + apply write_utf8_standard. lia.
    + rewrite <- (app_nil_r (unit_escape _)), <- (app_nil_r (utf8_standard _)).
      apply (content_unit [a; b; c; d] cu); try reflexivity; try assumption;
        [lia | constructor].
Qed.

Lemma single_content_escape c b :
  In (c, b) escape_table -> string_content [chr "\"; c] [b].
Proof. intros H. apply (content_escape c b [] []); [assumption | constructor]. Qed.

(** A completed turn of the escape [switch]. *)
Lemma escape_next_content q out q' out' :
  string_escape q out = Next q' out' ->
  exists s o, chr "\" :: q = s ++ q' /\ out' = out ++ o /\ string_content s o.
Proof.
  unfold string_escape. intros H.
  destruct q as [|e q2]; [discriminate|]. simpl cur in H.
  change (drop 1 (e :: q2)) with q2 in H.
  repeat match type of H with
  | (if ?e =? ?k then Next _ (fputc ?b _) else _) = _ =>
    let E := fresh "E" in
    destruct (e =? k) eqn:E;
    [ apply Z.eqb_eq in E; subst e; injection H as <- <-;
      exists [chr "\"; k], [b]; split; [reflexivity|]; split; [reflexivity|];
      apply single_content_escape; simpl; tauto
    | clear E ]
  end.
  destruct (e =? chr "u") eqn:E; [|discriminate].
  apply Z.eqb_eq in E. subst e.
  now apply unicode_next_content.
Qed.

(** A completed turn of the loop has read one plain byte, one escape or
    one escaped pair. *)
Lemma turn_next_content q out q' out' :
  all_bytes q ->
  string_turn q out = Next q' out' ->
  exists s o, q = s ++ q' /\ out' = out ++ o /\ string_content s o.
Proof.
  unfold string_turn. intros Hb H.
  destruct q as [|c q1]; [discriminate|]. simpl cur in H.
  change (drop 1 (c :: q1)) with q1 in H.
  destruct (c =? chr "034") eqn:E1; [discriminate|].
  destruct (c <? 0x20) eqn:E2; [discriminate|].
  destruct (c =? chr "\") eqn:E3.
  - apply Z.eqb_eq in E3. subst c. now apply escape_next_content.
  - injection H as <- <-. apply Z.ltb_ge in E2.
    pose proof (Forall_inv Hb) as Hc. simpl in Hc.
    exists [c], [c]. split; [reflexivity|]. split.
    + unfold fputc. now rewrite Z.mod_small by lia.
    + apply content_plain; [|constructor].
      unfold is_plain. rewrite E1, E3.
      replace (0x20 <=? c) with true by (symmetry; apply Z.leb_le; lia).
      replace (c <? 256) with true by (symmetry; apply Z.ltb_lt; lia).
      reflexivity.
Qed.

Lemma content_app s1 o1 s2 o2 :
  string_content s1 o1 -> string_content s2 o2 ->
  string_content (s1 ++ s2) (o1 ++ o2).
Proof.
  induction 1 as [|c s o Hc _ IH|c b s o Hc _ IH|hs cu s o Lh Hh Hr _ IH
                  |hs ls hi lo s o Lh Ll Hh Hl Rh Rl _ IH]; intros H2.
  - assumption.
  - simpl. apply content_plain; auto.
  - simpl. apply content_escape; auto.
  - rewrite <- !app_assoc. apply content_unit; auto.
  - rewrite <- !app_assoc. apply content_pair; auto.
Qed.

Lemma all_bytes_app_r s q : all_bytes (s ++ q) -> all_bytes q.
Proof. unfold all_bytes. rewrite Forall_app. tauto. Qed.

Lemma unicode_outcome q out :
  match string_unicode q out with
  | Break => False
  | Err r _ => r = C_JSON_E_INVALID_JSON
  | Next _ _ => True
  end.
Proof.
  unfold string_unicode.
  destruct (c_json_read_utf16_unit q) as [r|cu] eqn:E1;
    [now apply read_utf16_unit_error in E1|].
  destruct (in_range 0xD800 0xDBFF cu).
  - destruct (negb _ || negb _); [reflexivity|].
    destruct (c_json_read_utf16_unit (drop 2 (drop 4 q))) as [r|cu'] eqn:E2;
      [now apply read_utf16_unit_error in E2|].
    now destruct ((cu' <? 0xDC00) || (0xDFFF <? cu')).
  - now destruct (in_range _ _ _).
Qed.

Lemma escape_outcome q out :
  match string_escape q out with
  | Break => False
  | Err r _ => r = C_JSON_E_INVALID_JSON
  | Next _ _ => True
  end.
Proof.
  unfold string_escape.
  repeat split_if; try exact I; try reflexivity.
  apply unicode_outcome.
Qed.

(** The loop stops only at a closing quote, and an error of a turn is
    [C_JSON_E_INVALID_JSON]. *)
Lemma turn_outcome q out :
  match string_turn q out with
  | Break => cur q = chr "034"
  | Err r _ => r = C_JSON_E_INVALID_JSON
  | Next _ _ => True
  end.
Proof.
  unfold string_turn.
  destruct (cur q =? chr "034") eqn:E; [now apply Z.eqb_eq in E|].
  repeat split_if; try exact I; try reflexivity.
  pose proof (escape_outcome (drop 1 q) out) as H.
  now destruct (string_escape (drop 1 q) out).
Qed.

(** The loop that ends at a closing quote has read a content. *)
Lemma loop_break_content fuel :
  forall q out q' out',
  all_bytes q ->
  string_loop fuel q out = Some (0, q', out') ->
  exists s o, q = s ++ q' /\ out' = out ++ o /\ string_content s o /\
              cur q' = chr "034".
Proof.
  induction fuel as [|fuel IH]; intros q out q' out' Hb H; [discriminate|].
  simpl in H. pose proof (turn_outcome q out) as Ho.
  destruct (string_turn q out) as [|r q1|q1 out1] eqn:E.
  - injection H as <- <-. exists [], []. rewrite app_nil_r.
    repeat split; [constructor | assumption].
  - injection H as -> <- <-. discriminate.
  - destruct (turn_next_content _ _ _ _ Hb E) as (s1 & o1 & -> & -> & Hc1).
    destruct (IH _ _ _ _ (all_bytes_app_r _ _ Hb) H)
      as (s2 & o2 & -> & -> & Hc2 & Hq).
    exists (s1 ++ s2), (o1 ++ o2). rewrite <- !app_assoc.
    repeat split; [now apply content_app | assumption].
Qed.

(** An error of the loop is [C_JSON_E_INVALID_JSON]. *)
Lemma loop_error_code fuel :
  forall q out r q' out',
  string_loop fuel q out = Some (r, q', out') ->
  r = 0 \/ r = C_JSON_E_INVALID_JSON.
Proof.
  induction fuel as [|fuel IH]; intros q out r q' out' H; [discriminate|].
  simpl in H. pose proof (turn_outcome q out) as Ho.
  destruct (string_turn q out) as [|r1 q1|q1 out1] eqn:E.
  - injection H as <- _ _. now left.
  - injection H as <- _ _. now right.
  - eapply IH, H.
Qed.

Lemma advance_code json :
  json.(poison) = 0 ->
  fst (c_json_advance json) = 0 \/
  fst (c_json_advance json) = C_JSON_E_INVALID_JSON.
Proof.
  intros Hp. unfold c_json_advance, fail. rewrite Hp. simpl.
  repeat split_if; simpl; auto.
Qed.

Lemma all_bytes_cstr s : all_bytes (cstr s).
Proof.
  unfold all_bytes, cstr.
  induction (list_ascii_of_string s) as [|a l IH]; simpl; constructor;
    [|assumption].
  unfold chr. pose proof (N_ascii_bounded a). lia.
Qed.

Ltac bytes_by_computation :=
  match goal with
  | |- all_bytes ?q =>
    let l := eval vm_compute in q in
    change (Forall (fun c => 0 <= c < 256) l)
  end;
  repeat (constructor; [lia|]); constructor.

(** The outcome of [c_json_read_string] at an opening quote, in terms of
    the outcome of its loop. *)
Lemma read_string_outcome json :
  json.(poison) = 0 -> all_bytes json.(p) ->
  cur json.(p) = chr "034" ->
  let res := c_json_read_string json in
  (fst (fst res) = C_JSON_E_INVALID_JSON /\ snd (fst res) = None) \/
  (fst (fst res) = 0 /\
   exists s out tail,
     json.(p) = dquote ++ s ++ dquote ++ tail /\ string_content s out /\
     snd (fst res) = Some (c_string out)).
Proof.
  intros Hp Hb Hc.
  destruct (cur_cons _ _ Hc) as [q Hq]; [discriminate|].
  destruct (string_scan_total q []) as [[[r q'] out] Hs].
  cbv zeta. rewrite (read_string_scan json q r q' out Hp Hq Hs).
  destruct (loop_error_code _ _ _ _ _ _ Hs) as [-> | ->]; [|now left].
  simpl negb. cbv iota.
  assert (Hbq : all_bytes q) by (rewrite Hq in Hb; now inversion Hb).
  destruct (loop_break_content _ _ _ _ _ Hbq Hs)
    as (s & o & -> & Ho & Hcont & Hquote).
  simpl in Ho. subst out.
  destruct (cur_cons _ _ Hquote) as [tail ->]; [discriminate|].
  change (drop 1 (chr "034" :: tail)) with tail.
  destruct (advance_code (set_p json tail) Hp) as [Ha|Ha];
    destruct (c_json_advance (set_p json tail)) as [r j]; simpl in Ha; subst r.
  - right. split; [reflexivity|]. exists s, o, tail.
    split; [now rewrite Hq | split; [assumption | reflexivity]].
  - left. split; reflexivity.
Qed.

(** X4.  When [c_json_read_string] succeeds, the text at the cursor was a
    well-formed string: between two quotes, plain bytes, two-character
    escapes, escaped code units and escaped surrogate pairs, and nothing
    else.  The string that the caller reads at [*stringp] is the bytes
    they stand for up to the first zero byte: all of them when none is
    zero. *)
Theorem read_string_success_content (json : CJson) :
  json.(poison) = 0 -> all_bytes json.(p) ->
  fst (fst (c_json_read_string json)) = 0 ->
  exists s out tail,
    json.(p) = dquote ++ s ++ dquote ++ tail /\ string_content s out /\
    snd (fst (c_json_read_string json)) = Some (c_string out) /\
    (Forall (fun c => c <> 0) out -> c_string out = out) /\
    (forall pre post, out = pre ++ 0 :: post ->
     Forall (fun c => c <> 0) pre -> c_string out = pre).
Proof.
  intros Hp Hb Hr.
  destruct (Z.eq_dec (cur json.(p)) (chr "034")) as [Hc|Hc].
  - destruct (read_string_outcome json Hp Hb Hc) as [[E _] | [_ H]].
    + rewrite Hr in E. discriminate.
    + destruct H as (s & out & tail & E & Hs & Hres).
      exists s, out, tail. repeat split; try assumption.
      * apply c_string_no_nul.
      * intros pre post -> Hpre. now apply c_string_nul.
  - exfalso. revert Hr. unfold c_json_read_string. rewrite Hp.
    apply Z.eqb_neq in Hc. rewrite Hc. discriminate.
Qed.

Lemma read_string_success_content_witness :
  exists s out tail,
    at_nul_string.(p) = dquote ++ s ++ dquote ++ tail /\
    string_content s out /\
    snd (fst (c_json_read_string at_nul_string)) = Some (c_string out) /\
    (Forall (fun c => c <> 0) out -> c_string out = out) /\
    (forall pre post, out = pre ++ 0 :: post ->
     Forall (fun c => c <> 0) pre -> c_string out = pre).
Proof.
  apply (read_string_success_content at_nul_string).
  - reflexivity.
  - bytes_by_computation.
  - reflexivity.
Defined.

(** X5.  At an opening quote, text that is not a well-formed string (no
    closing quote before the end of the input, a control character, an
    unknown escape, bad hexadecimal digits, a surrogate without its
    partner) makes [c_json_read_string] fail with
    [C_JSON_E_INVALID_JSON]; nothing is stored and the error is
    recorded. *)
Theorem read_string_malformed (json : CJson) :
  json.(poison) = 0 -> all_bytes json.(p) ->
  cur json.(p) = chr "034" ->
  ~ string_at json.(p) ->
  fst (c_json_read_string json) = (C_JSON_E_INVALID_JSON, None) /\
  (snd (c_json_read_string json)).(poison) = C_JSON_E_INVALID_JSON.
Proof.
  intros Hp Hb Hc Hn.
  pose proof (read_string_returns_poison json) as Hpo.
  destruct (read_string_outcome json Hp Hb Hc) as [[E1 E2] | [_ H]].
  - cbv zeta in E1, E2. rewrite <- Hpo.
    destruct (c_json_read_string json) as [[r s] j].
    simpl in *. subst. rewrite E1. split; reflexivity.
  - exfalso. apply Hn. destruct H as (s & out & tail & E & Hs & _).
    now exists s, out, tail.
Qed.

Lemma read_string_malformed_witness :
  fst (c_json_read_string at_open_string) = (C_JSON_E_INVALID_JSON, None).
Proof.
  apply (read_string_malformed at_open_string).
  - reflexivity.
  - bytes_by_computation.
  - reflexivity.
  - intros (s & out & tail & E & _).
    change (p at_open_string) with (chr "034" :: cstr "abc") in E.
    injection E as E.
    assert (H : In (chr "034") (cstr "abc"))
      by (rewrite E; apply in_or_app; right; left; reflexivity).
    simpl in H. destruct H as [H | [H | [H | []]]]; discriminate H.
Defined.

(** ** The encoder and the code units *)

(** X6.  For every code point up to [0x10FFFF], [c_json_write_utf8]
    appends to the stream the standard UTF-8 encoding of the code point
    and nothing else: one to four bytes. *)
Theorem write_utf8_encoding (cp : Z) (stream : list Z) :
  0 <= cp <= 0x10FFFF ->
  c_json_write_utf8 cp stream = stream ++ utf8_standard cp /\
  (1 <= length (utf8_standard cp) <= 4)%nat /\
  all_bytes (utf8_standard cp).
Proof.
  intros Hcp. split; [now apply write_utf8_standard|].
  unfold utf8_standard, all_bytes.
  repeat split_if; simpl; (split; [lia|]);
    repeat match goal with
    | H : (_ <? _) = true |- _ => apply Z.ltb_lt in H
    | H : (_ <? _) = false |- _ => apply Z.ltb_ge in H
    end;
    repeat (constructor; [divmod|]); constructor.
Qed.

Lemma write_utf8_encoding_witness :
  c_json_write_utf8 0x20AC [] = [0xE2; 0x82; 0xAC].
Proof.
  assert (H : 0 <= 0x20AC <= 0x10FFFF) by lia.
  destruct (write_utf8_encoding 0x20AC [] H) as [E _].
  rewrite E. reflexivity.
Defined.

Lemma utf8_standard_injective cp1 cp2 :
  0 <= cp1 <= 0x10FFFF -> 0 <= cp2 <= 0x10FFFF ->
  utf8_standard cp1 = utf8_standard cp2 -> cp1 = cp2.
Proof.
  intros H1 H2. unfold utf8_standard.
  repeat split_if;
    repeat match goal with
    | H : (_ <? _) = true |- _ => apply Z.ltb_lt in H
    | H : (_ <? _) = false |- _ => apply Z.ltb_ge in H
    end;
    intros E; try discriminate E; injection E; intros; divmod.
Qed.

(** X7.  Two code points up to [0x10FFFF] that [c_json_write_utf8]
    writes as the same bytes are the same code point. *)
Theorem write_utf8_injective (cp1 cp2 : Z) (stream : list Z) :
  0 <= cp1 <= 0x10FFFF -> 0 <= cp2 <= 0x10FFFF ->
  c_json_write_utf8 cp1 stream = c_json_write_utf8 cp2 stream ->
  cp1 = cp2.
Proof.
  intros H1 H2 E.
  rewrite !write_utf8_standard in E by assumption.
  apply app_inv_head in E. now apply utf8_standard_injective.
Qed.

Lemma write_utf8_injective_witness :
  c_json_write_utf8 0x20AC [] = [0xE2; 0x82; 0xAC] /\ 0x20AC = 0x20AC.
Proof.
  split; [reflexivity|].
  apply (write_utf8_injective 0x20AC 0x20AC []); [lia | lia | reflexivity].
Defined.

Lemma unit_bits_value d0 d1 d2 d3 :
  0 <= d0 < 16 -> 0 <= d1 < 16 -> 0 <= d2 < 16 -> 0 <= d3 < 16 ->
  Z.lor (Z.lor (Z.lor (Z.shiftl d0 12) (Z.shiftl d1 8)) (Z.shiftl d2 4)) d3 =
  hex_value d0 d1 d2 d3.
Proof.
  intros H0 H1 H2 H3.
  assert (Hall :
    forallb (fun a => forallb (fun b => forallb (fun c => forallb (fun d =>
      Z.lor (Z.lor (Z.lor (Z.shiftl (Z.of_nat a) 12)
                 (Z.shiftl (Z.of_nat b) 8)) (Z.shiftl (Z.of_nat c) 4))
                 (Z.of_nat d)
      =? hex_value (Z.of_nat a) (Z.of_nat b) (Z.of_nat c) (Z.of_nat d))
      (seq 0 16)) (seq 0 16)) (seq 0 16)) (seq 0 16) = true)
    by (vm_compute; reflexivity).
  apply (forallb_below _ 16 d0) in Hall; [|lia].
  apply (forallb_below _ 16 d1) in Hall; [|lia].
  apply (forallb_below _ 16 d2) in Hall; [|lia].
  apply (forallb_below _ 16 d3) in Hall; [|lia].
  rewrite !Z2Nat.id in Hall by lia.
  now apply Z.eqb_eq.
Qed.

(** The value of a hexadecimal digit, by its character. *)
Lemma hex_digit_value c d : hex_digit c = Some d <-> hex_char c d.
Proof.
  unfold hex_digit, hex_char. chr_eval.
  destruct (in_range 48 57 c) eqn:E1;
    [apply in_range_true_in in E1 | apply in_range_false_out in E1].
  { split; [intros [= <-]; left; lia | intros [[_ ->]|[[? _]|[? _]]]; [reflexivity | lia ..]]. }
  destruct (in_range 97 102 c) eqn:E2;
    [apply in_range_true_in in E2 | apply in_range_false_out in E2].
  { split; [intros [= <-]; right; left; lia | intros [[? _]|[[_ ->]|[? _]]]; [lia | reflexivity | lia]]. }
  destruct (in_range 65 70 c) eqn:E3;
    [apply in_range_true_in in E3 | apply in_range_false_out in E3].
  { split; [intros [= <-]; right; right; lia | intros [[? _]|[[? _]|[_ ->]]]; [lia | lia | reflexivity]]. }
  split; [discriminate | intros [[? _]|[[? _]|[? _]]]; lia].
Qed.

(** X8.  [c_json_read_utf16_unit] succeeds exactly when the four
    characters at the cursor are hexadecimal digits: [0] to [9], [a] to
    [f] or [A] to [F], worth 0 to 9 and 10 to 15.  The unit is then the
    number that the four digits write in base sixteen, the first digit
    being the most significant.  Otherwise the function returns
    [C_JSON_E_INVALID_JSON]. *)
Theorem read_utf16_unit_value (q : list Z) :
  (forall cu,
   c_json_read_utf16_unit q = inr cu <->
   exists d0 d1 d2 d3,
     hex_char (at_ q 0) d0 /\ hex_char (at_ q 1) d1 /\
     hex_char (at_ q 2) d2 /\ hex_char (at_ q 3) d3 /\
     cu = hex_value d0 d1 d2 d3) /\
  (forall r, c_json_read_utf16_unit q = inl r -> r = C_JSON_E_INVALID_JSON).
Proof.
  split.
  - intros cu. unfold c_json_read_utf16_unit. split.
    + intros H.
      destruct (hex_digit (at_ q 0)) as [d0|] eqn:E0; [|discriminate].
      destruct (hex_digit (at_ q 1)) as [d1|] eqn:E1; [|discriminate].
      destruct (hex_digit (at_ q 2)) as [d2|] eqn:E2; [|discriminate].
      destruct (hex_digit (at_ q 3)) as [d3|] eqn:E3; [|discriminate].
      injection H as <-. exists d0, d1, d2, d3.
      split; [|split; [|split; [|split]]];
        try (now apply hex_digit_value).
      apply unit_bits_value; eapply hex_digit_some; eassumption.
    + intros (d0 & d1 & d2 & d3 & E0 & E1 & E2 & E3 & ->).
      apply hex_digit_value in E0, E1, E2, E3.
      rewrite E0, E1, E2, E3. f_equal.
      apply unit_bits_value; eapply hex_digit_some; eassumption.
  - apply read_utf16_unit_error.
Qed.

(** ** Numbers *)

(** X9.  At a run of decimal digits whose value is at most [2 ^ 64 - 1],
    leading zeros included, followed by something other than a digit,
    [.], [e] or [E], [c_json_read_u64] advances from behind the run and,
    when that succeeds, stores exactly the value of the run. *)
Theorem read_u64_value (json : CJson) (ds rest : list Z) :
  json.(poison) = 0 -> cur_state json <> chr "{" ->
  json.(p) = ds ++ rest -> ds <> [] -> all_digits ds ->
  isdigit (cur rest) = false ->
  cur rest <> chr "." -> cur rest <> chr "e" -> cur rest <> chr "E" ->
  decimal_value ds <= 2 ^ 64 - 1 ->
  c_json_read_u64 json =
  let '(r, json) := c_json_advance (set_p json rest) in
  if negb (r =? 0) then (r, None, json)
  else (0, Some (decimal_value ds), json).
Proof.
  intros Hp Hs Hq Hne Hds Hr H1 H2 H3 Hv.
  rewrite (read_u64_run json ds rest Hp Hs Hq Hne Hds Hr).
  apply Z.eqb_neq in H1, H2, H3. rewrite H1, H2, H3. simpl orb. cbv iota.
  now rewrite Z.min_l by (unfold ULONG_MAX; lia).
Qed.

Lemma read_u64_value_witness :
  fst (c_json_read_u64 at_leading_zeros) = (0, Some 7).
Proof.
  rewrite (read_u64_value at_leading_zeros (cstr "007") []);
    try reflexivity; try discriminate.
  repeat constructor.
Defined.

(** [strtoul] at a sign in front of a run of digits. *)
Lemma strtoul_signed (sign : Z) (ds rest : list Z) :
  sign = chr "+" \/ sign = chr "-" ->
  ds <> [] -> all_digits ds -> isdigit (cur rest) = false ->
  strtoul (sign :: ds ++ rest) =
  (if ULONG_MAX <? decimal_value ds then ULONG_MAX
   else if sign =? chr "-" then (- decimal_value ds) mod (ULONG_MAX + 1)
   else decimal_value ds, rest).
Proof.
  intros Hsign Hne Hds Hr.
  assert (Hd : isdigit (cur (ds ++ rest)) = true).
  { destruct ds as [|d ds]; [contradiction|]. exact (Forall_inv Hds). }
  unfold strtoul.
  destruct Hsign as [-> | ->]; simpl skip_isspace; simpl cur; simpl orb;
    cbv iota; unfold drop; rewrite Hd, (strtoul_digits_run ds rest Hds Hr 0);
    reflexivity.
Qed.

(** X10.  [c_json_read_u64] takes a plus sign in front of the digits: the
    number is read as without the sign. *)
Theorem read_u64_plus_sign (json : CJson) (ds rest : list Z) :
  json.(poison) = 0 -> cur_state json <> chr "{" ->
  json.(p) = chr "+" :: ds ++ rest -> ds <> [] -> all_digits ds ->
  isdigit (cur rest) = false ->
  cur rest <> chr "." -> cur rest <> chr "e" -> cur rest <> chr "E" ->
  c_json_read_u64 json =
  let '(r, json) := c_json_advance (set_p json rest) in
  if negb (r =? 0) then (r, None, json)
  else (0, Some (Z.min (decimal_value ds) (2 ^ 64 - 1)), json).
Proof.
  intros Hp Hs Hq Hne Hds Hr H1 H2 H3.
  unfold c_json_read_u64. apply Z.eqb_neq in Hs, H1, H2, H3.
  rewrite Hp, Hs, Hq. simpl negb. cbv iota. simpl cur.
  change (chr "+" =? chr "-") with false. cbv iota.
  rewrite (strtoul_signed (chr "+") ds rest (or_introl eq_refl) Hne Hds Hr).
  replace (ptr_eqb rest (chr "+" :: ds ++ rest)) with false
    by (symmetry; apply Nat.eqb_neq; simpl; rewrite length_app; lia).
  rewrite H1, H2, H3. simpl orb. cbv iota.
  change (chr "+" =? chr "-") with false. cbv iota.
  destruct (c_json_advance (set_p json rest)) as [r j].
  destruct (negb (r =? 0)); [reflexivity|].
  destruct (ULONG_MAX <? decimal_value ds) eqn:E.
  - apply Z.ltb_lt in E. now rewrite Z.min_r by (unfold ULONG_MAX in E; lia).
  - apply Z.ltb_ge in E. now rewrite Z.min_l by (unfold ULONG_MAX in E; lia).
Qed.

Lemma read_u64_plus_sign_witness :
  fst (c_json_read_u64 at_plus_five) = (0, Some 5).
Proof.
  rewrite (read_u64_plus_sign at_plus_five (cstr "5") []);
    try reflexivity; try discriminate.
  repeat constructor.
Defined.

(** X11.  The test for a minus sign looks at the character under the
    cursor only.  Behind a vertical tab or a form feed, which
    [skip_space] leaves in place and [strtoul] skips as white space, a
    minus sign reaches [strtoul]: [c_json_read_u64] succeeds and stores
    the negated value, [2 ^ 64] less the value of the digits. *)
Theorem read_u64_minus_behind_tab (json : CJson) (c : Z) (ds rest : list Z) :
  json.(poison) = 0 -> cur_state json <> chr "{" ->
  c = 11 \/ c = 12 ->
  json.(p) = c :: chr "-" :: ds ++ rest -> ds <> [] -> all_digits ds ->
  isdigit (cur rest) = false ->
  cur rest <> chr "." -> cur rest <> chr "e" -> cur rest <> chr "E" ->
  0 < decimal_value ds <= 2 ^ 64 - 1 ->
  fst (c_json_advance (set_p json rest)) = 0 ->
  c_json_read_u64 json =
  (0, Some (2 ^ 64 - decimal_value ds),
   snd (c_json_advance (set_p json rest))).
Proof.
  intros Hp Hs Hc Hq Hne Hds Hr H1 H2 H3 Hv Ha.
  unfold c_json_read_u64. apply Z.eqb_neq in Hs, H1, H2, H3.
  rewrite Hp, Hs, Hq. simpl negb. cbv iota. simpl cur.
  replace (c =? chr "-") with false by (destruct Hc; subst c; reflexivity).
  cbv iota.
  assert (Hst : strtoul (c :: chr "-" :: ds ++ rest) =
                strtoul (chr "-" :: ds ++ rest)).
  { unfold strtoul. simpl skip_isspace.
    replace (isspace c) with true by (destruct Hc; subst c; reflexivity).
    change (isspace (chr "-")) with false. cbv iota. simpl cur. simpl orb.
    cbv iota. unfold drop.
    replace (isdigit (cur (ds ++ rest))) with true; [reflexivity|].
    destruct ds as [|d ds]; [contradiction|]. symmetry. exact (Forall_inv Hds). }
  rewrite Hst, (strtoul_signed (chr "-") ds rest (or_intror eq_refl) Hne Hds Hr).
  replace (ptr_eqb rest (c :: chr "-" :: ds ++ rest)) with false
    by (symmetry; apply Nat.eqb_neq; simpl; rewrite length_app; lia).
  rewrite H1, H2, H3. simpl orb. cbv iota.
  destruct (c_json_advance (set_p json rest)) as [r j]. simpl in Ha. subst r.
  simpl. f_equal. f_equal. f_equal.
  replace (ULONG_MAX <? decimal_value ds) with false
    by (symmetry; apply Z.ltb_ge; unfold ULONG_MAX; lia).
  unfold ULONG_MAX.
  replace (- decimal_value ds) with ((2 ^ 64 - decimal_value ds) + (-1) * 2 ^ 64)
    by lia.
  change (2 ^ 64 - 1 + 1) with (2 ^ 64).
  rewrite Z.mod_add by lia. apply Z.mod_small. lia.
Qed.

Lemma read_u64_minus_behind_tab_witness :
  fst (c_json_read_u64 at_tab_minus_five) = (0, Some 18446744073709551611).
Proof.
  rewrite (read_u64_minus_behind_tab at_tab_minus_five 11 (cstr "5") []);
    try reflexivity; try discriminate.
  - left. reflexivity.
  - repeat constructor.
  - split; [reflexivity | discriminate].
Defined.

(** X12.  When the character under the cursor is not a digit, a plus
    sign or white space of [strtoul] (the end of the input, a letter, a
    quote, a bracket, a minus sign) [c_json_read_u64] fails with
    [C_JSON_E_INVALID_TYPE], which it records; the cursor stays. *)
Theorem read_u64_not_a_number (json : CJson) :
  json.(poison) = 0 ->
  isdigit (cur json.(p)) = false -> isspace (cur json.(p)) = false ->
  cur json.(p) <> chr "+" ->
  c_json_read_u64 json =
  (C_JSON_E_INVALID_TYPE, None, set_poison json C_JSON_E_INVALID_TYPE).
Proof.
  intros Hp Hd Hsp Hpl. unfold c_json_read_u64. rewrite Hp. simpl negb.
  cbv iota.
  destruct (cur_state json =? chr "{"); [reflexivity|].
  destruct (cur json.(p) =? chr "-") eqn:Hm; [reflexivity|].
  assert (Hst : strtoul json.(p) = (0, json.(p))).
  { unfold strtoul.
    assert (Hsk : skip_isspace json.(p) = json.(p)).
    { destruct json.(p) as [|c q]; [reflexivity|]. simpl in *. now rewrite Hsp. }
    rewrite Hsk, Hm. apply Z.eqb_neq in Hpl. rewrite Hpl. simpl orb.
    cbv iota. now rewrite Hd. }
  rewrite Hst. unfold ptr_eqb. now rewrite Nat.eqb_refl.
Qed.

Lemma read_u64_not_a_number_witness :
  c_json_read_u64 at_null =
  (C_JSON_E_INVALID_TYPE, None, set_poison at_null C_JSON_E_INVALID_TYPE).
Proof.
  apply (read_u64_not_a_number at_null); try reflexivity. discriminate.
Defined.

(** ** Literals *)

Lemma strncmp_eq_prefix lit :
  forall q, strncmp_eq q lit = true <-> exists rest, q = lit ++ rest.
Proof.
  induction lit as [|c lit IH]; intros q; simpl.
  - split; [intros _; now exists q | now destruct q].
  - destruct q as [|d q].
    + split; [discriminate | intros [rest E]; discriminate E].
    + change (strncmp_eq (d :: q) (c :: lit))
        with ((d =? c) && strncmp_eq q lit).
      rewrite andb_true_iff, Z.eqb_eq, IH. split.
      * intros [-> [rest ->]]. now exists rest.
      * intros [rest [= -> ->]]. split; [reflexivity | now exists rest].
Qed.

Lemma drop_lit (lit rest : list Z) : drop (length lit) (lit ++ rest) = rest.
Proof. apply drop_app_length. Qed.

(** X13.  Away from an object key and unpoisoned, [c_json_read_null]
    takes the four characters [null] and advances from behind them,
    whatever follows; text that starts with [n] but is not [null] is
    [C_JSON_E_INVALID_JSON]; any other first character, the end of the
    input included, is [C_JSON_E_INVALID_TYPE]. *)
Theorem read_null_cases (json : CJson) :
  json.(poison) = 0 -> cur_state json <> chr "{" ->
  (forall rest, json.(p) = cstr "null" ++ rest ->
   c_json_read_null json = c_json_advance (set_p json rest)) /\
  (cur json.(p) = chr "n" ->
   (forall rest, json.(p) <> cstr "null" ++ rest) ->
   c_json_read_null json = fail json C_JSON_E_INVALID_JSON) /\
  (cur json.(p) <> chr "n" ->
   c_json_read_null json = fail json C_JSON_E_INVALID_TYPE).
Proof.
  intros Hp Hs. apply Z.eqb_neq in Hs.
  unfold c_json_read_null. rewrite Hp, Hs. simpl negb. cbv iota.
  split; [|split].
  - intros rest Hq.
    assert (Hc : strncmp_eq json.(p) (cstr "null") = true)
      by (apply strncmp_eq_prefix; now exists rest).
    rewrite Hc. rewrite Hq at 1. simpl cur. simpl negb. cbv iota.
    rewrite Hq. now rewrite drop_lit.
  - intros Hc Hn. rewrite Hc. simpl negb.
    destruct (strncmp_eq json.(p) (cstr "null")) eqn:E; [|reflexivity].
    apply strncmp_eq_prefix in E as [rest E]. now destruct (Hn rest).
  - intros Hc. apply Z.eqb_neq in Hc. now rewrite Hc.
Qed.

Lemma read_null_cases_witness : fst (c_json_read_null at_null) = 0.
Proof.
  assert (Hs : cur_state at_null <> chr "{") by discriminate.
  destruct (read_null_cases at_null eq_refl Hs) as [H _].
  rewrite (H [] eq_refl). reflexivity.
Defined.

(** X14.  Away from an object key and unpoisoned, [c_json_read_bool]
    takes the characters [true] or [false] and advances from behind
    them; when that succeeds it stores the boolean the word names, and
    otherwise returns the error of the advance and stores nothing.  Text
    that starts with [t] or [f] but is neither word is
    [C_JSON_E_INVALID_JSON]; any other first character is
    [C_JSON_E_INVALID_TYPE]. *)
Theorem read_bool_cases (json : CJson) :
  json.(poison) = 0 -> cur_state json <> chr "{" ->
  (forall (b : bool) rest,
   json.(p) = cstr (if b then "true" else "false") ++ rest ->
   c_json_read_bool json =
   let '(r, json) := c_json_advance (set_p json rest) in
   if negb (r =? 0) then (r, None, json) else (0, Some b, json)) /\
  (cur json.(p) = chr "t" \/ cur json.(p) = chr "f" ->
   (forall rest, json.(p) <> cstr "true" ++ rest) ->
   (forall rest, json.(p) <> cstr "false" ++ rest) ->
   c_json_read_bool json =
   (C_JSON_E_INVALID_JSON, None, set_poison json C_JSON_E_INVALID_JSON)) /\
  (cur json.(p) <> chr "t" -> cur json.(p) <> chr "f" ->
   c_json_read_bool json =
   (C_JSON_E_INVALID_TYPE, None, set_poison json C_JSON_E_INVALID_TYPE)).
Proof.
  intros Hp Hs. apply Z.eqb_neq in Hs.
  unfold c_json_read_bool. rewrite Hp, Hs. simpl negb. cbv iota.
  split; [|split].
  - intros b rest Hq.
    assert (Hc : strncmp_eq json.(p) (cstr (if b then "true" else "false"))
                 = true)
      by (apply strncmp_eq_prefix; now exists rest).
    destruct b; rewrite Hq at 1; simpl cur.
    + change (chr "t" =? chr "t") with true. cbv iota.
      rewrite Hc. simpl negb. cbv iota. rewrite Hq. now rewrite drop_lit.
    + change (chr "f" =? chr "t") with false.
      change (chr "f" =? chr "f") with true. cbv iota.
      rewrite Hc. simpl negb. cbv iota. rewrite Hq. now rewrite drop_lit.
  - intros Hc Ht Hf.
    assert (Et : strncmp_eq json.(p) (cstr "true") = false).
    { destruct (strncmp_eq json.(p) (cstr "true")) eqn:E; [|reflexivity].
      apply strncmp_eq_prefix in E as [rest E]. now destruct (Ht rest). }
    assert (Ef : strncmp_eq json.(p) (cstr "false") = false).
    { destruct (strncmp_eq json.(p) (cstr "false")) eqn:E; [|reflexivity].
      apply strncmp_eq_prefix in E as [rest E]. now destruct (Hf rest). }
    rewrite Et, Ef. destruct Hc as [-> | ->]; reflexivity.
  - intros Ht Hf. apply Z.eqb_neq in Ht, Hf. now rewrite Ht, Hf.
Qed.

Lemma read_bool_cases_witness :
  fst (c_json_read_bool at_true) = (0, Some true).
Proof.
  assert (Hs : cur_state at_true <> chr "{") by discriminate.
  destruct (read_bool_cases at_true eq_refl Hs) as [H _].
  rewrite (H true [] eq_refl). reflexivity.
Defined.

(** ** Arrays of numbers *)

Lemma run_cons strtod_end o ops json :
  fst (run strtod_end (o :: ops) json) =
  fst (exec strtod_end o json)
  :: fst (run strtod_end ops (snd (exec strtod_end o json))).
Proof.
  cbn [run]. destruct (exec strtod_end o json) as [r j].
  cbn [fst snd]. now destruct (run strtod_end ops j).
Qed.

Lemma digit_facts c :
  isdigit c = true ->
  is_space c = false /\ c <> 0 /\ c <> chr "]" /\ c <> chr "-" /\
  c <> chr "." /\ c <> chr "e" /\ c <> chr "E".
Proof.
  unfold isdigit, is_space. intros H. apply in_range_true_in in H.
  revert H. chr_eval. intros H.
  repeat split; lia.
Qed.

Lemma digit_run_cur ds rest :
  digit_run ds -> isdigit (cur (ds ++ rest)) = true.
Proof.
  intros [Hne Hds]. destruct ds as [|d ds]; [contradiction|].
  exact (Forall_inv Hds).
Qed.

(** The text of the elements that are left, up to the closing bracket,
    starts with a digit or with the bracket: no white space to skip. *)
Lemma elements_no_space items rest :
  Forall digit_run items ->
  skip_space (comma_separated items ++ chr "]" :: rest) =
  comma_separated items ++ chr "]" :: rest.
Proof.
  intros H. apply skip_space_id.
  destruct H as [|ds items Hd _]; [reflexivity|].
  assert (E : exists tail, comma_separated (ds :: items) ++ chr "]" :: rest
                           = ds ++ tail).
  { destruct items; simpl; [eauto | rewrite <- app_assoc; eauto]. }
  destruct E as [tail ->].
  apply (digit_facts _ (digit_run_cur ds tail Hd)).
Qed.


(** Reading an element that a comma follows, and one that the closing
    bracket follows. *)
Lemma read_u64_element inp d st tl ds rest :
  st = chr "[" \/ st = chr "," -> digit_run ds ->
  c_json_read_u64 (in_level_one inp (ds ++ chr "," :: rest) d st tl) =
  (0, Some (Z.min (decimal_value ds) ULONG_MAX),
   in_level_one inp (skip_space rest) d (chr ",") tl) /\
  c_json_read_u64 (in_level_one inp (ds ++ chr "]" :: rest) d st tl) =
  (0, Some (Z.min (decimal_value ds) ULONG_MAX),
   in_level_one inp (chr "]" :: rest) d (chr "[") tl).
Proof.
  intros Hst [Hne Hds].
  assert (Hs : forall q, cur_state (in_level_one inp q d st tl) <> chr "{")
    by (intros q; destruct Hst as [-> | ->]; discriminate).
  split.
  - rewrite (read_u64_run (in_level_one inp (ds ++ chr "," :: rest) d st tl)
               ds (chr "," :: rest) eq_refl (Hs _) eq_refl Hne Hds eq_refl).
    destruct Hst as [-> | ->]; reflexivity.
  - rewrite (read_u64_run (in_level_one inp (ds ++ chr "]" :: rest) d st tl)
               ds (chr "]" :: rest) eq_refl (Hs _) eq_refl Hne Hds eq_refl).
    destruct Hst as [-> | ->]; reflexivity.
Qed.

Lemma more_at_element inp d st tl ds rest :
  st = chr "[" \/ st = chr "," -> digit_run ds ->
  c_json_more (in_level_one inp (ds ++ rest) d st tl) =
  (true, in_level_one inp (ds ++ rest) d st tl).
Proof.
  intros Hst Hd. pose proof (digit_facts _ (digit_run_cur ds rest Hd)) as
    (_ & H0 & Hb & _).
  unfold c_json_more. simpl negb. cbv iota.
  change (p (in_level_one inp (ds ++ rest) d st tl)) with (ds ++ rest).
  apply Z.eqb_neq in H0, Hb. rewrite H0.
  change (cur_state (in_level_one inp (ds ++ rest) d st tl)) with st.
  destruct Hst as [-> | ->]; [|reflexivity].
  change (chr "[" =? chr "[") with true. cbv iota. now rewrite Hb.
Qed.

(** The calls for the elements, from inside the array. *)
Lemma elements_read strtod_end inp d tl items :
  forall st,
  st = chr "[" \/ (st = chr "," /\ items <> []) ->
  Forall digit_run items ->
  fst (run strtod_end (element_calls (length items))
         (in_level_one inp (comma_separated items ++ [chr "]"]) d st tl)) =
  element_results items.
Proof.
  induction items as [|ds items IH]; intros st Hst Hall.
  - destruct Hst as [-> | [_ H]]; [|contradiction]. reflexivity.
  - pose proof (Forall_inv Hall) as Hd.
    pose proof (Forall_inv_tail Hall) as Hall'.
    assert (Hst' : st = chr "[" \/ st = chr ",") by tauto.
    cbn [length element_calls element_results].
    assert (E : exists tail,
              comma_separated (ds :: items) ++ [chr "]"] = ds ++ tail /\
              ((items = [] /\ tail = [chr "]"]) \/
               (items <> [] /\
                tail = chr "," :: comma_separated items ++ [chr "]"]))).
    { destruct items as [|ds' items].
      - exists [chr "]"]. split; [reflexivity | now left].
      - eexists. split; [|right; split; [discriminate | reflexivity]].
        change (comma_separated (ds :: ds' :: items))
          with (ds ++ chr "," :: comma_separated (ds' :: items)).
        now rewrite <- app_assoc. }
    destruct E as (tail & -> & Htail).
    rewrite run_cons. unfold exec at 1 2.
    rewrite (more_at_element inp d st tl ds tail Hst' Hd). cbn [fst snd].
    f_equal. rewrite run_cons. unfold exec at 1 2.
    destruct (read_u64_element inp d st tl ds) with (rest := @nil Z)
      as [_ Hclose]; [assumption ..|].
    destruct Htail as [[-> ->] | [Hne ->]].
    + rewrite Hclose. cbn [fst snd].
      f_equal; exact (IH (chr "[") (or_introl eq_refl) Hall').
    + destruct (read_u64_element inp d st tl ds
                  (comma_separated items ++ [chr "]"]) Hst' Hd) as [Hcomma _].
      rewrite Hcomma. cbn [fst snd]. f_equal.
      rewrite (elements_no_space items [] Hall').
      apply (IH (chr ",")); [right; now split | assumption].
Qed.

(** X15.  An array of unsigned integers is read element by element.  On
    the text of an array whose elements are runs of digits, in a reader
    of depth at least one, [c_json_open_array] succeeds; before each
    element [c_json_more] is true and [c_json_read_u64] stores the value
    of the element (cut at [2 ^ 64 - 1]); behind the last element
    [c_json_more] is false, and [c_json_close_array] and
    [c_json_end_read] succeed.  The empty array is included. *)
Theorem number_array_read (strtod_end : list Z -> list Z) (max_depth : Z)
    (items : list (list Z)) :
  1 <= max_depth ->
  Forall digit_run items ->
  fst (run strtod_end (number_array_calls (length items))
         (c_json_begin_read (c_json_new max_depth) (array_text items))) =
  number_array_results items.
Proof.
  intros Hd Hall. unfold number_array_calls, number_array_results, c_json_new.
  set (k := Z.to_nat (calloc_size max_depth - sizeof_CJson)).
  destruct (store_level_one k (chr "[")) as [tl Htl].
  rewrite run_cons. unfold exec at 1 2.
  set (json := c_json_begin_read _ _).
  assert (Hroot : cur_state json <> chr "{").
  { change (cur_state json) with (load_state 0 (replicate k 0)).
    rewrite load_replicate_zero. discriminate. }
  assert (Hopen : c_json_open_array json =
                  (0, in_level_one (Some (array_text items))
                        (comma_separated items ++ [chr "]"])
                        max_depth (chr "[") tl)).
  { rewrite (open_array_at_bracket json eq_refl Hroot); [|reflexivity].
    change (json.(n_states) <=? json.(level)) with (max_depth <=? 0).
    replace (max_depth <=? 0) with false by (symmetry; apply Z.leb_gt; lia).
    unfold set_cur_state.
    change (store_state _ _ _) with (store_state 1 (chr "[") (replicate k 0)).
    rewrite Htl.
    unfold in_level_one, set_level, set_p, set_states. simpl.
    unfold drop. now rewrite (elements_no_space items [] Hall). }
  rewrite Hopen. cbn [fst snd]. f_equal.
  apply elements_read; [now left | assumption].
Qed.

Lemma number_array_read_witness :
  fst (run (fun q => q) (number_array_calls 3)
         (c_json_begin_read (c_json_new 1) (cstr "[1,20,300]"))) =
  [RInt 0; RMore true; RU64 0 (Some 1); RMore true; RU64 0 (Some 20);
   RMore true; RU64 0 (Some 300); RMore false; RInt 0; RInt 0].
Proof.
  assert (Hd : 1 <= 1) by lia.
  assert (Hall : Forall digit_run [cstr "1"; cstr "20"; cstr "300"]).
  { repeat constructor; discriminate. }
  exact (number_array_read (fun q => q) 1
           [cstr "1"; cstr "20"; cstr "300"] Hd Hall).
Defined.

(** ** Objects with numbers as values *)

(** [c_json_read_string] at a content between quotes. *)
Lemma read_string_at_content json s out tail :
  json.(poison) = 0 ->
  json.(p) = dquote ++ s ++ dquote ++ tail ->
  string_content s out ->
  c_json_read_string json =
  let '(r, json) := c_json_advance (set_p json tail) in
  if negb (r =? 0) then (r, None, json) else (0, Some (c_string out), json).
Proof.
  intros Hp Hq Hs.
  assert (Hscan : string_scan (s ++ dquote ++ tail) [] =
                  Some (0, dquote ++ tail, out)).
  { rewrite (string_scan_turns _ _ _ _ (content_turns s out Hs _ [])).
    now rewrite string_scan_break. }
  rewrite (read_string_scan json _ _ _ _ Hp Hq Hscan). reflexivity.
Qed.

Lemma member_starts_with_quote m rest :
  exists tail, member_text m ++ rest = chr "034" :: tail.
Proof. unfold member_text. simpl. eauto. Qed.

(** The text of the members that are left, up to the closing brace,
    starts with a quote or with the brace. *)
Lemma members_start ms rest :
  let q := comma_separated (map member_text ms) ++ chr "}" :: rest in
  skip_space q = q /\
  ((ms = [] /\ cur q = chr "}") \/ (ms <> [] /\ cur q = chr "034")).
Proof.
  destruct ms as [|m ms]; cbv zeta.
  - split; [reflexivity | now left].
  - assert (E : exists tail,
              comma_separated (map member_text (m :: ms)) ++ chr "}" :: rest =
              chr "034" :: tail).
    { destruct ms; simpl; eauto. }
    destruct E as [tail ->]. split; [reflexivity | right; split; [discriminate | reflexivity]].
Qed.

(** Reading the key of a member. *)
Lemma read_key inp d tl m rest :
  member_ok m ->
  c_json_read_string (in_level_one inp (member_text m ++ rest) d (chr "{") tl) =
  (0, Some (c_string m.(key_bytes)),
   in_level_one inp (m.(value_digits) ++ rest) d (chr ":") tl).
Proof.
  intros [Hk Hd].
  rewrite (read_string_at_content
             (in_level_one inp (member_text m ++ rest) d (chr "{") tl)
             m.(key_text) m.(key_bytes)
             (chr ":" :: m.(value_digits) ++ rest) eq_refl); [|
    unfold member_text; simpl; now rewrite <- !app_assoc | assumption].
  unfold c_json_advance. simpl.
  unfold in_level_one, set_p, set_cur_state, set_states. simpl. unfold drop.
  rewrite skip_space_id; [reflexivity|].
  apply (digit_facts _ (digit_run_cur _ rest Hd)).
Qed.

(** Reading the value of a member that a comma and a further member
    follow, and of one that the closing brace follows. *)
Lemma read_value inp d tl ds next rest :
  digit_run ds ->
  c_json_read_u64
    (in_level_one inp (ds ++ chr "," :: chr "034" :: next) d (chr ":") tl) =
  (0, Some (Z.min (decimal_value ds) ULONG_MAX),
   in_level_one inp (chr "034" :: next) d (chr "{") tl) /\
  c_json_read_u64 (in_level_one inp (ds ++ chr "}" :: rest) d (chr ":") tl) =
  (0, Some (Z.min (decimal_value ds) ULONG_MAX),
   in_level_one inp (chr "}" :: rest) d (chr ":") tl).
Proof.
  intros [Hne Hds]. split.
  - rewrite (read_u64_run
               (in_level_one inp (ds ++ chr "," :: chr "034" :: next) d
                  (chr ":") tl)
               ds (chr "," :: chr "034" :: next) eq_refl); try assumption;
      try reflexivity; discriminate.
  - rewrite (read_u64_run
               (in_level_one inp (ds ++ chr "}" :: rest) d (chr ":") tl)
               ds (chr "}" :: rest) eq_refl); try assumption;
      try reflexivity; discriminate.
Qed.

(** The calls for the members, from inside the object. *)
Lemma members_read strtod_end inp d tl ms :
  forall st,
  st = chr "{" \/ (st = chr ":" /\ ms = []) ->
  Forall member_ok ms ->
  fst (run strtod_end (member_calls (length ms))
         (in_level_one inp (comma_separated (map member_text ms) ++ [chr "}"])
            d st tl)) =
  member_results ms.
Proof.
  induction ms as [|m ms IH]; intros st Hst Hall.
  - destruct Hst as [-> | [-> _]]; reflexivity.
  - destruct Hst as [-> | [_ H]]; [|discriminate].
    pose proof (Forall_inv Hall) as Hm.
    pose proof (Forall_inv_tail Hall) as Hall'.
    cbn [length member_calls member_results].
    assert (E : exists tail,
              comma_separated (map member_text (m :: ms)) ++ [chr "}"] =
              member_text m ++ tail /\
              ((ms = [] /\ tail = [chr "}"]) \/
               (ms <> [] /\
                tail = chr "," ::
                       comma_separated (map member_text ms) ++ [chr "}"]))).
    { destruct ms as [|m' ms].
      - exists [chr "}"]. split; [reflexivity | now left].
      - eexists. split; [|right; split; [discriminate | reflexivity]].
        change (comma_separated (map member_text (m :: m' :: ms)))
          with (member_text m ++
                chr "," :: comma_separated (map member_text (m' :: ms))).
        now rewrite <- app_assoc. }
    destruct E as (tail & -> & Htail).
    rewrite run_cons. unfold exec at 1 2.
    destruct (member_starts_with_quote m tail) as [q Hq].
    assert (Hmore : c_json_more
                      (in_level_one inp (member_text m ++ tail) d (chr "{") tl)
                    = (true, in_level_one inp (member_text m ++ tail) d
                               (chr "{") tl))
      by (rewrite Hq; reflexivity).
    rewrite Hmore. cbn [fst snd]. f_equal.
    rewrite run_cons. unfold exec at 1 2.
    rewrite (read_key inp d tl m tail Hm). cbn [fst snd]. f_equal.
    rewrite run_cons. unfold exec at 1 2.
    destruct Hm as [_ Hd].
    destruct Htail as [[-> ->] | [Hne ->]].
    + destruct (read_value inp d tl m.(value_digits) [] [] Hd) as [_ Hv].
      rewrite Hv. cbn [fst snd].
      f_equal; exact (IH (chr ":") (or_intror (conj eq_refl eq_refl)) Hall').
    + destruct (members_start ms []) as [_ [[H _] | [_ Hc]]]; [contradiction|].
      destruct (cur_cons _ _ Hc) as [next Hnext]; [discriminate|].
      rewrite Hnext.
      destruct (read_value inp d tl m.(value_digits) next [] Hd) as [Hv _].
      rewrite Hv. cbn [fst snd]. rewrite <- Hnext.
      f_equal. apply (IH (chr "{")); [now left | assumption].
Qed.

(** X16.  An object whose values are unsigned integers is read member by
    member.  On the text of such an object, with keys that are
    well-formed strings, in a reader of depth at least one,
    [c_json_open_object] succeeds; before each member [c_json_more] is
    true, [c_json_read_string] stores the key as a [char *], whose
    string is the bytes of the key in front of the first zero byte (all
    of them for a key without an escaped NUL), and [c_json_read_u64]
    stores the value; behind the last member [c_json_more] is false, and
    [c_json_close_object] and [c_json_end_read] succeed.  The empty
    object is included. *)
Theorem number_object_read (strtod_end : list Z -> list Z) (max_depth : Z)
    (ms : list member) :
  1 <= max_depth ->
  Forall member_ok ms ->
  fst (run strtod_end (number_object_calls (length ms))
         (c_json_begin_read (c_json_new max_depth) (object_text ms))) =
  number_object_results ms.
Proof.
  intros Hd Hall. unfold number_object_calls, number_object_results, c_json_new.
  set (k := Z.to_nat (calloc_size max_depth - sizeof_CJson)).
  destruct (store_level_one k (chr "{")) as [tl Htl].
  rewrite run_cons. unfold exec at 1 2.
  set (json := c_json_begin_read _ _).
  assert (Hroot : cur_state json <> chr "{").
  { change (cur_state json) with (load_state 0 (replicate k 0)).
    rewrite load_replicate_zero. discriminate. }
  destruct (members_start ms []) as [Hsk Hcur]. cbv zeta in Hsk, Hcur.
  assert (Hopen : c_json_open_object json =
                  (0, in_level_one (Some (object_text ms))
                        (comma_separated (map member_text ms) ++ [chr "}"])
                        max_depth (chr "{") tl)).
  { rewrite (open_object_at_brace json eq_refl Hroot); [|reflexivity].
    change (json.(n_states) <=? json.(level)) with (max_depth <=? 0).
    replace (max_depth <=? 0) with false by (symmetry; apply Z.leb_gt; lia).
    cbv zeta.
    change (p (set_p json (skip_space (drop 1 json.(p)))))
      with (skip_space (comma_separated (map member_text ms) ++ [chr "}"])).
    rewrite Hsk.
    replace (negb (cur (comma_separated (map member_text ms) ++ [chr "}"])
                   =? chr "034")
             && negb (cur (comma_separated (map member_text ms) ++ [chr "}"])
                      =? chr "}")) with false
      by (destruct Hcur as [[_ ->] | [_ ->]]; reflexivity).
    cbv iota. unfold set_cur_state.
    change (store_state _ _ _) with (store_state 1 (chr "{") (replicate k 0)).
    rewrite Htl.
    unfold in_level_one, set_level, set_p, set_states. simpl.
    unfold drop. now rewrite Hsk. }
  rewrite Hopen. cbn [fst snd]. f_equal.
  apply members_read; [now left | assumption].
Qed.

Lemma number_object_read_witness :
  fst (run (fun q => q) (number_object_calls 2)
         (c_json_begin_read (c_json_new 1) (object_text two_members))) =
  [RInt 0; RMore true; RString 0 (Some (cstr "a")); RU64 0 (Some 1);
   RMore true; RString 0 (Some (cstr "b")); RU64 0 (Some 22);
   RMore false; RInt 0; RInt 0] /\
  fst (run (fun q => q) (number_object_calls 1)
         (c_json_begin_read (c_json_new 1) (object_text nul_key_member))) =
  [RInt 0; RMore true; RString 0 (Some (cstr "a")); RU64 0 (Some 3);
   RMore false; RInt 0; RInt 0].
Proof.
  assert (Hd : 1 <= 1) by lia.
  assert (Hall : Forall member_ok two_members).
  { repeat constructor; simpl; try discriminate;
      apply content_plain; try reflexivity; apply content_end. }
  assert (Hnul : Forall member_ok nul_key_member).
  { constructor; [|constructor].
    split; [|split; [discriminate | repeat constructor]].
    apply content_plain; [reflexivity|].
    apply (content_unit (cstr "0000") 0 _ [98]);
      [reflexivity | reflexivity | lia |].
    apply content_plain; [reflexivity|]. apply content_end. }
  split.
  - exact (number_object_read (fun q => q) 1 two_members Hd Hall).
  - exact (number_object_read (fun q => q) 1 nul_key_member Hd Hnul).
Defined.

(** ** The cursor *)

Lemma at_token_poisoned json e : e <> 0 -> at_token (set_poison json e).
Proof. intros H. now left. Qed.

Lemma at_token_skipped json q : at_token (set_p json (skip_space q)).
Proof. right. apply skip_space_stops. Qed.

Lemma advance_at_token json : at_token (snd (c_json_advance json)).
Proof.
  unfold c_json_advance, fail.
  destruct (json.(poison) =? 0) eqn:E; simpl;
    [|left; now apply Z.eqb_neq in E].
  repeat split_if; simpl;
    first [ left; simpl; discriminate | right; simpl; apply skip_space_stops ].
Qed.

Ltac token_after_advance :=
  match goal with
  | |- context [c_json_advance ?x] =>
    let Ha := fresh "Ha" in
    pose proof (advance_at_token x) as Ha;
    destruct (c_json_advance x) as [? ?]; simpl in Ha;
    repeat split_if; simpl; exact Ha
  end.

Ltac token_cases :=
  repeat split_if; simpl;
  first [ assumption
        | left; simpl; discriminate
        | right; simpl; apply skip_space_stops
        | apply advance_at_token
        | token_after_advance ].

Lemma exec_at_token strtod_end o json :
  at_token json -> at_token (snd (exec strtod_end o json)).
Proof.
  intros H. destruct H as [Hp | Hs].
  { left. now apply exec_keeps_poisoned. }
  destruct o; unfold exec.
  - right. simpl. apply skip_space_stops.
  - unfold c_json_end_read. simpl.
    destruct (json.(poison) =? 0) eqn:E;
      [right; reflexivity | left; now apply Z.eqb_neq in E].
  - unfold c_json_peek. repeat split_if; simpl; now right.
  - unfold c_json_more. repeat split_if; simpl; now right.
  - unfold c_json_read_null, fail.
    assert (H0 : at_token json) by now right. token_cases.
  - unfold c_json_read_string.
    assert (H0 : at_token json) by now right.
    destruct (negb (json.(poison) =? 0)); simpl; [assumption|].
    destruct (negb (cur json.(p) =? chr "034")); simpl;
      [left; simpl; discriminate|].
    destruct (string_scan (drop 1 json.(p)) []) as [[[r q] out]|] eqn:Es.
    + simpl. destruct (r =? 0) eqn:E; simpl.
      * token_after_advance.
      * left. simpl. now apply Z.eqb_neq in E.
    + destruct (string_scan_total (drop 1 json.(p)) []) as [? Hs'].
      congruence.
  - unfold c_json_read_u64.
    assert (H0 : at_token json) by now right.
    destruct (strtoul json.(p)) as [number endp]. token_cases.
  - unfold c_json_read_f64, fail.
    assert (H0 : at_token json) by now right. token_cases.
  - unfold c_json_read_bool.
    assert (H0 : at_token json) by now right. token_cases.
  - unfold c_json_open_array, fail.
    assert (H0 : at_token json) by now right. token_cases.
  - unfold c_json_close_array, fail.
    assert (H0 : at_token json) by now right. token_cases.
  - unfold c_json_open_object, fail.
    assert (H0 : at_token json) by now right. token_cases.
  - unfold c_json_close_object, fail.
    assert (H0 : at_token json) by now right. token_cases.
Qed.

(** X17.  The cursor of an unpoisoned reader always points to the start
    of a token: in every state that calls can reach, it is not at a
    space, a tab, a line feed or a carriage return. *)
Theorem cursor_at_token (strtod_end : list Z -> list Z) (max_depth : Z)
    (json : CJson) :
  reachable strtod_end max_depth json ->
  json.(poison) = 0 ->
  is_space (cur json.(p)) = false.
Proof.
  intros Hr Hp.
  assert (H : at_token json).
  { clear Hp. induction Hr as [|o json Hr IH Hc].
    - now right.
    - now apply exec_at_token. }
  destruct H as [H|H]; [contradiction | assumption].
Qed.

Lemma cursor_at_token_witness :
  is_space (cur behind_spaced_number.(p)) = false.
Proof.
  apply (cursor_at_token (fun q => q) 1 behind_spaced_number).
  - apply (reachable_exec (fun q => q) 1 OpReadU64).
    + apply (reachable_exec (fun q => q) 1 OpOpenArray).
      * apply (reachable_exec (fun q => q) 1 (OpBeginRead (cstr "  [ 1 , 2 ]"))).
        -- apply reachable_new.
        -- reflexivity.
      * left. discriminate.
    + left. discriminate.
  - reflexivity.
Defined.

(** ** Every successful call consumes input *)

Lemma advance_length json :
  (length (snd (c_json_advance json)).(p) <= length json.(p))%nat.
Proof.
  pose proof (skip_space_suffix json.(p)) as H1.
  pose proof (skip_space_suffix (drop 1 (skip_space json.(p)))) as H2.
  rewrite length_drop in H2.
  unfold c_json_advance, fail.
  repeat split_if; simpl; lia.
Qed.

Lemma skip_isspace_length q : (length (skip_isspace q) <= length q)%nat.
Proof.
  induction q as [|c q IH]; simpl; [lia|].
  destruct (isspace c); simpl; lia.
Qed.

Lemma strtoul_digits_length q :
  forall acc, (length (snd (strtoul_digits q acc)) <= length q)%nat.
Proof.
  induction q as [|c q IH]; intros acc; simpl; [lia|].
  destruct (isdigit c); simpl; [|lia].
  specialize (IH (10 * acc + (c - chr "0"))). lia.
Qed.

(** The end that [strtoul] leaves is not in front of its start. *)
Lemma strtoul_length q : (length (snd (strtoul q)) <= length q)%nat.
Proof.
  unfold strtoul.
  pose proof (skip_isspace_length q) as H1.
  set (q1 := skip_isspace q) in *.
  set (q2 := if (cur q1 =? chr "-") || (cur q1 =? chr "+")
             then drop 1 q1 else q1).
  assert (H2 : (length q2 <= length q1)%nat)
    by (unfold q2; destruct (_ || _); rewrite ?length_drop; lia).
  destruct (isdigit (cur q2)); [|simpl; lia].
  pose proof (strtoul_digits_length q2 0) as H3.
  destruct (strtoul_digits q2 0) as [v e]. simpl in *. lia.
Qed.

Lemma ptr_neq_shorter (a b : list Z) :
  ptr_eqb a b = false -> (length a <= length b)%nat ->
  (length a < length b)%nat.
Proof. unfold ptr_eqb. intros H. apply Nat.eqb_neq in H. lia. Qed.

Lemma cur_nonempty q c : cur q = c -> c <> 0 -> (0 < length q)%nat.
Proof. intros H Hc. destruct (cur_cons q c H Hc) as [q' ->]. simpl. lia. Qed.

(** The loop of the string reader ends at a quote that is not in front
    of its start. *)
Lemma loop_break_length fuel :
  forall q out q' out',
  string_loop fuel q out = Some (0, q', out') ->
  (0 < length q' <= length q)%nat.
Proof.
  induction fuel as [|fuel IH]; intros q out q' out' H; [discriminate|].
  simpl in H. pose proof (turn_outcome q out) as Ho.
  destruct (string_turn q out) as [|r q1|q1 out1] eqn:E.
  - injection H as <- <-. split; [|lia].
    apply (cur_nonempty q (chr "034")); [assumption | discriminate].
  - injection H as -> _ _. discriminate.
  - apply string_turn_progress in E. specialize (IH _ _ _ _ H). lia.
Qed.

(** Opens the cases of a reader on an unpoisoned state and drops those
    in which it does not return [0]. *)
Ltac success_cases :=
  repeat split_if; simpl; try discriminate.

(** Names the outcome of the call of [c_json_advance] in the goal and
    records that the cursor is not moved back. *)
Ltac length_after_advance :=
  match goal with
  | |- context [c_json_advance ?x] =>
    let Ha := fresh "Ha" in
    pose proof (advance_length x) as Ha; simpl in Ha;
    destruct (c_json_advance x) as [? ?]; simpl in Ha |- *
  end.

Lemma drop_shorter (q : list Z) (k : nat) :
  (0 < length q)%nat -> (0 < k)%nat -> (length (drop k q) < length q)%nat.
Proof. intros. rewrite length_drop. lia. Qed.

Ltac cursor_nonempty :=
  match goal with
  | H : (cur ?q =? ?c) = true |- _ =>
    let Hn := fresh "Hn" in
    assert (Hn : (0 < length q)%nat)
      by (apply Z.eqb_eq in H; apply (cur_nonempty q c H); discriminate)
  | H : negb (cur ?q =? ?c) = false |- _ =>
    apply negb_false_iff in H; cursor_nonempty
  end.

Lemma read_null_consumes json :
  json.(poison) = 0 -> fst (c_json_read_null json) = 0 ->
  (length (snd (c_json_read_null json)).(p) < length json.(p))%nat.
Proof.
  intros Hp. unfold c_json_read_null, fail. rewrite Hp. simpl negb.
  success_cases. intros _. cursor_nonempty.
  pose proof (drop_shorter json.(p) 4 Hn). length_after_advance. lia.
Qed.

Lemma read_bool_consumes json :
  json.(poison) = 0 -> fst (fst (c_json_read_bool json)) = 0 ->
  (length (snd (c_json_read_bool json)).(p) < length json.(p))%nat.
Proof.
  intros Hp. unfold c_json_read_bool. rewrite Hp. simpl negb.
  success_cases; cursor_nonempty.
  - pose proof (drop_shorter json.(p) 4 Hn). length_after_advance.
    success_cases; intros; lia.
  - pose proof (drop_shorter json.(p) 5 Hn). length_after_advance.
    success_cases; intros; lia.
Qed.

Lemma read_u64_consumes json :
  json.(poison) = 0 -> fst (fst (c_json_read_u64 json)) = 0 ->
  (length (snd (c_json_read_u64 json)).(p) < length json.(p))%nat.
Proof.
  intros Hp. unfold c_json_read_u64. rewrite Hp. simpl negb.
  pose proof (strtoul_length json.(p)) as Hl.
  destruct (strtoul json.(p)) as [number endp]. simpl in Hl.
  success_cases.
  match goal with
  | H : _ || _ || _ || _ = false |- _ =>
    apply orb_false_iff in H as [H _]; apply orb_false_iff in H as [H _];
    apply orb_false_iff in H as [H _];
    pose proof (ptr_neq_shorter _ _ H Hl)
  end.
  length_after_advance. success_cases; intros; lia.
Qed.

Lemma read_f64_consumes strtod_end json :
  (forall q, (length (strtod_end q) <= length q)%nat) ->
  json.(poison) = 0 -> fst (c_json_read_f64 strtod_end json) = 0 ->
  (length (snd (c_json_read_f64 strtod_end json)).(p) < length json.(p))%nat.
Proof.
  intros Hf Hp. unfold c_json_read_f64, fail. rewrite Hp. simpl negb.
  success_cases. intros _.
  match goal with
  | H : ptr_eqb _ _ = false |- _ => pose proof (ptr_neq_shorter _ _ H (Hf _))
  end.
  length_after_advance. lia.
Qed.

Lemma read_string_consumes json :
  json.(poison) = 0 -> fst (fst (c_json_read_string json)) = 0 ->
  (length (snd (c_json_read_string json)).(p) < length json.(p))%nat.
Proof.
  intros Hp. unfold c_json_read_string. rewrite Hp. simpl negb. cbv iota.
  destruct (negb (cur json.(p) =? chr "034")) eqn:Hc; [discriminate|].
  cursor_nonempty. pose proof (drop_shorter json.(p) 1 Hn) as Hd.
  simpl p.
  destruct (string_scan (drop 1 json.(p)) []) as [[[r q] out]|] eqn:Es.
  - simpl. destruct (r =? 0) eqn:E; simpl; [|now apply Z.eqb_neq in E].
    apply Z.eqb_eq in E. subst r.
    destruct (loop_break_length _ _ _ _ _ Es) as [H1 H2].
    pose proof (drop_shorter q 1 H1).
    length_after_advance. success_cases; intros; lia.
  - destruct (string_scan_total (drop 1 json.(p)) []) as [? Hs]. congruence.
Qed.

Lemma open_array_consumes json :
  json.(poison) = 0 -> fst (c_json_open_array json) = 0 ->
  (length (snd (c_json_open_array json)).(p) < length json.(p))%nat.
Proof.
  intros Hp. unfold c_json_open_array, fail. rewrite Hp. simpl negb.
  success_cases. intros _. cursor_nonempty.
  pose proof (drop_shorter json.(p) 1 Hn).
  pose proof (skip_space_suffix (drop 1 json.(p))). lia.
Qed.

Lemma open_object_consumes json :
  json.(poison) = 0 -> fst (c_json_open_object json) = 0 ->
  (length (snd (c_json_open_object json)).(p) < length json.(p))%nat.
Proof.
  intros Hp. unfold c_json_open_object, fail. rewrite Hp. simpl negb.
  success_cases. intros _. cursor_nonempty.
  pose proof (drop_shorter json.(p) 1 Hn).
  pose proof (skip_space_suffix (drop 1 json.(p))). lia.
Qed.

Lemma close_array_consumes json :
  json.(poison) = 0 -> fst (c_json_close_array json) = 0 ->
  (length (snd (c_json_close_array json)).(p) < length json.(p))%nat.
Proof.
  intros Hp. unfold c_json_close_array, fail. rewrite Hp. simpl negb.
  success_cases. intros _. cursor_nonempty.
  pose proof (drop_shorter json.(p) 1 Hn). length_after_advance. lia.
Qed.

Lemma close_object_consumes json :
  json.(poison) = 0 -> fst (c_json_close_object json) = 0 ->
  (length (snd (c_json_close_object json)).(p) < length json.(p))%nat.
Proof.
  intros Hp. unfold c_json_close_object, fail. rewrite Hp. simpl negb.
  success_cases. intros _. cursor_nonempty.
  pose proof (drop_shorter json.(p) 1 Hn). length_after_advance. lia.
Qed.

(** X18.  On an unpoisoned reader every call that reads a value or
    enters or leaves a container and returns [0] has moved the cursor
    forward by at least one character: a caller that goes on while its
    calls succeed comes to an end.  ([strtod] is taken not to leave its
    end in front of its start.) *)
Theorem successful_call_consumes (strtod_end : list Z -> list Z) (o : op)
    (json : CJson) :
  (forall q, (length (strtod_end q) <= length q)%nat) ->
  json.(poison) = 0 ->
  In o reading_calls ->
  ret_code (fst (exec strtod_end o json)) = Some 0 ->
  (length (snd (exec strtod_end o json)).(p) < length json.(p))%nat.
Proof.
  intros Hf Hp Ho. unfold reading_calls in Ho. simpl in Ho.
  repeat (destruct Ho as [<- | Ho]); [.. | contradiction]; unfold exec.
  - pose proof (read_null_consumes json Hp) as H.
    destruct (c_json_read_null json) as [r j]. simpl in *.
    intros [= ->]. now apply H.
  - pose proof (read_string_consumes json Hp) as H.
    destruct (c_json_read_string json) as [[r s] j]. simpl in *.
    intros [= ->]. now apply H.
  - pose proof (read_u64_consumes json Hp) as H.
    destruct (c_json_read_u64 json) as [[r s] j]. simpl in *.
    intros [= ->]. now apply H.
  - pose proof (read_f64_consumes strtod_end json Hf Hp) as H.
    destruct (c_json_read_f64 strtod_end json) as [r j]. simpl in *.
    intros [= ->]. now apply H.
  - pose proof (read_bool_consumes json Hp) as H.
    destruct (c_json_read_bool json) as [[r s] j]. simpl in *.
    intros [= ->]. now apply H.
  - pose proof (open_array_consumes json Hp) as H.
    destruct (c_json_open_array json) as [r j]. simpl in *.
    intros [= ->]. now apply H.
  - pose proof (close_array_consumes json Hp) as H.
    destruct (c_json_close_array json) as [r j]. simpl in *.
    intros [= ->]. now apply H.
  - pose proof (open_object_consumes json Hp) as H.
    destruct (c_json_open_object json) as [r j]. simpl in *.
    intros [= ->]. now apply H.
  - pose proof (close_object_consumes json Hp) as H.
    destruct (c_json_close_object json) as [r j]. simpl in *.
    intros [= ->]. now apply H.
Qed.

Lemma successful_call_consumes_witness :
  (length (snd (exec (fun q => q) OpReadU64 at_leading_zeros)).(p)
   < length at_leading_zeros.(p))%nat.
Proof.
  apply (successful_call_consumes (fun q => q) OpReadU64 at_leading_zeros).
  - intros q. lia.
  - reflexivity.
  - unfold reading_calls. simpl. tauto.
  - reflexivity.
Defined.

(** ** The end of a session *)

(** X19.  On an unpoisoned reader [c_json_end_read] returns [0] exactly
    when no container is open and the cursor is at the end of the
    input, [C_JSON_E_INVALID_TYPE] exactly when a container is open, and
    [C_JSON_E_INVALID_JSON] exactly when no container is open and text
    is left.  The verdict is not recorded as poison; the level is reset
    and the input is detached. *)
Theorem end_read_verdict (json : CJson) :
  json.(poison) = 0 -> 0 <= json.(level) ->
  let r := fst (c_json_end_read json) in
  let json' := snd (c_json_end_read json) in
  (r = 0 <-> json.(level) = 0 /\ cur json.(p) = 0) /\
  (r = C_JSON_E_INVALID_TYPE <-> 0 < json.(level)) /\
  (r = C_JSON_E_INVALID_JSON <-> json.(level) = 0 /\ cur json.(p) <> 0) /\
  json'.(poison) = 0 /\ json'.(level) = 0 /\ json'.(input) = None /\
  json'.(states) = json.(states).
Proof.
  intros Hp Hl. unfold c_json_end_read. rewrite Hp. simpl.
  destruct (0 <? json.(level)) eqn:E1;
    [apply Z.ltb_lt in E1 | apply Z.ltb_ge in E1].
  - replace (json.(level) =? 0) with false by (symmetry; apply Z.eqb_neq; lia).
    simpl. repeat split; try discriminate; try lia; intros [? _]; lia.
  - replace (json.(level) =? 0) with true by (symmetry; apply Z.eqb_eq; lia).
    simpl. destruct (cur json.(p) =? 0) eqn:E2; simpl;
      [apply Z.eqb_eq in E2 | apply Z.eqb_neq in E2];
      repeat split; try discriminate; try lia; try tauto;
      try (intros [_ ?]; congruence).
Qed.

Lemma end_read_verdict_witness :
  fst (c_json_end_read behind_spaced_number) = C_JSON_E_INVALID_TYPE.
Proof.
  assert (Hl : 0 <= behind_spaced_number.(level)) by discriminate.
  destruct (end_read_verdict behind_spaced_number eq_refl Hl)
    as (_ & H & _).
  apply H. reflexivity.
Defined.

(** ** Peeking *)

Ltac bool_hyps :=
  repeat match goal with
  | H : negb _ = true |- _ => apply negb_true_iff in H
  | H : negb _ = false |- _ => apply negb_false_iff in H
  | H : _ || _ = true |- _ => apply orb_true_iff in H
  | H : _ || _ = false |- _ => apply orb_false_iff in H as [? ?]
  | H : _ && _ = true |- _ => apply andb_true_iff in H as [? ?]
  | H : _ && _ = false |- _ => apply andb_false_iff in H
  | H : (_ =? _) = true |- _ => apply Z.eqb_eq in H
  | H : (_ =? _) = false |- _ => apply Z.eqb_neq in H
  | H : (_ <=? _) = true |- _ => apply Z.leb_le in H
  | H : (_ <=? _) = false |- _ => apply Z.leb_gt in H
  end.

Ltac peek_case :=
  intros; first [ reflexivity | congruence | exfalso; bool_hyps; chr_eval; lia ].

(** X20.  [c_json_peek] and the readers agree on an unpoisoned reader:
    whenever [c_json_read_null], [c_json_read_bool],
    [c_json_read_string], [c_json_open_array] or [c_json_open_object]
    returns something other than [C_JSON_E_INVALID_TYPE], a preceding
    [c_json_peek] reports the kind of value that the function is for. *)
Theorem peek_agrees_with_readers (json : CJson) :
  json.(poison) = 0 ->
  (fst (c_json_read_null json) <> C_JSON_E_INVALID_TYPE ->
   fst (c_json_peek json) = Some C_JSON_TYPE_NULL) /\
  (fst (fst (c_json_read_bool json)) <> C_JSON_E_INVALID_TYPE ->
   fst (c_json_peek json) = Some C_JSON_TYPE_BOOLEAN) /\
  (fst (fst (c_json_read_string json)) <> C_JSON_E_INVALID_TYPE ->
   fst (c_json_peek json) = Some C_JSON_TYPE_STRING) /\
  (fst (c_json_open_array json) <> C_JSON_E_INVALID_TYPE ->
   fst (c_json_peek json) = Some C_JSON_TYPE_ARRAY) /\
  (fst (c_json_open_object json) <> C_JSON_E_INVALID_TYPE ->
   fst (c_json_peek json) = Some C_JSON_TYPE_OBJECT).
Proof.
  intros Hp. unfold c_json_peek. rewrite Hp. simpl negb. cbv iota zeta.
  unfold in_range.
  repeat split.
  - unfold c_json_read_null, fail. rewrite Hp. simpl negb. cbv iota.
    destruct (cur_state json =? chr "{"); [simpl; congruence|].
    destruct (cur json.(p) =? chr "n") eqn:E; [|simpl; congruence].
    intros _. repeat split_if; simpl; peek_case.
  - unfold c_json_read_bool. rewrite Hp. simpl negb. cbv iota.
    destruct (cur_state json =? chr "{"); [simpl; congruence|].
    destruct (cur json.(p) =? chr "t") eqn:Et.
    + intros _. repeat split_if; simpl; peek_case.
    + destruct (cur json.(p) =? chr "f") eqn:Ef; [|simpl; congruence].
      intros _. repeat split_if; simpl; peek_case.
  - unfold c_json_read_string. rewrite Hp. simpl negb. cbv iota.
    destruct (negb (cur json.(p) =? chr "034")) eqn:E; [simpl; congruence|].
    intros _. repeat split_if; simpl; peek_case.
  - unfold c_json_open_array, fail. rewrite Hp. simpl negb. cbv iota.
    destruct (cur_state json =? chr "{"); [simpl; congruence|].
    destruct (negb (cur json.(p) =? chr "[")) eqn:E; [simpl; congruence|].
    intros _. repeat split_if; simpl; peek_case.
  - unfold c_json_open_object, fail. rewrite Hp. simpl negb. cbv iota.
    destruct (cur_state json =? chr "{"); [simpl; congruence|].
    destruct (negb (cur json.(p) =? chr "{")) eqn:E; [simpl; congruence|].
    intros _. repeat split_if; simpl; peek_case.
Qed.

Lemma peek_agrees_with_readers_witness :
  fst (c_json_peek at_null) = Some C_JSON_TYPE_NULL.
Proof.
  destruct (peek_agrees_with_readers at_null eq_refl) as [H _].
  apply H. discriminate.
Defined.

(** ** The kind of the container *)

(** The state that a successful open leaves. *)
Lemma open_array_success d json :
  valid_depth d -> stack_inv d json ->
  fst (c_json_open_array json) = 0 ->
  (snd (c_json_open_array json)).(poison) = 0 /\
  cur_state (snd (c_json_open_array json)) = chr "[".
Proof.
  intros Hd Hi. pose proof (open_array_returns_poison json) as Hpo.
  intros Hr. split; [congruence|]. clear Hpo. revert Hr.
  unfold c_json_open_array, fail. success_cases.
  - intros E. bool_hyps. contradiction.
  - intros _. bool_hyps. destruct Hi as [Hn Hl Hlen _].
    unfold cur_state. simpl.
    rewrite (size_incr_exact d) by (assumption || lia).
    apply load_store_eq.
Qed.

Lemma open_object_success d json :
  valid_depth d -> stack_inv d json ->
  fst (c_json_open_object json) = 0 ->
  (snd (c_json_open_object json)).(poison) = 0 /\
  cur_state (snd (c_json_open_object json)) = chr "{".
Proof.
  intros Hd Hi. pose proof (open_object_returns_poison json) as Hpo.
  intros Hr. split; [congruence|]. clear Hpo. revert Hr.
  unfold c_json_open_object, fail. success_cases.
  - intros E. bool_hyps. contradiction.
  - intros _. bool_hyps. destruct Hi as [Hn Hl Hlen _].
    unfold cur_state. simpl.
    rewrite (size_incr_exact d) by (assumption || lia).
    apply load_store_eq.
Qed.

(** X21.  The reader remembers the kind of the container it is in.
    Right after [c_json_open_array] has succeeded, [c_json_close_object]
    fails with [C_JSON_E_INVALID_TYPE].  Right after
    [c_json_open_object] has succeeded the reader awaits a key:
    [c_json_close_array], [c_json_read_null], [c_json_read_u64],
    [c_json_read_f64], [c_json_read_bool], [c_json_open_array] and
    [c_json_open_object] all fail with [C_JSON_E_INVALID_TYPE] and
    record it. *)
Theorem container_kind_remembered (strtod_end : list Z -> list Z)
    (max_depth : Z) (json : CJson) :
  valid_depth max_depth ->
  reachable strtod_end max_depth json ->
  (fst (c_json_open_array json) = 0 ->
   let j := snd (c_json_open_array json) in
   c_json_close_object j = fail j C_JSON_E_INVALID_TYPE) /\
  (fst (c_json_open_object json) = 0 ->
   let j := snd (c_json_open_object json) in
   c_json_close_array j = fail j C_JSON_E_INVALID_TYPE /\
   c_json_read_null j = fail j C_JSON_E_INVALID_TYPE /\
   c_json_read_u64 j =
   (C_JSON_E_INVALID_TYPE, None, set_poison j C_JSON_E_INVALID_TYPE) /\
   c_json_read_f64 strtod_end j = fail j C_JSON_E_INVALID_TYPE /\
   c_json_read_bool j =
   (C_JSON_E_INVALID_TYPE, None, set_poison j C_JSON_E_INVALID_TYPE) /\
   c_json_open_array j = fail j C_JSON_E_INVALID_TYPE /\
   c_json_open_object j = fail j C_JSON_E_INVALID_TYPE).
Proof.
  intros Hd Hr. pose proof (reachable_stack_inv _ _ _ Hd Hr) as Hi.
  split; intros Ho j.
  - destruct (open_array_success _ _ Hd Hi Ho) as [Hp Hs]. fold j in Hp, Hs.
    unfold c_json_close_object. now rewrite Hp, Hs.
  - destruct (open_object_success _ _ Hd Hi Ho) as [Hp Hs]. fold j in Hp, Hs.
    unfold c_json_close_array, c_json_read_null, c_json_read_u64,
      c_json_read_f64, c_json_read_bool, c_json_open_array,
      c_json_open_object.
    rewrite Hp, Hs. repeat split.
Qed.

Lemma container_kind_remembered_witness :
  fst (c_json_read_null (snd (c_json_open_object at_object))) =
  C_JSON_E_INVALID_TYPE.
Proof.
  assert (Hd : valid_depth 1) by (unfold valid_depth; split; [lia | discriminate]).
  assert (Hr : reachable (fun q => q) 1 at_object).
  { apply (reachable_exec (fun q => q) 1
             (OpBeginRead (cstr "{" ++ dquote ++ cstr "a" ++ dquote
                           ++ cstr ":1}"))).
    - apply reachable_new.
    - reflexivity. }
  destruct (container_kind_remembered (fun q => q) 1 at_object Hd Hr)
    as [_ H].
  destruct (H eq_refl) as (_ & E & _). now rewrite E.
Defined.

(** ** Nested arrays *)

Lemma run_app strtod_end ops1 ops2 :
  forall json,
  run strtod_end (ops1 ++ ops2) json =
  (fst (run strtod_end ops1 json)
   ++ fst (run strtod_end ops2 (snd (run strtod_end ops1 json))),
   snd (run strtod_end ops2 (snd (run strtod_end ops1 json)))).
Proof.
  induction ops1 as [|o ops1 IH]; intros json.
  - simpl. now destruct (run strtod_end ops2 json).
  - cbn [app run]. destruct (exec strtod_end o json) as [r j].
    rewrite IH. destruct (run strtod_end ops1 j) as [rs j']. cbn [fst snd].
    now destruct (run strtod_end ops2 j').
Qed.

Lemma set_p_same json : set_p json json.(p) = json.
Proof. now destruct json. Qed.

(** [c_json_advance] at the root, or in an array in front of its closing
    bracket, leaves the reader as it is. *)
Lemma advance_stays json :
  json.(poison) = 0 -> is_space (cur json.(p)) = false ->
  cur_state json = 0 \/ (cur_state json = chr "[" /\ cur json.(p) = chr "]") ->
  c_json_advance json = (0, json).
Proof.
  intros Hp Hsp Hs. unfold c_json_advance. rewrite Hp. simpl negb. cbv iota.
  rewrite (skip_space_id _ Hsp), set_p_same.
  destruct Hs as [-> | [-> ->]]; reflexivity.
Qed.

Lemma close_array_at_bracket json :
  json.(poison) = 0 -> cur_state json = chr "[" -> cur json.(p) = chr "]" ->
  c_json_close_array json =
  c_json_advance
    (set_level (set_p json (drop 1 json.(p))) (size_decr json.(level))).
Proof.
  intros Hp Hs Hc. unfold c_json_close_array. now rewrite Hp, Hs, Hc.
Qed.

Lemma nest_text_no_space n rest :
  is_space (cur rest) = false ->
  is_space (cur (nest_text n ++ rest)) = false.
Proof. destruct n; [trivial | reflexivity]. Qed.

Lemma replicate_both_ends {A} (x : A) n :
  replicate (S n + S n) x = x :: replicate (n + n) x ++ [x].
Proof.
  replace (S n + S n)%nat with (S (S (n + n))) by lia.
  generalize (n + n)%nat. intros m. simpl. f_equal.
  induction m as [|m IH]; simpl; [reflexivity | now rewrite <- IH].
Qed.

Lemma nest_round_trip strtod_end n :
  forall json rest,
  json.(poison) = 0 -> cur_state json <> chr "{" ->
  0 <= json.(level) -> json.(level) + Z.of_nat n <= json.(n_states) ->
  json.(n_states) <= SIZE_MAX ->
  Z.of_nat (length json.(states)) = json.(n_states) + 1 ->
  json.(p) = nest_text n ++ rest -> is_space (cur rest) = false ->
  cur_state json = 0 \/ (cur_state json = chr "[" /\ cur rest = chr "]") ->
  fst (run strtod_end (nest_calls n) json) = replicate (n + n) (RInt 0) /\
  nest_left json (snd (run strtod_end (nest_calls n) json)) rest.
Proof.
  induction n as [|n IH];
    intros json rest Hp Hs Hl Hn Hmax Hlen Hq Hsp Hafter.
  - simpl. split; [reflexivity|]. constructor; auto.
  - assert (Hq' : json.(p) = chr "[" :: nest_text n ++ chr "]" :: rest)
      by (rewrite Hq; simpl; now rewrite <- app_assoc).
    clear Hq. rename Hq' into Hq. cbn [nest_calls].
    rewrite run_cons. cbn [run]. unfold exec at 1 2 3.
    rewrite (open_array_at_bracket json Hp Hs) by (now rewrite Hq).
    replace (json.(n_states) <=? json.(level)) with false
      by (symmetry; apply Z.leb_gt; lia).
    assert (Ei : size_incr json.(level) = json.(level) + 1)
      by (unfold size_incr; apply Z.mod_small; lia).
    rewrite Ei, Hq. unfold drop.
    rewrite (skip_space_id (nest_text n ++ chr "]" :: rest))
      by (now apply nest_text_no_space).
    set (j1 := set_cur_state _ _).
    assert (Hp1 : j1.(poison) = 0) by exact Hp.
    assert (Hl1 : j1.(level) = json.(level) + 1) by reflexivity.
    assert (Hn1 : j1.(n_states) = json.(n_states)) by reflexivity.
    assert (Hq1 : j1.(p) = nest_text n ++ chr "]" :: rest) by reflexivity.
    assert (Hlen1 : length j1.(states) = length json.(states)).
    { unfold j1. simpl.
      rewrite store_state_insert by lia. apply length_insert. }
    assert (Hs1 : cur_state j1 = chr "[").
    { unfold j1, cur_state. simpl.
      apply load_store_eq. }
    assert (Hst1 : forall i : nat, (i <= Z.to_nat json.(level))%nat ->
                   load_state i j1.(states) = load_state i json.(states)).
    { intros i Hi. unfold j1. simpl.
      apply load_store_ne. lia. }
    clearbody j1. cbn [fst snd].
    destruct (IH j1 (chr "]" :: rest)) as [Hr2 H2];
      try assumption; try lia; try reflexivity.
    { rewrite Hs1. discriminate. }
    { right. split; [assumption | reflexivity]. }
    rewrite run_app. cbn [fst snd]. rewrite Hr2.
    set (j2 := snd (run strtod_end (nest_calls n) j1)) in *.
    destruct H2 as [Hp2 Hl2 Hn2 Hq2 Hlen2 Hst2]. clearbody j2.
    assert (Hs2 : cur_state j2 = chr "[").
    { unfold cur_state. rewrite Hl2, Hst2 by lia. exact Hs1. }
    cbn [run]. unfold exec.
    rewrite (close_array_at_bracket j2 Hp2 Hs2) by (now rewrite Hq2).
    rewrite Hq2, Hl2, Hl1. unfold drop.
    assert (Ed : size_decr (json.(level) + 1) = json.(level)).
    { unfold size_decr. replace (json.(level) + 1 - 1) with json.(level) by lia.
      apply Z.mod_small. lia. }
    rewrite Ed.
    set (j3 := set_level (set_p j2 rest) json.(level)).
    assert (Hs3 : cur_state j3 = cur_state json).
    { unfold j3, cur_state. simpl. rewrite Hst2 by lia. apply Hst1. lia. }
    rewrite (advance_stays j3); [| exact Hp2 | exact Hsp |
      rewrite Hs3; destruct Hafter as [? | [? ?]]; [now left | now right]].
    cbn [fst snd]. split.
    + now rewrite replicate_both_ends.
    + constructor; simpl; try assumption; try reflexivity; try congruence.
      intros i Hi. rewrite Hst2 by lia. now apply Hst1.
Qed.

(** X22.  Arrays nested up to the depth of the reader are entered and
    left again.  On the text of [n] empty arrays, one in the other, with
    [n] at most [max_depth], the [n] calls of [c_json_open_array], the
    [n] calls of [c_json_close_array] and [c_json_end_read] all return
    [0]. *)
Theorem nested_arrays_round_trip (strtod_end : list Z -> list Z)
    (max_depth : Z) (n : nat) :
  valid_depth max_depth ->
  Z.of_nat n <= max_depth ->
  fst (run strtod_end (nest_calls n ++ [OpEndRead])
         (c_json_begin_read (c_json_new max_depth) (nest_text n))) =
  replicate (n + n + 1) (RInt 0).
Proof.
  intros [Hd0 Hd1] Hn.
  set (json := c_json_begin_read (c_json_new max_depth) (nest_text n)).
  assert (Hroot : cur_state json = 0).
  { unfold json, cur_state, c_json_new. simpl. apply load_replicate_zero. }
  assert (Hq : json.(p) = nest_text n ++ []).
  { unfold json. simpl. rewrite app_nil_r. apply skip_space_id.
    pose proof (nest_text_no_space n [] eq_refl) as H.
    now rewrite app_nil_r in H. }
  assert (Hs : cur_state json <> chr "{") by (rewrite Hroot; discriminate).
  assert (Hl : 0 <= json.(level)) by (simpl; lia).
  assert (Hln : json.(level) + Z.of_nat n <= json.(n_states)) by (simpl; lia).
  assert (Hmax : json.(n_states) <= SIZE_MAX)
    by (unfold sizeof_CJson in Hd1; simpl; lia).
  assert (Hlen : Z.of_nat (length json.(states)) = json.(n_states) + 1).
  { change (states json) with (states (c_json_new max_depth)).
    rewrite (new_states_valid max_depth (conj Hd0 Hd1)), length_replicate.
    simpl. lia. }
  destruct (nest_round_trip strtod_end n json [] eq_refl Hs Hl Hln Hmax Hlen
              Hq eq_refl (or_introl Hroot)) as [Hr Hleft].
  rewrite run_app. cbn [fst]. rewrite Hr.
  destruct Hleft as [Hp Hl' _ Hp' _ _].
  set (j := snd (run strtod_end (nest_calls n) json)) in *.
  cbn [run]. unfold exec, c_json_end_read.
  rewrite Hp, Hl', Hp'. simpl.
  rewrite (replicate_add (n + n) 1). reflexivity.
Qed.

Lemma nested_arrays_round_trip_witness :
  fst (run (fun q => q) (nest_calls 2 ++ [OpEndRead])
         (c_json_begin_read (c_json_new 2) (cstr "[[]]"))) =
  [RInt 0; RInt 0; RInt 0; RInt 0; RInt 0].
Proof.
  assert (Hd : valid_depth 2) by (unfold valid_depth; split; [lia | discriminate]).
  assert (Hn : Z.of_nat 2 <= 2) by discriminate.
  exact (nested_arrays_round_trip (fun q => q) 2 2 Hd Hn).
Defined.

(** X23.  The depth of the reader is a sharp bound: from a new reader of
    depth [n], on a text of [n + 1] opening brackets, [n] calls of
    [c_json_open_array] succeed and the next one fails with
    [C_JSON_E_DEPTH_OVERFLOW]. *)
Theorem depth_is_sharp (strtod_end : list Z -> list Z) (n : nat) :
  Z.of_nat n <= SIZE_MAX ->
  fst (run strtod_end (replicate (S n) OpOpenArray)
         (c_json_begin_read (c_json_new (Z.of_nat n))
                            (replicate (S n) (chr "[")))) =
  replicate n (RInt 0) ++ [RInt C_JSON_E_DEPTH_OVERFLOW].
Proof.
  intros Hn. apply (nesting_up_to_capacity strtod_end n _ []).
  - reflexivity.
  - unfold cur_state. simpl. rewrite load_replicate_zero. discriminate.
  - simpl. now rewrite app_nil_r.
  - simpl. lia.
  - simpl. lia.
  - exact Hn.
Qed.

Lemma depth_is_sharp_witness :
  fst (run (fun q => q) (replicate 3 OpOpenArray)
         (c_json_begin_read (c_json_new 2) (cstr "[[["))) =
  [RInt 0; RInt 0; RInt C_JSON_E_DEPTH_OVERFLOW].
Proof.
  assert (Hn : Z.of_nat 2 <= SIZE_MAX) by discriminate.
  exact (depth_is_sharp (fun q => q) 2 Hn).
Defined.
